(** * rlm_mcts: MCTS orchestration over a persistent code sandbox

    A shallow embedding of the Python sources of the repository:

    - [backend/repl_env.py], [backend/mcts_engine.py],
      [backend/value_network.py] (the transcript variant);
    - [rubric-discovery/backend/repl_env.py],
      [rubric-discovery/backend/mcts_engine.py],
      [rubric-discovery/backend/reward_signals.py] (the rubric variant).

    Conventions.  A Python [int] is a [Z]; a Python [str] is a [string]
    (a sequence of characters, [len] is [String.length]); a [dict] is a
    [gmap]; [None]-able values are [option]s.  A Python [float] is
    idealised as a real number [R]: no rounding error, no overflow, no NaN.
    Calls that leave the process (the language model, the interpreter's
    [exec]) are parameters of the sections that use them. *)

From Stdlib Require Import Reals Lra Lia ZArith List String Ascii.
From stdpp Require Import gmap strings list fin_maps pretty.

Open Scope R_scope.
Open Scope string_scope.

(** ** Python built-ins used by the sources *)

Module Py.

(** [min(a, b)] returns [b] when [b < a] and [a] otherwise. *)
Definition min2 (a b : R) : R := if Rlt_dec b a then b else a.

(** [max(a, b)] returns [b] when [b > a] and [a] otherwise. *)
Definition max2 (a b : R) : R := if Rgt_dec b a then b else a.

(** [a == b] on floats. *)
Definition float_eqb (a b : R) : bool := if Req_dec_T a b then true else false.

(** [sum(xs)]: a left fold from [0]. *)
Definition sum (xs : list R) : R := fold_left Rplus xs 0.

(** [len(xs)] as a float operand. *)
Definition len {A} (xs : list A) : R := INR (length xs).

(** Nearest integer, ties to the even neighbour. *)
Definition round_half_even (y : R) : Z :=
  let f := Zfloor y in
  let d := y - IZR f in
  if Rlt_dec d (1/2) then f
  else if Rgt_dec d (1/2) then (f + 1)%Z
  else if Z.even f then f else (f + 1)%Z.

(** [round(x, ndigits)] on a float. *)
Definition round (x : R) (ndigits : nat) : R :=
  IZR (round_half_even (x * 10 ^ ndigits)) / 10 ^ ndigits.

(** *** Strings *)

(** [s[:n]] *)
Fixpoint slice_to (n : nat) (s : string) : string :=
  match n, s with
  | O, _ => ""
  | S _, EmptyString => ""
  | S n', String c s' => String c (slice_to n' s')
  end.

(** [s.startswith(p)] *)
Fixpoint startswith (p s : string) : bool :=
  match p, s with
  | EmptyString, _ => true
  | String _ _, EmptyString => false
  | String a p', String b s' => if Ascii.eqb a b then startswith p' s' else false
  end.

(** [sub in s] *)
Fixpoint contains (sub s : string) : bool :=
  if startswith sub s then true
  else match s with
       | EmptyString => false
       | String _ s' => contains sub s'
       end.

(** Drop the first [n] characters: [s[n:]]. *)
Fixpoint slice_from (n : nat) (s : string) : string :=
  match n, s with
  | O, _ => s
  | S _, EmptyString => ""
  | S n', String _ s' => slice_from n' s'
  end.

(** [s.count(sub)] for a non-empty [sub]: occurrences that do not
    overlap, scanned from the left.  [fuel] bounds the scan by the
    length of [s]. *)
Fixpoint count_from (fuel : nat) (sub s : string) : Z :=
  match fuel with
  | O => 0%Z
  | S fuel' =>
      match s with
      | EmptyString => 0%Z
      | String _ s' =>
          if startswith sub s
          then (1 + count_from fuel' sub (slice_from (String.length sub) s))%Z
          else count_from fuel' sub s'
      end
  end.

Definition count (sub s : string) : Z := count_from (String.length s) sub s.

(** Characters removed by [str.strip()] with no argument. *)
Definition is_space (c : ascii) : bool :=
  match c with
  | " "%char | "009"%char | "010"%char | "011"%char | "012"%char | "013"%char
  | "028"%char | "029"%char | "030"%char | "031"%char => true
  | _ => false
  end.

(** [s.lstrip(chars)], the characters given as a test. *)
Fixpoint lstrip_chars (p : ascii -> bool) (s : string) : string :=
  match s with
  | String c s' => if p c then lstrip_chars p s' else s
  | EmptyString => ""
  end.

(** [s.strip(chars)] *)
Definition strip_chars (p : ascii -> bool) (s : string) : string :=
  String.rev (lstrip_chars p (String.rev (lstrip_chars p s))).

Definition lstrip (s : string) : string := lstrip_chars is_space s.

(** [s.strip()] *)
Definition strip (s : string) : string := strip_chars is_space s.

(** [s.split(sep)] for a one-character separator. *)
Fixpoint split_go (sep : ascii) (cur : string) (s : string) : list string :=
  match s with
  | EmptyString => [String.rev cur]
  | String c s' =>
      if Ascii.eqb c sep then String.rev cur :: split_go sep "" s'
      else split_go sep (String c cur) s'
  end.

Definition split (sep : ascii) (s : string) : list string := split_go sep "" s.

(** [sep.join(parts)] *)
Fixpoint join (sep : string) (parts : list string) : string :=
  match parts with
  | [] => ""
  | [p] => p
  | p :: ps => p ++ sep ++ join sep ps
  end.

Definition newline : ascii := "010"%char.
Definition nl : string := String newline "".

(** A decimal digit. *)
Definition is_digit (c : ascii) : bool :=
  let n := nat_of_ascii c in (48 <=? n)%nat && (n <=? 57)%nat.

Definition digit_val (c : ascii) : Z := (Z.of_nat (nat_of_ascii c) - 48)%Z.

End Py.


(** ** Facts about the built-ins *)

Module PyFacts.

Lemma min2_Rmin a b : Py.min2 a b = Rmin a b.
Proof.
  unfold Py.min2, Rmin.
  destruct (Rlt_dec b a), (Rle_dec a b); lra.
Qed.

Lemma max2_Rmax a b : Py.max2 a b = Rmax a b.
Proof.
  unfold Py.max2, Rmax.
  destruct (Rgt_dec b a), (Rle_dec a b); lra.
Qed.

Lemma min2_le_l a b : Py.min2 a b <= a.
Proof. rewrite min2_Rmin. apply Rmin_l. Qed.

Lemma min2_le_r a b : Py.min2 a b <= b.
Proof. rewrite min2_Rmin. apply Rmin_r. Qed.

Lemma max2_ge_l a b : a <= Py.max2 a b.
Proof. rewrite max2_Rmax. apply Rmax_l. Qed.

Lemma max2_ge_r a b : b <= Py.max2 a b.
Proof. rewrite max2_Rmax. apply Rmax_r. Qed.

Lemma max2_lub a b c : a <= c -> b <= c -> Py.max2 a b <= c.
Proof. intros. rewrite max2_Rmax. now apply Rmax_lub. Qed.

Lemma min2_glb a b c : c <= a -> c <= b -> c <= Py.min2 a b.
Proof. intros. rewrite min2_Rmin. now apply Rmin_glb. Qed.

(** The clamp [max(0, min(1.0, x))] written throughout the sources. *)
Lemma clamp_unit x : 0 <= Py.max2 0 (Py.min2 1 x) <= 1.
Proof.
  split; [apply max2_ge_l |].
  apply max2_lub; [lra | apply min2_le_l].
Qed.

Lemma clamp_id x : 0 <= x <= 1 -> Py.max2 0 (Py.min2 1 x) = x.
Proof.
  intros [H0 H1]. unfold Py.max2, Py.min2.
  destruct (Rlt_dec x 1); destruct (Rgt_dec _ 0); lra.
Qed.

Lemma round_half_even_ge (z : Z) y : IZR z <= y -> (z <= Py.round_half_even y)%Z.
Proof.
  intros H. unfold Py.round_half_even.
  pose proof (Zfloor_lub z y H).
  destruct (Rlt_dec _ _); [lia|].
  destruct (Rgt_dec _ _); [lia|].
  destruct (Z.even _); lia.
Qed.

Lemma round_half_even_le (z : Z) y : y <= IZR z -> (Py.round_half_even y <= z)%Z.
Proof.
  intros H. unfold Py.round_half_even.
  pose proof (Zfloor_bound y) as [Hlo Hhi].
  assert (Hfz : (Zfloor y <= z)%Z) by (apply le_IZR; lra).
  destruct (Z.eq_dec (Zfloor y) z) as [Heq|Hne].
  - rewrite Heq in *.
    destruct (Rlt_dec _ _); [lia | lra].
  - assert ((Zfloor y + 1 <= z)%Z) by lia.
    destruct (Rlt_dec _ _); [lia|].
    destruct (Rgt_dec _ _); [lia|].
    destruct (Z.even _); lia.
Qed.

Lemma round_half_even_IZR (z : Z) : Py.round_half_even (IZR z) = z.
Proof.
  apply Z.le_antisymm.
  - apply round_half_even_le; lra.
  - apply round_half_even_ge; lra.
Qed.

Lemma pow10_pos n : 0 < 10 ^ n.
Proof. apply pow_lt; lra. Qed.

(** Rounding keeps a value of the unit interval inside it. *)
Lemma round_unit x n : 0 <= x <= 1 -> 0 <= Py.round x n <= 1.
Proof.
  intros [H0 H1]. unfold Py.round.
  pose proof (pow10_pos n) as Hp.
  assert (Hlo : (0 <= Py.round_half_even (x * 10 ^ n))%Z).
  { apply round_half_even_ge. simpl. nra. }
  assert (Hhi : (Py.round_half_even (x * 10 ^ n) <= 10 ^ Z.of_nat n)%Z).
  { apply round_half_even_le. rewrite <- pow_IZR. nra. }
  apply IZR_le in Hlo, Hhi. rewrite <- pow_IZR in Hhi.
  split.
  - apply Rmult_le_pos; [exact Hlo | left; now apply Rinv_0_lt_compat].
  - apply Rmult_le_reg_r with (10 ^ n); [exact Hp|].
    unfold Rdiv. rewrite Rmult_assoc, Rinv_l by lra. lra.
Qed.

(** A value that already has [n] decimals is left as it is. *)
Lemma round_exact (z : Z) n : Py.round (IZR z / 10 ^ n) n = IZR z / 10 ^ n.
Proof.
  unfold Py.round. pose proof (pow10_pos n).
  replace (IZR z / 10 ^ n * 10 ^ n) with (IZR z) by (field; lra).
  now rewrite round_half_even_IZR.
Qed.

Lemma slice_to_length n s : (String.length (Py.slice_to n s) <= n)%nat.
Proof.
  revert s. induction n as [|n IH]; intros [|c s]; simpl; try lia.
  specialize (IH s). lia.
Qed.

Lemma slice_to_short n s : (String.length s <= n)%nat -> Py.slice_to n s = s.
Proof.
  revert s. induction n as [|n IH]; intros [|c s]; simpl; intros H; try reflexivity; try lia.
  f_equal. apply IH. lia.
Qed.

Lemma slice_to_length_min n s :
  String.length (Py.slice_to n s) = Nat.min n (String.length s).
Proof.
  revert s. induction n as [|n IH]; intros [|c s]; simpl; try reflexivity.
  now rewrite IH.
Qed.

End PyFacts.

(** ** The five reward signals ([rubric-discovery/backend/reward_signals.py]) *)

Module RewardSignals.

(** One entry of [train_results] / [eval_results]: the dict
    [{"predicted": ..., "actual": ...}]. *)
Record result := { predicted : R; actual : R }.

Definition _mae (results : list result) : R :=
  match results with
  | [] => 1
  | _ =>
      let errors := map (fun r => Rabs (predicted r - actual r)) results in
      Py.sum errors / Py.len errors
  end.

Definition _std (values : list R) : R :=
  if (length values <? 2)%nat then 0
  else
    let mean := Py.sum values / Py.len values in
    sqrt (Py.sum (map (fun v => (v - mean) ^ 2) values) / (Py.len values - 1)).

(** [enumerate(values)] *)
Definition enumerate (values : list R) : list (nat * R) :=
  imap (fun i v => (i, v)) values.

(** [sorted(..., key=lambda x: x[1])]: a stable sort on the value. *)
Fixpoint insert_by_value (x : nat * R) (l : list (nat * R)) : list (nat * R) :=
  match l with
  | [] => [x]
  | y :: l' => if Rlt_dec (snd y) (snd x) then y :: insert_by_value x l' else x :: l
  end.

Definition sorted_by_value (l : list (nat * R)) : list (nat * R) :=
  fold_right insert_by_value [] l.

(** The inner loop of [_rank]:
    [while j < len(indexed) and indexed[j][1] == indexed[i][1]: j += 1]. *)
Fixpoint rank_inner (fuel : nat) (indexed : list (nat * R)) (vi : R) (j : nat) : nat :=
  match fuel with
  | O => j
  | S fuel' =>
      match indexed !! j with
      | Some (_, vj) => if Py.float_eqb vj vi then rank_inner fuel' indexed vi (S j) else j
      | None => j
      end
  end.

(** [for k in range(i, j): ranks[indexed[k][0]] = avg_rank] *)
Definition rank_assign (indexed : list (nat * R)) (avg_rank : R) (i j : nat)
    (ranks : list R) : list R :=
  fold_left
    (fun rk k => match indexed !! k with
                 | Some (idx, _) => <[idx := avg_rank]> rk
                 | None => rk
                 end)
    (seq i (j - i)) ranks.

(** The outer loop of [_rank]; every turn moves [i] forward, so
    [len(indexed)] turns are enough. *)
Fixpoint rank_outer (fuel : nat) (indexed : list (nat * R)) (i : nat)
    (ranks : list R) : list R :=
  match fuel with
  | O => ranks
  | S fuel' =>
      match indexed !! i with
      | None => ranks
      | Some (_, vi) =>
          let j := rank_inner (length indexed) indexed vi i in
          let avg_rank := (INR i + INR j + 1) / 2 in
          rank_outer fuel' indexed j (rank_assign indexed avg_rank i j ranks)
      end
  end.

Definition _rank (values : list R) : list R :=
  let indexed := sorted_by_value (enumerate values) in
  rank_outer (length indexed) indexed 0 (repeat 0 (length values)).

Definition generalization_reward (train_results eval_results : list result) : R :=
  match train_results, eval_results with
  | [], _ | _, [] => 0
  | _, _ =>
      let train_mae := _mae train_results in
      let eval_mae := _mae eval_results in
      if Py.float_eqb train_mae 0 && Py.float_eqb eval_mae 0 then 1
      else
        let gap := Py.max2 0 (eval_mae - train_mae) in
        let eval_accuracy := Py.max2 0 (1 - eval_mae) in
        let gen_score := eval_accuracy * (1 - Py.min2 gap 1) in
        Py.round (Py.max2 0 (Py.min2 1 gen_score)) 4
  end.

Definition calibration_reward (results : list result) : R :=
  match results with
  | [] => 0
  | _ =>
      let actuals := map actual results in
      let preds := map predicted results in
      let actual_mean := Py.sum actuals / Py.len actuals in
      let pred_mean := Py.sum preds / Py.len preds in
      let mean_diff := Rabs (actual_mean - pred_mean) in
      let actual_std := _std actuals in
      let pred_std := _std preds in
      let std_ratio :=
        Py.min2 pred_std actual_std / Py.max2 (Py.max2 pred_std actual_std) (1 / 1000000) in
      let calibration := (1 - Py.min2 mean_diff 1) * 0.6 + std_ratio * 0.4 in
      Py.round (Py.max2 0 (Py.min2 1 calibration)) 4
  end.

Definition discrimination_reward (results : list result) : R :=
  if (length results <? 3)%nat then 0
  else
    let n := Py.len results in
    let actuals := map actual results in
    let preds := map predicted results in
    let ranked_a := _rank actuals in
    let ranked_p := _rank preds in
    let d_sq := Py.sum (map (fun '(ra, rp) => (ra - rp) ^ 2) (zip ranked_a ranked_p)) in
    let rho := 1 - (6 * d_sq) / (n * (n * n - 1)) in
    Py.round (Py.max2 0 (Py.min2 1 ((rho + 1) / 2))) 4.

Definition logic_keywords : list string :=
  ["if "; "for "; "len("; "re."; "split"; "lower"; "count"].

Definition validity_reward (rubric_code : string) (execution_success : bool)
    (stdout stderr : string) : R :=
  if negb execution_success then 0
  else
    let score := 0.6 in
    let score :=
      if Py.contains "return 0" rubric_code && (Py.count "return" rubric_code =? 1)%Z
      then score - 0.3 else score in
    let score :=
      if Py.contains "return 1" rubric_code && (Py.count "return" rubric_code =? 1)%Z
      then score - 0.3 else score in
    let logic_count :=
      length (filter (fun kw => Py.contains kw rubric_code = true) logic_keywords) in
    let score := score + Py.min2 (INR logic_count * 0.05) 0.3 in
    let score :=
      if Py.contains "response" rubric_code || Py.contains "text" rubric_code
      then score + 0.1 else score in
    Py.round (Py.max2 0 (Py.min2 1 score)) 4.

Definition iteration_reward (current_mae : R) (parent_mae : option R) : R :=
  match parent_mae with
  | None => Py.round (Py.max2 0 (Py.min2 1 (1 - current_mae))) 4
  | Some parent_mae =>
      if Py.float_eqb parent_mae 0 then (if Py.float_eqb current_mae 0 then 1 else 0)
      else
        let improvement := (parent_mae - current_mae) / parent_mae in
        if Rgt_dec improvement 0
        then Py.round (Py.min2 1 (0.3 + improvement * 0.7)) 4
        else Py.round (Py.max2 0 (0.3 + improvement)) 4
  end.

(** The keys of the [signals] and [weights] dicts. *)
Inductive signal := Generalization | Calibration | Discrimination | Validity | Iteration.

(** The [weights] dict, in insertion order. *)
Definition weights : list (signal * R) :=
  [(Generalization, 1); (Calibration, 0.4); (Discrimination, 0.3);
   (Validity, 0.2); (Iteration, 0.2)].

(** What [compute_rewards] returns (the [weights] entry is the constant above). *)
Record rewards := {
  generalization : R;
  calibration : R;
  discrimination : R;
  validity : R;
  iteration : R;
  composite : R
}.

Definition compute_rewards (rubric_code : string) (train_results eval_results : list result)
    (execution_success : bool) (stdout stderr : string) (parent_mae : option R) : rewards :=
  let train_mae := match train_results with [] => 1 | _ => _mae train_results end in
  let g := generalization_reward train_results eval_results in
  let c := calibration_reward train_results in
  let d := discrimination_reward train_results in
  let v := validity_reward rubric_code execution_success stdout stderr in
  let i := iteration_reward train_mae parent_mae in
  let signals (k : signal) : R :=
    match k with
    | Generalization => g | Calibration => c | Discrimination => d
    | Validity => v | Iteration => i
    end in
  let total_w := Py.sum (map snd weights) in
  let composite := Py.sum (map (fun '(k, w) => signals k * w) weights) / total_w in
  {| generalization := g; calibration := c; discrimination := d;
     validity := v; iteration := i; composite := Py.round composite 4 |}.

End RewardSignals.

(** ** Outcomes of code that may raise or loop *)

(** The exceptions the modelled code can raise. *)
Inductive exn :=
| KeyError (key : string)
| LogDomainError          (* ValueError: math domain error, from math.log *)
| SqrtDomainError         (* ValueError: math domain error, from math.sqrt *)
| ValueError (msg : string)
| ImportError (msg : string)
| NameError (name : string)
| TypeError (msg : string).

(** A call returns, raises, or is still running when the fuel of a
    [while] loop is used up. *)
Inductive outcome (A : Type) :=
| Ok (a : A)
| Raise (e : exn)
| OutOfFuel.
Arguments Ok {A} a.
Arguments Raise {A} e.
Arguments OutOfFuel {A}.

Definition bind {A B} (m : outcome A) (k : A -> outcome B) : outcome B :=
  match m with
  | Ok a => k a
  | Raise e => Raise e
  | OutOfFuel => OutOfFuel
  end.

Notation "'let*' x ':=' m 'in' k" := (bind m (fun x => k))
  (at level 10, x name, m at level 100, k at level 200).

(** A loop whose body may raise: over the items, from the left. *)
Fixpoint foldM_outcome {A B} (f : A -> B -> outcome A) (a : A) (l : list B) : outcome A :=
  match l with
  | [] => Ok a
  | x :: l' => let* a' := f a x in foldM_outcome f a' l'
  end.

(** A list comprehension whose items may raise. *)
Fixpoint mapM_outcome {A B} (f : A -> outcome B) (l : list A) : outcome (list B) :=
  match l with
  | [] => Ok []
  | x :: l' => let* y := f x in let* ys := mapM_outcome f l' in Ok (y :: ys)
  end.

(** [d[k]] on a dict. *)
Definition getitem {V} (d : gmap string V) (k : string) : outcome V :=
  match d !! k with
  | Some v => Ok v
  | None => Raise (KeyError k)
  end.

(** ** The LLM-as-judge score ([backend/value_network.py]) *)

Module ValueNetwork.

(** The longest prefix of digits, and what follows it. *)
Fixpoint take_digits (s : string) : string * string :=
  match s with
  | String c s' =>
      if Py.is_digit c
      then let '(ds, rest) := take_digits s' in (String c ds, rest)
      else ("", s)
  | EmptyString => ("", "")
  end.

(** What the pattern (one or more digits, an optional point, any number
    of digits) matches at the start of [s], which starts with a digit. *)
Definition match_number (s : string) : string :=
  let '(ds, rest) := take_digits s in
  match rest with
  | String "."%char rest' => let '(fs, _) := take_digits rest' in ds ++ "." ++ fs
  | _ => ds
  end.

(** [re.search] for that pattern: the leftmost match, [None] when the
    text has no digit. *)
Fixpoint search_number (text : string) : option string :=
  match text with
  | EmptyString => None
  | String c text' =>
      if Py.is_digit c then Some (match_number text) else search_number text'
  end.

(** The integer a string of digits spells. *)
Definition digits_value (ds : string) : Z :=
  fold_left (fun acc c => (acc * 10 + Py.digit_val c)%Z) (list_ascii_of_string ds) 0%Z.

(** [float(m)] for a match [m] of the pattern: digits, then possibly a
    point and more digits. *)
Definition float_of_match (m : string) : R :=
  let '(ip, rest) := take_digits m in
  let fp := match rest with String "."%char r => r | _ => "" end in
  IZR (digits_value ip) + IZR (digits_value fp) / 10 ^ String.length fp.

Definition _extract_score (text : string) : R :=
  let text := Py.strip text in
  match search_number text with
  | Some m =>
      let score := float_of_match m in
      Py.max2 0 (Py.min2 1 score)
  | None => 0.5
  end.

End ValueNetwork.

(** ** What executed code does to its sandbox

    Both sandboxes hand a code fragment to the interpreter's [exec]
    together with a namespace.  What the fragment then does is described
    by a tree of the calls it makes into the sandbox (writes to the
    captured streams, imports, the injected helpers) ending with the
    namespace it leaves behind. *)

Module Interp.

Set Warnings "-register-all".

(** Values a namespace can hold. *)
Inductive value :=
| VInt (z : Z)
| VStr (s : string)
| VNone
| VModule (name : string)
(** [__builtins__]: the names it offers and its [__import__]. *)
| VBuiltins (names : list string) (import_fn : string -> outcome value)
(** a helper the sandbox injected (llm_query, FINAL_VAR, test_rubric) *)
| VHelper (name : string)
(** a function from a response text to a score, as [rubric_fn] is *)
| VRubric (f : string -> outcome R)
(** any other object, with what its [repr()] gives ([None]: it raises) *)
| VObject (r : option string).

Abbreviation namespace := (gmap string value).

Inductive stream := Stdout | Stderr.

Inductive prog :=
(** the fragment ran to its end *)
| Return (ns : namespace)
(** an exception escaped; [ns] is the namespace as changed so far *)
| Throw (ns : namespace) (e : exn)
(** [sys.stdout.write] / [sys.stderr.write] *)
| Write (to : stream) (text : string) (k : prog)
(** the import statement's call of [__import__(name)] *)
| CallImport (name : string) (k : outcome value -> prog)
(** a call of an injected helper, with the namespace at that moment *)
| CallHelper (ns : namespace) (helper : string) (arg : value) (k : outcome value -> prog).

(** [str(v)] *)
Definition py_str (v : value) : string :=
  match v with
  | VInt z => pretty z
  | VStr s => s
  | VNone => "None"
  | VModule name => "<module '" ++ name ++ "'>"
  | VBuiltins _ _ => "<module 'builtins' (built-in)>"
  | VHelper name => "<function " ++ name ++ ">"
  | VRubric _ => "<function rubric_fn>"
  | VObject (Some r) => r
  | VObject None => ""
  end.

(** [repr(v)]; it raises for an object whose [__repr__] does. *)
Definition py_repr (v : value) : outcome string :=
  match v with
  | VStr s => Ok ("'" ++ s ++ "'")
  | VObject None => Raise (TypeError "__repr__ raised")
  | _ => Ok (py_str v)
  end.

(** The line [traceback.format_exc()] ends with. *)
Definition exn_text (e : exn) : string :=
  match e with
  | KeyError k => "KeyError: '" ++ k ++ "'"
  | LogDomainError | SqrtDomainError => "ValueError: math domain error"
  | ValueError m => "ValueError: " ++ m
  | ImportError m => "ImportError: " ++ m
  | NameError n => "NameError: name '" ++ n ++ "' is not defined"
  | TypeError m => "TypeError: " ++ m
  end.

(** [traceback.format_exc()], without the frames between the header
    and the last line. *)
Definition format_exc (e : exn) : string :=
  "Traceback (most recent call last):" ++ Py.nl ++ exn_text e ++ Py.nl.

(** The state of one [exec]: the two captured streams, and the state [H]
    of the helpers' owner. *)
Record host (H : Type) := mkHost {
  stdout_buf : string;
  stderr_buf : string;
  owner : H
}.
Arguments mkHost {H}.
Arguments stdout_buf {H}.
Arguments stderr_buf {H}.
Arguments owner {H}.

(** How an [exec] ended. *)
Record ended (H : Type) := mkEnded {
  final_ns : namespace;
  raised : option exn;
  final_host : host H
}.
Arguments mkEnded {H}.
Arguments final_ns {H}.
Arguments raised {H}.
Arguments final_host {H}.

Section Run.
Context {H : Type}.
(** [__import__] of the namespace's [__builtins__], and the helpers. *)
Variable import_fn : string -> outcome value.
Variable helper : namespace -> string -> value -> host H -> host H * outcome value.

Fixpoint run (p : prog) (h : host H) : ended H :=
  match p with
  | Return ns => mkEnded ns None h
  | Throw ns e => mkEnded ns (Some e) h
  | Write Stdout text k => run k (mkHost (stdout_buf h ++ text) (stderr_buf h) (owner h))
  | Write Stderr text k => run k (mkHost (stdout_buf h) (stderr_buf h ++ text) (owner h))
  | CallImport name k => run (k (import_fn name)) h
  | CallHelper ns name arg k =>
      let '(h, r) := helper ns name arg h in
      run (k r) h
  end.


End Run.

(** [__import__] as the import statement finds it: in the namespace's
    [__builtins__]; [exec] puts the interpreter's own builtins there
    when the key is missing. *)
Definition import_of (real_import : string -> outcome value) (ns : namespace)
    : string -> outcome value :=
  match ns !! "__builtins__" with
  | Some (VBuiltins _ f) => f
  | Some _ => fun _ => Raise (ImportError "__import__ not found")
  | None => real_import
  end.

End Interp.

(** ** The interpreter on a fragment of Python

    Enough of Python to run the fragments the properties below speak
    of: import statements, assignments, [print], integer and string
    literals, names, [+] and a call with one argument, one statement per
    line or separated by semicolons.  Code outside the fragment is
    reported as a syntax error, before anything runs. *)

Module PyFragment.
Import Interp.

Inductive expr :=
| EInt (z : Z)
| EStr (s : string)
| EName (x : string)
| EAdd (a b : expr)
| ECall (f : string) (arg : expr).

Inductive stmt :=
| SImport (module_name : string) (bind_as : string)
| SFromImport (module_name : string) (attr : string) (bind_as : string)
| SAssign (x : string) (e : expr)
| SPrint (e : expr)
| SExpr (e : expr).

Definition is_ident_char (c : ascii) : bool :=
  let n := nat_of_ascii c in
  Py.is_digit c || ((65 <=? n)%nat && (n <=? 90)%nat)
  || ((97 <=? n)%nat && (n <=? 122)%nat) || (n =? 95)%nat.

Fixpoint all_chars (p : ascii -> bool) (s : string) : bool :=
  match s with
  | EmptyString => true
  | String c s' => p c && all_chars p s'
  end.

Definition is_identifier (s : string) : bool :=
  match s with
  | EmptyString => false
  | String c _ => negb (Py.is_digit c) && all_chars is_ident_char s
  end.

(** A dotted module name. *)
Definition is_module_name (s : string) : bool :=
  forallb is_identifier (Py.split "."%char s).

(** [s.partition(sep)]: the text before and after the first [sep]. *)
Fixpoint partition_at (sep : string) (s : string) : option (string * string) :=
  if Py.startswith sep s then Some ("", Py.slice_from (String.length sep) s)
  else match s with
       | EmptyString => None
       | String c s' =>
           match partition_at sep s' with
           | Some (a, b) => Some (String c a, b)
           | None => None
           end
       end.

Definition last_char (s : string) : option ascii :=
  match String.rev s with
  | String c _ => Some c
  | EmptyString => None
  end.

(** [s[:-1]] *)
Definition drop_last (s : string) : string :=
  Py.slice_to (String.length s - 1) s.

(** The double quote character. *)
Definition dquote : ascii := ascii_of_nat 34.

Definition parse_atom (s : string) : option expr :=
  let s := Py.strip s in
  match s with
  | EmptyString => None
  | String c rest =>
      if all_chars Py.is_digit s then Some (EInt (ValueNetwork.digits_value s))
      else if Ascii.eqb c "'"%char || Ascii.eqb c dquote then
        match last_char rest with
        | Some c' =>
            if Ascii.eqb c c' && negb (Py.contains (String c "") (drop_last rest))
            then Some (EStr (drop_last rest)) else None
        | None => None
        end
      else if is_identifier s then Some (EName s)
      else None
  end.

(** A sum of atoms, read from the left. *)
Definition parse_sum (s : string) : option expr :=
  match Py.split "+"%char s with
  | [] => None
  | a :: rest =>
      fold_left
        (fun acc part =>
           match acc, parse_atom part with
           | Some e, Some e' => Some (EAdd e e')
           | _, _ => None
           end)
        rest (parse_atom a)
  end.

(** A sum, or a call [f(sum)]. *)
Definition parse_expr (s : string) : option expr :=
  let s := Py.strip s in
  match partition_at "(" s with
  | Some (f, rest) =>
      if is_identifier f && bool_decide (last_char rest = Some ")"%char)
      then ECall f <$> parse_sum (drop_last rest)
      else None
  | None => parse_sum s
  end.

(** The name an [import a.b] binds: [a]. *)
Definition top_package (module_name : string) : string :=
  match Py.split "."%char module_name with
  | p :: _ => p
  | [] => module_name
  end.

Definition parse_import (rest : string) : option stmt :=
  match partition_at " as " rest with
  | Some (m, a) =>
      let m := Py.strip m in
      let a := Py.strip a in
      if is_module_name m && is_identifier a then Some (SImport m a) else None
  | None =>
      let m := Py.strip rest in
      if is_module_name m then Some (SImport m (top_package m)) else None
  end.

Definition parse_from (rest : string) : option stmt :=
  match partition_at " import " rest with
  | Some (m, what) =>
      let m := Py.strip m in
      match partition_at " as " what with
      | Some (n, a) =>
          let n := Py.strip n in
          let a := Py.strip a in
          if is_module_name m && is_identifier n && is_identifier a
          then Some (SFromImport m n a) else None
      | None =>
          let n := Py.strip what in
          if is_module_name m && is_identifier n then Some (SFromImport m n n) else None
      end
  | None => None
  end.

(** One statement; [None] outside the fragment. *)
Definition parse_stmt (s : string) : option stmt :=
  if Py.startswith "import " s then parse_import (Py.slice_from 7 s)
  else if Py.startswith "from " s then parse_from (Py.slice_from 5 s)
  else if Py.startswith "print(" s && bool_decide (last_char s = Some ")"%char)
  then SPrint <$> parse_expr (drop_last (Py.slice_from 6 s))
  else
    match partition_at "=" s with
    | Some (x, e) =>
        let x := Py.strip x in
        if is_identifier x then SAssign x <$> parse_expr e else None
    | None => SExpr <$> parse_expr s
    end.

(** The statements of a line: blank lines and comments have none, an
    indented line is outside the fragment. *)
Definition parse_line (line : string) : option (list stmt) :=
  if bool_decide (Py.strip line = "") then Some []
  else if Py.startswith "#" line then Some []
  else if bool_decide (Py.lstrip line = line)
  then mapM (fun s => parse_stmt (Py.strip s)) (Py.split ";"%char line)
  else None.

Definition parse_program (code : string) : option (list stmt) :=
  mjoin <$> mapM parse_line (Py.split Py.newline code).

(** Evaluation of an expression, then [k] on its value. *)
Fixpoint eval (e : expr) (ns : namespace) (k : outcome value -> prog) : prog :=
  match e with
  | EInt z => k (Ok (VInt z))
  | EStr s => k (Ok (VStr s))
  | EName x =>
      match ns !! x with
      | Some v => k (Ok v)
      | None => k (Raise (NameError x))
      end
  | EAdd a b =>
      eval a ns (fun ra =>
        match ra with
        | Ok va =>
            eval b ns (fun rb =>
              match rb with
              | Ok vb =>
                  match va, vb with
                  | VInt x, VInt y => k (Ok (VInt (x + y)))
                  | VStr x, VStr y => k (Ok (VStr (x ++ y)))
                  | _, _ => k (Raise (TypeError "unsupported operand type(s) for +"))
                  end
              | _ => k rb
              end)
        | _ => k ra
        end)
  | ECall f arg =>
      match ns !! f with
      | None => k (Raise (NameError f))
      | Some (VHelper h) =>
          eval arg ns (fun r =>
            match r with
            | Ok v => CallHelper ns h v k
            | _ => k r
            end)
      | Some _ => k (Raise (TypeError "object is not callable"))
      end
  end.

(** The statements in turn; the first exception that escapes ends the
    run with the namespace as it is then. *)
Fixpoint exec_stmts (stmts : list stmt) (ns : namespace) : prog :=
  match stmts with
  | [] => Return ns
  | SImport m a :: rest =>
      CallImport m (fun r =>
        match r with
        | Ok v => exec_stmts rest (<[a := v]> ns)
        | Raise e => Throw ns e
        | OutOfFuel => Throw ns (ImportError m)
        end)
  | SFromImport m n a :: rest =>
      CallImport m (fun r =>
        match r with
        | Ok _ => exec_stmts rest (<[a := VObject (Some ("<" ++ m ++ "." ++ n ++ ">"))]> ns)
        | Raise e => Throw ns e
        | OutOfFuel => Throw ns (ImportError m)
        end)
  | SAssign x e :: rest =>
      eval e ns (fun r =>
        match r with
        | Ok v => exec_stmts rest (<[x := v]> ns)
        | Raise e => Throw ns e
        | OutOfFuel => Throw ns (NameError x)
        end)
  | SPrint e :: rest =>
      eval e ns (fun r =>
        match r with
        | Ok v => Write Stdout (py_str v ++ Py.nl) (exec_stmts rest ns)
        | Raise e => Throw ns e
        | OutOfFuel => Throw ns (NameError "print")
        end)
  | SExpr e :: rest =>
      eval e ns (fun r =>
        match r with
        | Ok _ => exec_stmts rest ns
        | Raise e => Throw ns e
        | OutOfFuel => Throw ns (NameError "")
        end)
  end.

(** [exec(code, ns, ns)] on the fragment. *)
Definition exec (code : string) (ns : namespace) : prog :=
  match parse_program code with
  | Some stmts => exec_stmts stmts ns
  | None => Throw ns (ValueError "SyntaxError: invalid syntax")
  end.

End PyFragment.

(** ** What the sandboxes run on *)

(** The interpreter and the services outside the process. *)
Record platform := mkPlatform {
  (** [exec(code, ns, ns)] *)
  exec : string -> Interp.namespace -> Interp.prog;
  (** [builtins.__import__] *)
  real_import : string -> outcome Interp.value;
  (** the names of the [builtins] module *)
  builtin_names : list string;
  (** the chat-completion service: its reply to a prompt, given the
      prompts it was sent before *)
  provider : list string -> string -> outcome string;
  (** the directory [tempfile.mkdtemp] makes *)
  temp_dir : string;
  (** wall-clock milliseconds an [execute] takes *)
  elapsed : R
}.

(** ** The transcript sandbox ([backend/repl_env.py]) *)

Module ReplEnv.
Import Interp.

Record REPLResult := mkResult {
  stdout : string;
  stderr : string;
  locals_snapshot : gmap string string;
  execution_time_ms : R;
  success : bool
}.

(** The fields of [REPLEnv] that [execute] reads or writes; [sent] lists
    the prompts that were passed to the provider, oldest first. *)
Record REPLEnv := mkEnv {
  _globals : namespace;
  _locals : namespace;
  _llm_call_count : Z;
  sent : list string
}.

Definition max_llm_calls : Z := 3.

Definition llm_limit_reached : string :=
  "[llm_query limit reached — use Python string operations instead]".

Section WithPlatform.
Variable P : platform.

(** [if len(prompt) > 100_000: prompt = prompt[:100_000] + marker] *)
Definition truncated (prompt : string) : string :=
  if (Z.of_nat (String.length prompt) >? 100000)%Z
  then Py.slice_to (Z.to_nat 100000) prompt ++ Py.nl ++ "...[truncated]"
  else prompt.

(** The closure [llm_query] of [__init__].  The counter moves before the
    prompt is looked at; a prompt that is not a [str] makes the call
    raise when its length is taken or when it is sent. *)
Definition llm_query (self : REPLEnv) (prompt : value) : REPLEnv * outcome string :=
  let self := mkEnv (_globals self) (_locals self) (_llm_call_count self + 1) (sent self) in
  if (_llm_call_count self >? max_llm_calls)%Z then (self, Ok llm_limit_reached)
  else
    match prompt with
    | VStr prompt =>
        let prompt := truncated prompt in
        let response := provider P (sent self) prompt in
        (mkEnv (_globals self) (_locals self) (_llm_call_count self) (sent self ++ [prompt]),
         let* content := response in Ok (Py.strip content))
    | _ => (self, Raise (TypeError "prompt is not a str"))
    end.

Definition is_quote (q : ascii) (c : ascii) : bool := Ascii.eqb c q.

(** [name.strip().strip(dquote).strip(quote).strip()] *)
Definition clean_name (name : string) : string :=
  Py.strip (Py.strip_chars (is_quote "'"%char)
              (Py.strip_chars (is_quote PyFragment.dquote) (Py.strip name))).

(** The closure [final_var] of [__init__]. *)
Definition final_var (self : REPLEnv) (variable_name : string) : string :=
  let variable_name := clean_name variable_name in
  match _locals self !! variable_name with
  | Some v => py_str v
  | None =>
      match _globals self !! variable_name with
      | Some v => py_str v
      | None => "Error: Variable '" ++ variable_name ++ "' not found"
      end
  end.

Definition __init__ (context : string) : REPLEnv :=
  let g : namespace :=
    <["__builtins__" := VBuiltins (builtin_names P) (real_import P)]>
      (<["FINAL_VAR" := VHelper "FINAL_VAR"]>
         (<["llm_query" := VHelper "llm_query"]> ∅)) in
  let context_path := temp_dir P ++ "/context.txt" in
  let l : namespace :=
    <["context_path" := VStr context_path]> (<["context" := VStr context]> ∅) in
  mkEnv g l 0 [].

(** A call of an injected helper by executed code.  While the import
    lines run, the namespace of the [exec] is [self._globals] itself
    ([aliased]). *)
Definition helper (aliased : bool) (ns : namespace) (name : string) (arg : value)
    (h : host REPLEnv) : host REPLEnv * outcome value :=
  let self := owner h in
  let self :=
    if aliased then mkEnv ns (_locals self) (_llm_call_count self) (sent self) else self in
  let back (self : REPLEnv) := mkHost (stdout_buf h) (stderr_buf h) self in
  if String.eqb name "llm_query" then
    let '(self, r) := llm_query self arg in
    (back self, let* reply := r in Ok (VStr reply))
  else if String.eqb name "FINAL_VAR" then
    match arg with
    | VStr s => (back self, Ok (VStr (final_var self s)))
    | _ => (back self, Raise (TypeError "variable_name is not a str"))
    end
  else (back self, Raise (NameError name)).

Definition is_import_line (line : string) : bool :=
  let stripped := Py.strip line in
  Py.startswith "import " stripped || Py.startswith "from " stripped.

(** The loop that persists new variables:
    [for key, value in combined.items():
       if key not in self._globals and not key.startswith(underscore):
         self._locals[key] = value] *)
Definition persists (globals : namespace) (key : string) : Prop :=
  globals !! key = None /\ Py.startswith "_" key = false.

Definition persist (globals combined locals : namespace) : namespace :=
  filter (fun kv => persists globals kv.1) combined ∪ locals.

(** The loop that builds [locals_snap]. *)
Definition shown (key : string) : Prop :=
  Py.startswith "_" key = false /\ key <> "context".

Definition snapshot_repr (v : value) : string :=
  match py_repr v with
  | Ok r => if (200 <? String.length r)%nat then Py.slice_to 200 r else r
  | _ => "<unrepresentable>"
  end.

Definition snapshot (locals : namespace) : gmap string string :=
  snapshot_repr <$> filter (fun kv => shown kv.1) locals.

(** The statements of [execute], in the order it runs them. *)

(** [lines = code.strip().split(newline)] and the two lists it is
    separated into. *)
Definition import_lines (code : string) : list string :=
  List.filter is_import_line (Py.split Py.newline (Py.strip code)).

Definition other_lines (code : string) : list string :=
  List.filter (fun l => negb (is_import_line l)) (Py.split Py.newline (Py.strip code)).

(** The counter is reset and the two streams are captured. *)
Definition start (self : REPLEnv) : host REPLEnv :=
  mkHost "" "" (mkEnv (_globals self) (_locals self) 0 (sent self)).

(** [exec(import_lines, self._globals, self._globals)] *)
Definition imports_prog (self : REPLEnv) (code : string) : prog :=
  exec P (Py.join Py.nl (import_lines code)) (_globals self).

Definition imports_run (self : REPLEnv) (code : string) : ended REPLEnv :=
  run (import_of (real_import P) (_globals self)) (helper true)
    (imports_prog self code) (start self).

(** After [if import_lines: ...]: the state, and the exception if one
    escaped.  What the import lines did to their namespace stays in
    [self._globals] either way. *)
Definition after_imports (self : REPLEnv) (code : string) : host REPLEnv * option exn :=
  match import_lines code with
  | [] => (start self, None)
  | _ =>
      let r := imports_run self code in
      let o := owner (final_host r) in
      (mkHost (stdout_buf (final_host r)) (stderr_buf (final_host r))
         (mkEnv (final_ns r) (_locals o) (_llm_call_count o) (sent o)),
       raised r)
  end.

(** [combined = {**self._globals, **self._locals}] *)
Definition combined (self : REPLEnv) : namespace := _locals self ∪ _globals self.

(** [exec(other_lines, combined, combined)] *)
Definition others_prog (self : REPLEnv) (code : string) : prog :=
  let self := owner (after_imports self code).1 in
  exec P (Py.join Py.nl (other_lines code)) (combined self).

Definition others_run (self : REPLEnv) (code : string) : ended REPLEnv :=
  let h := (after_imports self code).1 in
  run (import_of (real_import P) (combined (owner h))) (helper false)
    (others_prog self code) h.

(** After [if other_lines: ...], which is reached when the import lines
    raised nothing. *)
Definition after_others (self : REPLEnv) (code : string) : host REPLEnv * option exn :=
  let '(h, failed) := after_imports self code in
  match failed, other_lines code with
  | Some e, _ => (h, Some e)
  | None, [] => (h, None)
  | None, _ =>
      let r := others_run self code in
      let o := owner (final_host r) in
      match raised r with
      | None =>
          (mkHost (stdout_buf (final_host r)) (stderr_buf (final_host r))
             (mkEnv (_globals o) (persist (_globals o) (final_ns r) (_locals o))
                (_llm_call_count o) (sent o)),
           None)
      | Some e => (final_host r, Some e)
      end
  end.

(** [execute]: the environment it leaves and the result it returns. *)
Definition execute (self : REPLEnv) (code : string) : REPLEnv * REPLResult :=
  let '(h, failed) := after_others self code in
  let '(stderr_text, ok) :=
    match failed with
    | Some e => (stderr_buf h ++ format_exc e, false)
    | None => (stderr_buf h, true)
    end in
  let self := owner h in
  (self,
   mkResult (stdout_buf h) stderr_text (snapshot (_locals self))
     (Py.round (elapsed P) 1) ok).



(** [get_variable] *)
Definition get_variable (self : REPLEnv) (name : string) : option value :=
  let name := clean_name name in
  match _locals self !! name with
  | Some v => Some v
  | None => _globals self !! name
  end.

End WithPlatform.

End ReplEnv.

(** ** A concrete platform

    CPython on the fragment, with the standard-library modules that the
    sources themselves import or allow, and a provider that answers
    every prompt by repeating it. *)

Module CPython.
Import Interp.

Definition stdlib_modules : list string :=
  ["io"; "sys"; "os"; "time"; "traceback"; "tempfile"; "asyncio"; "random";
   "uuid"; "re"; "json"; "math"; "string"; "collections"; "functools"; "itertools"].

Definition stdlib_import (name : string) : outcome value :=
  if bool_decide (name ∈ stdlib_modules) then Ok (VModule name)
  else Raise (ImportError ("No module named '" ++ name ++ "'")).

Definition echo (history : list string) (prompt : string) : outcome string :=
  Ok ("echo " ++ pretty (length history) ++ ": " ++ prompt).

Definition platform : platform :=
  {| exec := PyFragment.exec;
     real_import := stdlib_import;
     builtin_names := ["print"; "len"; "__import__"];
     provider := echo;
     temp_dir := "/tmp/rlm_repl_0";
     elapsed := 0 |}.

End CPython.

(** ** The rubric sandbox ([rubric-discovery/backend/repl_env.py]) *)

Module RubricRepl.
Import Interp.

(** A labelled example; [spec] is carried along and never read here. *)
Record example := mkExample {
  input : string;
  response : string;
  score : R;
  spec : string
}.

(** [REPLEnvironment]; [_sample] is what [_stratified_sample] drew from
    [_train] when the environment was made. *)
Record REPLEnvironment := mkRepl {
  _train : list example;
  _eval : list example;
  _sample : list example
}.

(** What [execute_rubric] returns. *)
Record rubric_result := mkRubricResult {
  success : bool;
  train_results : list RewardSignals.result;
  eval_results : list RewardSignals.result;
  stdout : string;
  stderr : string;
  rubric_fn_found : bool
}.

(** The list [allowed] of [_safe_builtins]. *)
Definition allowed : list string :=
  ["abs"; "all"; "any"; "bool"; "chr"; "dict"; "enumerate"; "filter";
   "float"; "frozenset"; "getattr"; "hasattr"; "hash"; "hex"; "id";
   "int"; "isinstance"; "issubclass"; "iter"; "len"; "list"; "map";
   "max"; "min"; "next"; "object"; "oct"; "ord"; "pow"; "print";
   "range"; "repr"; "reversed"; "round"; "set"; "slice"; "sorted";
   "str"; "sum"; "tuple"; "type"; "vars"; "zip";
   "True"; "False"; "None";
   "ValueError"; "TypeError"; "KeyError"; "IndexError"; "AttributeError";
   "Exception"; "RuntimeError"; "StopIteration"].

Definition _ALLOWED_MODULES : list string :=
  ["re"; "json"; "math"; "string"; "collections"; "functools"; "itertools"].

(** The text of the set in the error message, in the order written. *)
Definition allowed_modules_text : string :=
  "{'re', 'json', 'math', 'string', 'collections', 'functools', 'itertools'}".

Section WithPlatform.
Variable P : platform.

Definition _restricted_import (name : string) : outcome value :=
  if bool_decide (name ∉ _ALLOWED_MODULES)
  then Raise (ImportError ("Import of '" ++ name ++ "' is not allowed. Allowed: "
                           ++ allowed_modules_text))
  else real_import P name.

(** [_safe_builtins()]: the allowed names the interpreter has a value
    for (the value of [None] is [None], so that name is left out), and
    the restricted [__import__]. *)
Definition _safe_builtins : value :=
  VBuiltins
    (List.filter (fun name => bool_decide (name ∈ builtin_names P)
                              && negb (String.eqb name "None")) allowed
     ++ ["__import__"])
    _restricted_import.

(** [_run_rubric] *)
Definition _run_rubric (rubric_fn : string -> outcome R) (examples : list example)
    : list RewardSignals.result :=
  map (fun ex =>
         let predicted :=
           match rubric_fn (response ex) with
           | Ok p => Py.max2 0 (Py.min2 1 p)
           | _ => 0
           end in
         RewardSignals.Build_result (Py.round predicted 4) (score ex))
      examples.

(** A float in fixed notation with [digits] decimals, as [f"{x:.4f}"]. *)
Definition format_fixed (x : R) (digits : nat) : string :=
  let m := Py.round_half_even (Rabs x * 10 ^ digits) in
  let unit := (10 ^ Z.of_nat digits)%Z in
  let frac := pretty (m mod unit)%Z in
  (if Rlt_dec x 0 then "-" else "")
  ++ pretty (m / unit)%Z ++ "."
  ++ String.concat "" (replicate (digits - String.length frac) "0") ++ frac.

(** What a call of a namespace value does with a response text. *)
Definition as_callable (v : value) : option (string -> outcome R) :=
  match v with
  | VRubric f => Some f
  | VHelper _ => Some (fun _ => Raise (TypeError "not a rubric"))
  | _ => None
  end.

(** The helpers of the namespace: the [print] lambda and [test_rubric].
    What [test_rubric] returns, a dict of floats and lists, is kept
    opaque: the values of the fragment have no floats. *)
Definition helper (self : REPLEnvironment) (ns : namespace) (name : string) (arg : value)
    (h : host unit) : host unit * outcome value :=
  if String.eqb name "print" then
    (mkHost (stdout_buf h ++ py_str arg ++ Py.nl) (stderr_buf h) tt, Ok VNone)
  else if String.eqb name "test_rubric" then
    match as_callable arg with
    | Some rubric_fn =>
        let run_one (ex : example) : R * bool :=
          match rubric_fn (response ex) with
          | Ok p => (Py.max2 0 (Py.min2 1 p), false)
          | _ => (0, true)
          end in
        let outcomes := map run_one (_sample self) in
        let errors := List.filter snd outcomes in
        let results :=
          map (fun '(ex, o) => Py.round (Rabs (o.1 - score ex)) 4)
              (zip (_sample self) outcomes) in
        let mae := Py.sum results / Py.max2 (Py.len results) 1 in
        let line1 :=
          "test_rubric: MAE=" ++ format_fixed mae 4 ++ " on "
          ++ pretty (length results) ++ " samples" ++ Py.nl in
        let line2 :=
          match errors with
          | [] => ""
          | _ => "  " ++ pretty (length errors) ++ " execution errors" ++ Py.nl
          end in
        (mkHost (stdout_buf h ++ line1 ++ line2) (stderr_buf h) tt,
         Ok (VObject (Some "{'mae': ..., 'results': [...], 'errors': [...]}")))
    | None => (h, Raise (TypeError "object is not callable"))
    end
  else (h, Raise (NameError name)).

(** The namespace [execute_rubric] builds; the two lists of examples are
    kept opaque. *)
Definition namespace_of (re json math : value) : namespace :=
  <["test_rubric" := VHelper "test_rubric"]>
    (<["math" := math]> (<["json" := json]> (<["re" := re]>
      (<["print" := VHelper "print"]>
        (<["__builtins__" := _safe_builtins]>
          (<["sample_examples" := VObject (Some "[...]")]>
            (<["training_examples" := VObject (Some "[...]")]> ∅))))))).

(** [execute_rubric]; the three imports at its head are the
    interpreter's own and end the call when one of them fails. *)
Definition execute_rubric (self : REPLEnvironment) (rubric_code : string)
    : outcome rubric_result :=
  let* re := real_import P "re" in
  let* json := real_import P "json" in
  let* math := real_import P "math" in
  let namespace := namespace_of re json math in
  let r := run (import_of (real_import P) namespace) (helper self)
             (exec P rubric_code namespace) (mkHost "" "" tt) in
  let h := final_host r in
  let '(stderr_text, ok) :=
    match raised r with
    | Some e => (stderr_buf h ++ format_exc e, false)
    | None => (stderr_buf h, true)
    end in
  let rubric_fn := final_ns r !! "rubric_fn" in
  let callable := rubric_fn ≫= as_callable in
  let '(train, evals, stderr_text) :=
    match ok, callable with
    | true, Some f => (_run_rubric f (_train self), _run_rubric f (_eval self), stderr_text)
    | true, None =>
        ([], [], stderr_text ++ "Warning: No `rubric_fn` function found in code." ++ Py.nl)
    | false, _ => ([], [], stderr_text)
    end in
  Ok (mkRubricResult ok train evals (stdout_buf h) stderr_text
        (bool_decide (is_Some callable))).

End WithPlatform.

End RubricRepl.

(** ** What the two search trees share

    [ReasoningNode] and [RubricNode] carry the same tree links and
    statistics, and the two engines score and back-propagate with the
    same code; it is written once here, over the fields both have. *)

Module Tree.

(** A UCB score: [float(inf)] or a finite float. *)
Inductive score := Inf | Fin (x : R).

(** [a > b] on scores. *)
Definition score_gt (a b : score) : bool :=
  match a, b with
  | Inf, Inf => false
  | Inf, Fin _ => true
  | Fin _, Inf => false
  | Fin x, Fin y => if Rgt_dec x y then true else false
  end.

(** The fields of a node that selection and back-propagation use;
    [visit value] is [node.visits += 1; node.total += value]. *)
Class Node (N : Type) := {
  node_parent : N -> option string;
  node_children : N -> list string;
  node_depth : N -> Z;
  node_visits : N -> Z;
  node_total : N -> R;
  visit : R -> N -> N;
  visit_parent : forall v n, node_parent (visit v n) = node_parent n;
  visit_children : forall v n, node_children (visit v n) = node_children n;
  visit_depth : forall v n, node_depth (visit v n) = node_depth n;
  visit_visits : forall v n, node_visits (visit v n) = (node_visits n + 1)%Z;
  visit_total : forall v n, node_total (visit v n) = node_total n + v
}.

Section Generic.
Context {N : Type} {node_ops : Node N}.

(** [ucb_score]: [math.log] raises on an argument that is not positive,
    [math.sqrt] on a negative one. *)
Definition ucb_score (self : N) (parent_visits : Z) (c : R) : outcome score :=
  if (node_visits self =? 0)%Z then Ok Inf
  else
    let exploitation := node_total self / IZR (node_visits self) in
    let* lg := (if (parent_visits <=? 0)%Z then Raise LogDomainError
                else Ok (ln (IZR parent_visits))) in
    let q := lg / IZR (node_visits self) in
    let* root := (if Rlt_dec q 0 then Raise SqrtDomainError else Ok (sqrt q)) in
    let exploration := c * root in
    Ok (Fin (exploitation + exploration)).

(** [max(xs, key=key)] after its first element: the running best is
    replaced by an element whose key is greater. *)
Fixpoint max_by_from {A} (key : A -> outcome score) (best : A) (best_key : score)
    (rest : list A) : outcome A :=
  match rest with
  | [] => Ok best
  | x :: rest' =>
      let* kx := key x in
      if score_gt kx best_key then max_by_from key x kx rest'
      else max_by_from key best best_key rest'
  end.

Definition max_by {A} (key : A -> outcome score) (xs : list A) : outcome A :=
  match xs with
  | [] => Raise (ValueError "max() arg is an empty sequence")
  | x :: rest => let* kx := key x in max_by_from key x kx rest
  end.

(** The loop of [_backpropagate]:
    [while current_id is not None:
       node = self.nodes[current_id]; node.visits += 1;
       node.total += value; current_id = node.parent_id] *)
Fixpoint backpropagate_loop (fuel : nat) (nodes : gmap string N)
    (current_id : option string) (value : R) : outcome (gmap string N) :=
  match current_id with
  | None => Ok nodes
  | Some cid =>
      match fuel with
      | O => OutOfFuel
      | S fuel' =>
          let* node := getitem nodes cid in
          backpropagate_loop fuel' (<[cid := visit value node]> nodes)
            (node_parent node) value
      end
  end.

(** A walk that never visits a node twice ends within [len(nodes)]
    turns; one more turn of fuel tells a longer walk from one that ends. *)
Definition _backpropagate (nodes : gmap string N) (node_id : string) (value : R)
    : outcome (gmap string N) :=
  backpropagate_loop (S (size nodes)) nodes (Some node_id) value.

(** The parent links from a node up to a node without parent. *)
Inductive chain (nodes : gmap string N) : string -> list string -> Prop :=
| chain_root id n :
    nodes !! id = Some n -> node_parent n = None -> chain nodes id [id]
| chain_step id n p l :
    nodes !! id = Some n -> node_parent n = Some p -> chain nodes p l ->
    chain nodes id (id :: l).

(** A well-formed tree under [root]. *)
Record wf (root : string) (nodes : gmap string N) : Prop := {
  wf_root : exists r, nodes !! root = Some r /\ node_parent r = None /\ node_depth r = 0%Z;
  wf_parent : forall id n, nodes !! id = Some n -> id <> root ->
    exists p pn, node_parent n = Some p /\ nodes !! p = Some pn
                 /\ node_depth n = (node_depth pn + 1)%Z;
  wf_children : forall id n c, nodes !! id = Some n -> c ∈ node_children n ->
    exists cn, nodes !! c = Some cn /\ node_depth cn = (node_depth n + 1)%Z;
  wf_depth : forall id n, nodes !! id = Some n ->
    (0 <= node_depth n < Z.of_nat (size nodes))%Z;
  wf_visits : forall id n, nodes !! id = Some n -> (0 <= node_visits n)%Z
}.

End Generic.

End Tree.

Module TreeFacts.
Import Tree.

Section Generic.
Context {N : Type} {node_ops : Node N}.
Implicit Types (nodes : gmap string N) (l : list string) (id : string).

Lemma score_gt_inf_fin x : score_gt Inf (Fin x) = true.
Proof. reflexivity. Qed.

Lemma score_gt_not_inf s : score_gt s Inf = false.
Proof. now destruct s. Qed.

Lemma chain_head nodes id l : chain nodes id l -> exists t, l = id :: t.
Proof. destruct 1; eauto. Qed.

Lemma chain_lookup nodes id l x : chain nodes id l -> x ∈ l -> is_Some (nodes !! x).
Proof.
  induction 1 as [id n Hn Hp | id n p l Hn Hp Hc IH]; intros Hx.
  - apply list_elem_of_singleton in Hx as ->. eauto.
  - apply elem_of_cons in Hx as [-> | Hx]; eauto.
Qed.

Lemma chain_functional nodes id l1 l2 :
  chain nodes id l1 -> chain nodes id l2 -> l1 = l2.
Proof.
  intros H1. revert l2.
  induction H1 as [id n Hn Hp | id n p l Hn Hp Hc IH]; intros l2 H2;
    inversion H2; subst; simplify_eq; try reflexivity.
  f_equal. now apply IH.
Qed.

Lemma chain_suffix nodes id l x :
  chain nodes id l -> x ∈ l ->
  exists l', chain nodes x l' /\ (length l' <= length l)%nat.
Proof.
  induction 1 as [id n Hn Hp | id n p l Hn Hp Hc IH]; intros Hx.
  - apply list_elem_of_singleton in Hx as ->.
    exists [id]. split; [econstructor; eauto | lia].
  - apply elem_of_cons in Hx as [-> | Hx].
    + exists (id :: l). split; [econstructor; eauto | lia].
    + destruct (IH Hx) as (l' & Hl' & Hlen). exists l'. split; [done | simpl; lia].
Qed.

(** A chain of parent links never meets a node twice. *)
Lemma chain_NoDup nodes id l : chain nodes id l -> NoDup l.
Proof.
  induction 1 as [id n Hn Hp | id n p l Hn Hp Hc IH].
  - apply NoDup_singleton.
  - apply NoDup_cons. split; [| done].
    intros Hin. destruct (chain_suffix _ _ _ _ Hc Hin) as (l' & Hl' & Hlen).
    assert (l' = id :: l) as -> by (eapply chain_functional; [done | econstructor; eauto]).
    simpl in Hlen. lia.
Qed.

Lemma chain_length nodes id l : chain nodes id l -> (length l <= size nodes)%nat.
Proof.
  intros Hc.
  rewrite <- size_dom. unfold size, set_size. simpl.
  apply submseteq_length, NoDup_submseteq; [eapply chain_NoDup; eauto |].
  intros x Hx. apply elem_of_elements, elem_of_dom. eapply chain_lookup; eauto.
Qed.

Lemma chain_insert nodes id l x n' :
  chain nodes id l -> x ∉ l -> chain (<[x := n']> nodes) id l.
Proof.
  induction 1 as [id n Hn Hp | id n p l Hn Hp Hc IH]; intros Hx.
  - eapply chain_root; [| done]. rewrite lookup_insert_ne; [done | set_solver].
  - eapply chain_step; [| done |].
    + rewrite lookup_insert_ne; [done | set_solver].
    + apply IH. set_solver.
Qed.

(** What the nodes are after [value] went up the chain [l]. *)
Definition visited (l : list string) (value : R) nodes nodes' : Prop :=
  forall k, nodes' !! k = if decide (k ∈ l) then visit value <$> nodes !! k else nodes !! k.

Lemma backpropagate_loop_None fuel nodes value :
  backpropagate_loop fuel nodes None value = Ok nodes.
Proof. now destruct fuel. Qed.

Lemma backpropagate_loop_chain l : forall nodes id fuel value,
  chain nodes id l -> (length l <= fuel)%nat ->
  exists nodes', backpropagate_loop fuel nodes (Some id) value = Ok nodes'
                 /\ visited l value nodes nodes'.
Proof.
  induction l as [| a l IH]; intros nodes id fuel value Hc Hfuel.
  { inversion Hc. }
  pose proof (chain_NoDup _ _ _ Hc) as Hnd. apply NoDup_cons in Hnd as [Hnotin Hnd].
  destruct fuel as [| fuel]; [simpl in Hfuel; lia |].
  inversion Hc as [id' n Hn Hp | id' n p l' Hn Hp Hc']; subst; simpl;
    unfold getitem; rewrite Hn; simpl; rewrite Hp.
  - rewrite backpropagate_loop_None. eexists. split; [reflexivity |]. intros k.
    destruct (decide (k = a)) as [-> | Hne].
    + rewrite lookup_insert_eq, Hn. rewrite decide_True by set_solver. done.
    + rewrite lookup_insert_ne by done. rewrite decide_False by set_solver. done.
  - destruct (IH (<[a := visit value n]> nodes) p fuel value) as (nodes' & Hrun & Hvis).
    { now apply chain_insert. }
    { simpl in Hfuel. lia. }
    exists nodes'. split; [done |]. intros k. rewrite Hvis.
    destruct (decide (k = a)) as [-> | Hne].
    + rewrite decide_False by done. rewrite decide_True by set_solver.
      now rewrite lookup_insert_eq, Hn.
    + rewrite lookup_insert_ne by done.
      destruct (decide (k ∈ l)); [rewrite decide_True by set_solver
                                 | rewrite decide_False by set_solver]; done.
Qed.

(** [_backpropagate] along a chain returns, with every node of the
    chain visited once and the others as they were. *)
Lemma backpropagate_chain nodes id l value :
  chain nodes id l ->
  exists nodes', _backpropagate nodes id value = Ok nodes' /\ visited l value nodes nodes'.
Proof.
  intros Hc. apply backpropagate_loop_chain; [done |].
  pose proof (chain_length _ _ _ Hc). lia.
Qed.

Lemma visited_dom l value nodes nodes' :
  visited l value nodes nodes' -> dom nodes' = dom nodes.
Proof.
  intros Hv. apply set_eq. intros k. rewrite !elem_of_dom, (Hv k).
  destruct (decide (k ∈ l)); [| done].
  now rewrite fmap_is_Some.
Qed.

Lemma visited_size l value nodes nodes' :
  visited l value nodes nodes' -> size nodes' = size nodes.
Proof. intros Hv. rewrite <- !size_dom. now rewrite (visited_dom _ _ _ _ Hv). Qed.

(** After a visit a node is the old one, visited or not. *)
Lemma visited_lookup l value nodes nodes' k n' :
  visited l value nodes nodes' -> nodes' !! k = Some n' ->
  exists n, nodes !! k = Some n /\ (n' = n \/ n' = visit value n).
Proof.
  intros Hv Hk. rewrite (Hv k) in Hk.
  destruct (decide (k ∈ l)).
  - apply fmap_Some in Hk as (n & Hn & ->). eauto.
  - eauto.
Qed.

Lemma visited_lookup_inv l value nodes nodes' k n :
  visited l value nodes nodes' -> nodes !! k = Some n ->
  exists n', nodes' !! k = Some n' /\ (n' = n \/ n' = visit value n).
Proof.
  intros Hv Hk. rewrite (Hv k), Hk.
  destruct (decide (k ∈ l)); simpl; eauto.
Qed.

Lemma same_links value n n' :
  n' = n \/ n' = visit value n ->
  node_parent n' = node_parent n /\ node_children n' = node_children n
  /\ node_depth n' = node_depth n /\ (node_visits n <= node_visits n')%Z.
Proof.
  intros [-> | ->]; [repeat split; lia |].
  rewrite visit_parent, visit_children, visit_depth, visit_visits.
  repeat split; lia.
Qed.

(** Back-propagation keeps the tree well formed. *)
Lemma wf_visited root l value nodes nodes' :
  wf root nodes -> visited l value nodes nodes' -> wf root nodes'.
Proof.
  intros [Hroot Hpar Hch Hdep Hvis] Hv. split.
  - destruct Hroot as (r & Hr & Hp & Hd).
    destruct (visited_lookup_inv _ _ _ _ _ _ Hv Hr) as (r' & Hr' & Hsame).
    apply same_links in Hsame as (? & ? & ? & ?).
    exists r'. repeat split; congruence.
  - intros id n' Hn' Hne.
    destruct (visited_lookup _ _ _ _ _ _ Hv Hn') as (n & Hn & Hsame).
    apply same_links in Hsame as (Hp' & _ & Hd' & _).
    destruct (Hpar id n Hn Hne) as (p & pn & Hp & Hpn & Hd).
    destruct (visited_lookup_inv _ _ _ _ _ _ Hv Hpn) as (pn' & Hpn' & Hsame).
    apply same_links in Hsame as (_ & _ & Hdp & _).
    exists p, pn'. repeat split; [congruence | done | lia].
  - intros id n' c Hn' Hc.
    destruct (visited_lookup _ _ _ _ _ _ Hv Hn') as (n & Hn & Hsame).
    apply same_links in Hsame as (_ & Hc' & Hd' & _).
    rewrite Hc' in Hc.
    destruct (Hch id n c Hn Hc) as (cn & Hcn & Hd).
    destruct (visited_lookup_inv _ _ _ _ _ _ Hv Hcn) as (cn' & Hcn' & Hsame).
    apply same_links in Hsame as (_ & _ & Hdc & _).
    exists cn'. split; [done | lia].
  - intros id n' Hn'.
    destruct (visited_lookup _ _ _ _ _ _ Hv Hn') as (n & Hn & Hsame).
    apply same_links in Hsame as (_ & _ & Hd' & _).
    rewrite (visited_size _ _ _ _ Hv), Hd'. eauto.
  - intros id n' Hn'.
    destruct (visited_lookup _ _ _ _ _ _ Hv Hn') as (n & Hn & Hsame).
    apply same_links in Hsame as (_ & _ & _ & Hle).
    specialize (Hvis id n Hn). lia.
Qed.

(** In a well-formed tree the parent links of every node lead to the root. *)
Lemma wf_chain root nodes :
  wf root nodes -> forall d id n, nodes !! id = Some n -> node_depth n = Z.of_nat d ->
  exists l, chain nodes id l /\ root ∈ l.
Proof.
  intros Hwf. induction d as [| d IH]; intros id n Hn Hd.
  - destruct (decide (id = root)) as [-> | Hne].
    + destruct (wf_root _ _ Hwf) as (r & Hr & Hp & _). simplify_eq.
      exists [root]. split; [econstructor; eauto | set_solver].
    + destruct (wf_parent _ _ Hwf id n Hn Hne) as (p & pn & _ & Hpn & Hdep).
      pose proof (wf_depth _ _ Hwf p pn Hpn). lia.
  - destruct (decide (id = root)) as [-> | Hne].
    + destruct (wf_root _ _ Hwf) as (r & Hr & Hp & Hd0). simplify_eq. lia.
    + destruct (wf_parent _ _ Hwf id n Hn Hne) as (p & pn & Hp & Hpn & Hdep).
      destruct (IH p pn Hpn) as (l & Hl & Hroot); [lia |].
      exists (id :: l). split; [econstructor; eauto | set_solver].
Qed.

Lemma wf_chain_to_root root nodes id n :
  wf root nodes -> nodes !! id = Some n -> exists l, chain nodes id l /\ root ∈ l.
Proof.
  intros Hwf Hn. pose proof (wf_depth _ _ Hwf id n Hn) as [Hd _].
  eapply (wf_chain _ _ Hwf (Z.to_nat (node_depth n))); [done | lia].
Qed.

End Generic.

End TreeFacts.

(** ** The transcript engine ([backend/mcts_engine.py]) *)

Module ReasoningTree.
Import Tree.

Record ReasoningNode := mkNode {
  id : string;
  content : string;
  node_type : string;
  parent_id : option string;
  children : list string;
  visits : Z;
  total_value : R;
  depth : Z;
  code : string;
  repl_stdout : string;
  repl_stderr : string;
  repl_vars : gmap string string;
  execution_ms : R
}.

(** [node.visits += 1; node.total_value += value] *)
Definition visited (value : R) (n : ReasoningNode) : ReasoningNode :=
  mkNode (id n) (content n) (node_type n) (parent_id n) (children n)
    (visits n + 1) (total_value n + value) (depth n)
    (code n) (repl_stdout n) (repl_stderr n) (repl_vars n) (execution_ms n).

#[global] Instance reasoning_node : Node ReasoningNode :=
  {| node_parent := parent_id; node_children := children; node_depth := depth;
     node_visits := visits; node_total := total_value; visit := visited;
     visit_parent := fun _ _ => eq_refl; visit_children := fun _ _ => eq_refl;
     visit_depth := fun _ _ => eq_refl; visit_visits := fun _ _ => eq_refl;
     visit_total := fun _ _ => eq_refl |}.

Definition avg_value (self : ReasoningNode) : R :=
  if (visits self >? 0)%Z then total_value self / IZR (visits self) else 0.

Definition ucb_score (self : ReasoningNode) (parent_visits : Z) (c : R) : outcome score :=
  Tree.ucb_score self parent_visits c.

(** The dict [to_dict] returns. *)
Record node_dict := mkDict {
  d_id : string;
  d_content : string;
  d_node_type : string;
  d_parent_id : option string;
  d_children : list string;
  d_visits : Z;
  d_total_value : R;
  d_avg_value : R;
  d_depth : Z;
  d_code : string;
  d_repl_stdout : string;
  d_repl_stderr : string;
  d_repl_vars : gmap string string;
  d_execution_ms : R
}.

(** [node.children.append(child_id)] *)
Definition with_child (child_id : string) (node : ReasoningNode) : ReasoningNode :=
  mkNode (id node) (content node) (node_type node) (parent_id node)
    (app (children node) [child_id]) (visits node) (total_value node)
    (depth node) (code node) (repl_stdout node) (repl_stderr node)
    (repl_vars node) (execution_ms node).

(** [s[:n] if s else empty] *)
Definition cut (n : nat) (s : string) : string :=
  match s with
  | EmptyString => ""
  | _ => Py.slice_to n s
  end.

Definition to_dict (self : ReasoningNode) : node_dict :=
  {| d_id := id self;
     d_content := Py.slice_to 300 (content self);
     d_node_type := node_type self;
     d_parent_id := parent_id self;
     d_children := children self;
     d_visits := visits self;
     d_total_value := Py.round (total_value self) 4;
     d_avg_value := Py.round (avg_value self) 4;
     d_depth := depth self;
     d_code := cut 500 (code self);
     d_repl_stdout := cut 300 (repl_stdout self);
     d_repl_stderr := cut 200 (repl_stderr self);
     d_repl_vars := repl_vars self;
     d_execution_ms := execution_ms self |}.

(** One turn of a branch's conversation. *)
Record message := mkMessage { role : string; text : string }.

(** What the policy fills in of the nodes it returns; the other fields
    have the defaults of the dataclass. *)
Record seed := mkSeed {
  seed_content : string;
  seed_type : string;
  seed_code : string
}.

(** What lies outside the tree: the sandbox and the language model, in a
    state [W], and the ids [uuid4] hands out, the [n]-th one at call [n]. *)
Record outside (W : Type) := mkOutside {
  uuid4 : nat -> string;
  policy_fn : W -> ReasoningNode -> list message -> string -> W * list seed;
  execute_async : W -> string -> W * ReplEnv.REPLResult;
  get_variable : W -> string -> option Interp.value;
  value_fn : W -> ReasoningNode -> string -> W * R
}.
Arguments uuid4 {W}.
Arguments policy_fn {W}.
Arguments execute_async {W}.
Arguments get_variable {W}.
Arguments value_fn {W}.

(** [MCTSReasoningTree].  [ids_made] counts the calls of [_make_id] and
    [backprops] those of [_backpropagate]; [emitted] lists what [on_node]
    was called with, latest first. *)
Record MCTSReasoningTree (W : Type) := mkTree {
  repl : W;
  max_iterations : Z;
  max_depth : Z;
  c : R;
  nodes : gmap string ReasoningNode;
  branch_messages : gmap string (list message);
  ids_made : nat;
  backprops : nat;
  emitted : list (ReasoningNode * gmap string node_dict)
}.
Arguments mkTree {W}.
Arguments repl {W}.
Arguments max_iterations {W}.
Arguments max_depth {W}.
Arguments c {W}.
Arguments nodes {W}.
Arguments branch_messages {W}.
Arguments ids_made {W}.
Arguments backprops {W}.
Arguments emitted {W}.

(** The characters of the group of [FINAL_VAR\(([^)]+)\)]: those before
    the first closing parenthesis, and what follows them. *)
Fixpoint until_paren (s : string) : string * string :=
  match s with
  | EmptyString => ("", "")
  | String ch s' =>
      if Ascii.eqb ch ")"%char then ("", s)
      else let '(g, rest) := until_paren s' in (String ch g, rest)
  end.

(** The match of the pattern at the start of [s], if there is one. *)
Definition final_var_here (s : string) : option string :=
  if Py.startswith "FINAL_VAR(" s then
    match until_paren (Py.slice_from 10 s) with
    | (String ch g, String _ _) => Some (String ch g)
    | _ => None
    end
  else None.

(** [re.search]: the group of the leftmost match. *)
Fixpoint search_final_var (s : string) : option string :=
  match final_var_here s with
  | Some g => Some g
  | None =>
      match s with
      | EmptyString => None
      | String _ s' => search_final_var s'
      end
  end.

(** [s.strip().strip(dquote).strip(quote)] *)
Definition unquote (s : string) : string :=
  Py.strip_chars (ReplEnv.is_quote "'"%char)
    (Py.strip_chars (ReplEnv.is_quote PyFragment.dquote) (Py.strip s)).

(** [str(list(d.keys()))]; the keys come in the order of the map, not in
    the order they were bound. *)
Definition keys_text (d : gmap string string) : string :=
  "[" ++ Py.join ", " (map (fun k => "'" ++ k ++ "'") (map fst (map_to_list d))) ++ "]".

Section Engine.
Context {W : Type}.
Variable out : outside W.
Implicit Type self : MCTSReasoningTree W.

Definition with_nodes self (nodes' : gmap string ReasoningNode) : MCTSReasoningTree W :=
  mkTree (repl self) (max_iterations self) (max_depth self) (c self) nodes'
    (branch_messages self) (ids_made self) (backprops self) (emitted self).

Definition with_repl self (w : W) : MCTSReasoningTree W :=
  mkTree w (max_iterations self) (max_depth self) (c self) (nodes self)
    (branch_messages self) (ids_made self) (backprops self) (emitted self).

Definition with_messages self (k : string) (msgs : list message) : MCTSReasoningTree W :=
  mkTree (repl self) (max_iterations self) (max_depth self) (c self) (nodes self)
    (<[k := msgs]> (branch_messages self)) (ids_made self) (backprops self) (emitted self).

(** [MCTSReasoningTree(repl, policy_fn, value_fn, synthesize_fn,
    max_iterations, max_depth, exploration_constant)] *)
Definition __init__ (w : W) (max_iterations max_depth : Z) (c : R) : MCTSReasoningTree W :=
  mkTree w max_iterations max_depth c ∅ ∅ 0 0 [].

(** [uuid.uuid4().hex[:8]] *)
Definition _make_id self : MCTSReasoningTree W * string :=
  (mkTree (repl self) (max_iterations self) (max_depth self) (c self) (nodes self)
     (branch_messages self) (S (ids_made self)) (backprops self) (emitted self),
   uuid4 out (ids_made self)).

Definition tree_snapshot self : gmap string node_dict := to_dict <$> nodes self.

(** [await on_node(node, self.tree_snapshot())] *)
Definition on_node self (node : ReasoningNode) : MCTSReasoningTree W :=
  mkTree (repl self) (max_iterations self) (max_depth self) (c self) (nodes self)
    (branch_messages self) (ids_made self) (backprops self)
    ((node, tree_snapshot self) :: emitted self).

(** The loop of [_select]. *)
Fixpoint select_loop (fuel : nat) (nodes : gmap string ReasoningNode) (c : R)
    (node_id : string) : outcome string :=
  match fuel with
  | O => OutOfFuel
  | S fuel' =>
      let* node := getitem nodes node_id in
      match children node with
      | [] => Ok node_id
      | _ =>
          let parent_visits := Z.max (visits node) 1 in
          let* best :=
            max_by (fun cid => let* child := getitem nodes cid in
                               ucb_score child parent_visits c)
                   (children node) in
          select_loop fuel' nodes c best
      end
  end.

Definition _select self (root_id : string) : outcome string :=
  select_loop (S (size (nodes self))) (nodes self) (c self) root_id.

(** The walk of [_get_branch_messages] from a node without stored
    messages: the nearest node above it that has some. *)
Fixpoint nearest_messages (fuel : nat) self (cid : option string)
    : outcome (list message) :=
  match cid with
  | None => Ok []
  | Some i =>
      match fuel with
      | O => OutOfFuel
      | S fuel' =>
          let* node := getitem (nodes self) i in
          let* above := nearest_messages fuel' self (parent_id node) in
          match branch_messages self !! i with
          | Some msgs => Ok msgs
          | None => Ok above
          end
      end
  end.

Definition _get_branch_messages self (node_id : string) : outcome (list message) :=
  match branch_messages self !! node_id with
  | Some msgs => Ok msgs
  | None => nearest_messages (S (size (nodes self))) self (Some node_id)
  end.

Definition _check_final_var self (node : ReasoningNode) : option string :=
  let combined := code node ++ Py.nl ++ repl_stdout node in
  match search_final_var combined with
  | Some g =>
      let var_name := unquote g in
      Interp.py_str <$> get_variable out (repl self) var_name
  | None => None
  end.

(** The body of the loop of [_expand] for one child the policy returned.
    The parent is looked up again when the child is appended to its
    children: with ids that differ it is the object [node] of the
    source. *)
Definition expand_child (node_id : string) (node_depth : Z) (messages : list message)
    (acc : MCTSReasoningTree W * list ReasoningNode) (s : seed)
    : MCTSReasoningTree W * list ReasoningNode :=
  let '(self, registered) := acc in
  let '(self, child_id) := _make_id self in
  let child :=
    mkNode child_id (seed_content s) (seed_type s) (Some node_id) [] 0 0
      (node_depth + 1) (seed_code s) "" "" ∅ 0 in
  let '(self, child) :=
    if String.eqb (node_type child) "code" && negb (String.eqb (code child) "") then
      let '(w, result) := execute_async out (repl self) (code child) in
      let self := with_repl self w in
      let content' :=
        if ReplEnv.success result
           && negb (String.eqb (Py.strip (ReplEnv.stdout result)) "")
        then "Code executed → " ++ Py.strip (Py.slice_to 200 (ReplEnv.stdout result))
        else if negb (ReplEnv.success result)
        then "Code error → " ++ Py.strip (Py.slice_to 200 (ReplEnv.stderr result))
        else "Code executed (no output), vars: "
             ++ keys_text (ReplEnv.locals_snapshot result) in
      let child :=
        mkNode child_id content' (node_type child) (Some node_id) [] 0 0
          (node_depth + 1) (code child)
          (Py.slice_to 2000 (ReplEnv.stdout result))
          (Py.slice_to 1000 (ReplEnv.stderr result))
          (ReplEnv.locals_snapshot result) (ReplEnv.execution_time_ms result) in
      match _check_final_var self child with
      | Some final =>
          if String.eqb final "" then (self, child)
          else
            let '(self, ans_id) := _make_id self in
            let ans_node :=
              mkNode ans_id final "answer" (Some child_id) [] 0 0
                (depth child + 1) "" "" "" ∅ 0 in
            (with_nodes self (<[ans_id := ans_node]> (nodes self)),
             mkNode child_id content' (node_type child) (Some node_id) [ans_id] 0 0
               (node_depth + 1) (code child) (repl_stdout child) (repl_stderr child)
               (repl_vars child) (execution_ms child))
      | None => (self, child)
      end
    else (self, child) in
  let nodes1 := <[child_id := child]> (nodes self) in
  let nodes2 := alter (with_child child_id) node_id nodes1 in
  let self := with_nodes self nodes2 in
  let child_msgs :=
    if String.eqb (code child) "" then messages
    else
      app messages
        [mkMessage "assistant" ("```repl" ++ Py.nl ++ code child ++ Py.nl ++ "```");
         mkMessage "user"
           ("REPL output:" ++ Py.nl ++ Py.slice_to 3000 (repl_stdout child) ++ Py.nl
            ++ (if String.eqb (repl_stderr child) "" then ""
                else "Errors:" ++ Py.nl ++ Py.slice_to 500 (repl_stderr child)))] in
  let self := with_messages self child_id child_msgs in
  (self, app registered [child]).

Definition _expand self (node_id question : string)
    : outcome (MCTSReasoningTree W * list ReasoningNode) :=
  let* node := getitem (nodes self) node_id in
  let* messages := _get_branch_messages self node_id in
  let '(w, children) := policy_fn out (repl self) node messages question in
  let self := with_repl self w in
  Ok (fold_left (expand_child node_id (depth node) messages) children (self, [])).

Definition _evaluate self (node_id question : string) : outcome (MCTSReasoningTree W * R) :=
  let* node := getitem (nodes self) node_id in
  let '(w, value) := value_fn out (repl self) node question in
  Ok (with_repl self w, value).

Definition _backpropagate self (node_id : string) (value : R)
    : outcome (MCTSReasoningTree W) :=
  let* nodes' := Tree._backpropagate (nodes self) node_id value in
  Ok (mkTree (repl self) (max_iterations self) (max_depth self) (c self) nodes'
        (branch_messages self) (ids_made self) (S (backprops self)) (emitted self)).

(** One turn of the loop of [search]. *)
Definition iteration (root_id question : string) self : outcome (MCTSReasoningTree W) :=
  (* 1. SELECT *)
  let* leaf_id := _select self root_id in
  (* 2. EXPAND *)
  let* leaf := getitem (nodes self) leaf_id in
  let* expanded :=
    (if (depth leaf <? max_depth self)%Z && bool_decide (children leaf = []) then
       let* grown := _expand self leaf_id question in
       match grown.2 with
       | first :: _ => Ok (grown.1, id first)
       | [] => Ok (grown.1, leaf_id)
       end
     else Ok (self, leaf_id)) in
  let '(self, leaf_id) := expanded in
  (* 3. EVALUATE *)
  let* evaluated := _evaluate self leaf_id question in
  let '(self, value) := evaluated in
  (* 4. BACKPROPAGATE *)
  let* self := _backpropagate self leaf_id value in
  (* 5. STREAM *)
  let* focal := getitem (nodes self) leaf_id in
  Ok (on_node self focal).

(** [k] turns of the loop. *)
Fixpoint search_loop (k : nat) (root_id question : string) self
    : outcome (MCTSReasoningTree W) :=
  match k with
  | O => Ok self
  | S k' =>
      let* self := search_loop k' root_id question self in
      iteration root_id question self
  end.

(** [search] up to the end of its loop: the root is made, announced,
    and the loop runs [max_iterations] times.  It returns the id of the
    root with the tree. *)
Definition search self (question : string) : outcome (string * MCTSReasoningTree W) :=
  let '(self, root_id) := _make_id self in
  let root := mkNode root_id question "question" None [] 0 0 0 "" "" "" ∅ 0 in
  let self := with_nodes self (<[root_id := root]> (nodes self)) in
  let self := with_messages self root_id [] in
  let self := on_node self root in
  let* self := search_loop (Z.to_nat (max_iterations self)) root_id question self in
  Ok (root_id, self).

End Engine.

End ReasoningTree.

(** ** The rubric engine ([rubric-discovery/backend/mcts_engine.py]) *)

Module RubricTree.
Import Tree.

Record RubricNode := mkNode {
  id : string;
  rubric_code : string;
  node_type : string;
  depth : Z;
  visits : Z;
  reward_generalization : R;
  reward_calibration : R;
  reward_discrimination : R;
  reward_validity : R;
  reward_iteration : R;
  reward_composite : R;
  train_results : list RewardSignals.result;
  eval_results : list RewardSignals.result;
  train_mae : R;
  eval_mae : R;
  stdout : string;
  stderr : string;
  execution_success : bool;
  parent_id : option string;
  children_ids : list string;
  total_reward : R
}.

(** [n.visits += 1; n.total_reward += reward] *)
Definition visited (reward : R) (n : RubricNode) : RubricNode :=
  mkNode (id n) (rubric_code n) (node_type n) (depth n) (visits n + 1)
    (reward_generalization n) (reward_calibration n) (reward_discrimination n)
    (reward_validity n) (reward_iteration n) (reward_composite n)
    (train_results n) (eval_results n) (train_mae n) (eval_mae n)
    (stdout n) (stderr n) (execution_success n) (parent_id n) (children_ids n)
    (total_reward n + reward).

#[global] Instance rubric_node : Node RubricNode :=
  {| node_parent := parent_id; node_children := children_ids; node_depth := depth;
     node_visits := visits; node_total := total_reward; visit := visited;
     visit_parent := fun _ _ => eq_refl; visit_children := fun _ _ => eq_refl;
     visit_depth := fun _ _ => eq_refl; visit_visits := fun _ _ => eq_refl;
     visit_total := fun _ _ => eq_refl |}.

(** [parent.children_ids.append(child_id)] *)
Definition with_child (child_id : string) (n : RubricNode) : RubricNode :=
  mkNode (id n) (rubric_code n) (node_type n) (depth n) (visits n)
    (reward_generalization n) (reward_calibration n)
    (reward_discrimination n) (reward_validity n) (reward_iteration n)
    (reward_composite n) (train_results n) (eval_results n)
    (train_mae n) (eval_mae n) (stdout n) (stderr n)
    (execution_success n) (parent_id n) (app (children_ids n) [child_id])
    (total_reward n).

(** [ucb_score] with its default [exploration]. *)
Definition ucb_score (self : RubricNode) (parent_visits : Z) : outcome score :=
  Tree.ucb_score self parent_visits 1.414.

(** The dict [to_dict] returns. *)
Record node_dict := mkDict {
  d_id : string;
  d_rubric_code : string;
  d_node_type : string;
  d_depth : Z;
  d_visits : Z;
  d_reward_generalization : R;
  d_reward_calibration : R;
  d_reward_discrimination : R;
  d_reward_validity : R;
  d_reward_iteration : R;
  d_reward_composite : R;
  d_train_mae : R;
  d_eval_mae : R;
  d_stdout : string;
  d_stderr : string;
  d_execution_success : bool;
  d_parent_id : option string;
  d_children_ids : list string;
  d_train_results : list RewardSignals.result;
  d_eval_results : list RewardSignals.result
}.

Definition to_dict (self : RubricNode) : node_dict :=
  {| d_id := id self;
     d_rubric_code := rubric_code self;
     d_node_type := node_type self;
     d_depth := depth self;
     d_visits := visits self;
     d_reward_generalization := reward_generalization self;
     d_reward_calibration := reward_calibration self;
     d_reward_discrimination := reward_discrimination self;
     d_reward_validity := reward_validity self;
     d_reward_iteration := reward_iteration self;
     d_reward_composite := reward_composite self;
     d_train_mae := train_mae self;
     d_eval_mae := eval_mae self;
     d_stdout := Py.slice_to 500 (stdout self);
     d_stderr := Py.slice_to 500 (stderr self);
     d_execution_success := execution_success self;
     d_parent_id := parent_id self;
     d_children_ids := children_ids self;
     d_train_results := take 20 (train_results self);
     d_eval_results := take 20 (eval_results self) |}.

(** The language model behind the policy, in a state [W], and the ids
    [uuid4] hands out, the [n]-th one at call [n]. *)
Record outside (W : Type) := mkOutside {
  uuid4 : nat -> string;
  expand_root : W -> list RubricRepl.example -> W * list string;
  expand_refinement :
    W -> string -> list RewardSignals.result -> RewardSignals.rewards ->
    list RubricRepl.example -> W * list string
}.
Arguments uuid4 {W}.
Arguments expand_root {W}.
Arguments expand_refinement {W}.

(** [MCTSRubricTree].  [root] and [best_node] are kept by id: each is the
    object the map holds under that id.  [ids_made] counts the nodes
    made and [backprops] the calls of [_backpropagate]; [notified] lists
    what [on_node_update] was called with, latest first. *)
Record MCTSRubricTree (W : Type) := mkTree {
  world : W;
  repl : RubricRepl.REPLEnvironment;
  max_iterations : Z;
  max_depth : Z;
  root : string;
  nodes : gmap string RubricNode;
  best_node : option string;
  ids_made : nat;
  backprops : nat;
  notified : list (RubricNode * Z)
}.
Arguments mkTree {W}.
Arguments world {W}.
Arguments repl {W}.
Arguments max_iterations {W}.
Arguments max_depth {W}.
Arguments root {W}.
Arguments nodes {W}.
Arguments best_node {W}.
Arguments ids_made {W}.
Arguments backprops {W}.
Arguments notified {W}.

Section Engine.
Context {W : Type}.
Variable P : platform.
Variable out : outside W.
Implicit Type self : MCTSRubricTree W.

Definition with_nodes self (nodes' : gmap string RubricNode) : MCTSRubricTree W :=
  mkTree (world self) (repl self) (max_iterations self) (max_depth self) (root self)
    nodes' (best_node self) (ids_made self) (backprops self) (notified self).

(** [get_tree_snapshot]: the id of the root, the nodes as dicts, the id
    of the best node. *)
Definition get_tree_snapshot self : string * gmap string node_dict * option string :=
  (root self, to_dict <$> nodes self, best_node self).

(** A node with the defaults of the dataclass. *)
Definition new_node (i : string) (code type : string) (d : Z) (parent : option string)
    : RubricNode :=
  mkNode i code type d 0 0 0 0 0 0 0 [] [] 1 1 "" "" false parent [] 0.

(** [MCTSRubricTree(repl, max_iterations, max_depth)] *)
Definition __init__ (w : W) (repl : RubricRepl.REPLEnvironment)
    (max_iterations max_depth : Z) : MCTSRubricTree W :=
  let root_id := uuid4 out 0 in
  mkTree w repl max_iterations max_depth root_id
    {[ root_id := new_node root_id "" "root" 0 None ]} None 1 0 [].

(** The loop of [_select]. *)
Fixpoint select_loop (fuel : nat) self (current : string) : outcome string :=
  match fuel with
  | O => OutOfFuel
  | S fuel' =>
      let* node := getitem (nodes self) current in
      if bool_decide (children_ids node <> []) && (depth node <? max_depth self)%Z then
        let parent_visits := if (visits node =? 0)%Z then 1%Z else visits node in
        let* children := mapM_outcome (getitem (nodes self)) (children_ids node) in
        let* best_child := max_by (fun child => ucb_score child parent_visits) children in
        if (visits best_child =? 0)%Z then Ok (id best_child)
        else select_loop fuel' self (id best_child)
      else Ok current
  end.

Definition _select self (node : string) : outcome string :=
  select_loop (S (size (nodes self))) self node.

(** [_run_rubric_on_sample]: the code runs in a namespace of its own,
    with the interpreter's builtins and no injected helper. *)
Definition _run_rubric_on_sample (rubric_code : string)
    (sample_examples : list RubricRepl.example) : outcome (list RewardSignals.result) :=
  let* re := real_import P "re" in
  let* json := real_import P "json" in
  let* math := real_import P "math" in
  let namespace : Interp.namespace :=
    <["math" := math]> (<["json" := json]> (<["re" := re]> ∅)) in
  let r := Interp.run (H := unit) (Interp.import_of (real_import P) namespace)
             (fun _ name _ h => (h, Raise (NameError name)))
             (exec P rubric_code namespace) (Interp.mkHost "" "" tt) in
  match Interp.raised r with
  | Some _ => Ok []
  | None =>
      match Interp.final_ns r !! "rubric_fn" ≫= RubricRepl.as_callable with
      | Some rubric_fn => Ok (RubricRepl._run_rubric rubric_fn sample_examples)
      | None => Ok []
      end
  end.

Definition _create_and_evaluate self (code : string) (parent : string) (type : string)
    : outcome (MCTSRubricTree W * RubricNode) :=
  let* parent_node := getitem (nodes self) parent in
  let child_id := uuid4 out (ids_made self) in
  (* Execute in REPL *)
  let* result := RubricRepl.execute_rubric P (repl self) code in
  let train := RubricRepl.train_results result in
  let evals := RubricRepl.eval_results result in
  (* Compute MAE *)
  let train_mae' := match train with [] => 1 | _ => RewardSignals._mae train end in
  let eval_mae' := match evals with [] => 1 | _ => RewardSignals._mae evals end in
  (* Compute rewards *)
  let parent_mae :=
    if String.eqb (node_type parent_node) "root" then None
    else Some (train_mae parent_node) in
  let rewards :=
    RewardSignals.compute_rewards code train evals (RubricRepl.success result)
      (RubricRepl.stdout result) (RubricRepl.stderr result) parent_mae in
  let child :=
    mkNode child_id code type (depth parent_node + 1) 0
      (RewardSignals.generalization rewards) (RewardSignals.calibration rewards)
      (RewardSignals.discrimination rewards) (RewardSignals.validity rewards)
      (RewardSignals.iteration rewards) (RewardSignals.composite rewards)
      train evals train_mae' eval_mae'
      (RubricRepl.stdout result) (RubricRepl.stderr result) (RubricRepl.success result)
      (Some (id parent_node)) [] 0 in
  (* Register in tree *)
  let nodes1 := <[child_id := child]> (nodes self) in
  let nodes2 := alter (with_child child_id) parent nodes1 in
  Ok (mkTree (world self) (repl self) (max_iterations self) (max_depth self) (root self)
        nodes2 (best_node self) (S (ids_made self)) (backprops self) (notified self),
      child).

Definition _expand self (node : string) (iteration : Z)
    : outcome (MCTSRubricTree W * list RubricNode) :=
  let* n := getitem (nodes self) node in
  let sample := RubricRepl._sample (repl self) in
  let* asked :=
    (if String.eqb (node_type n) "root" && bool_decide (children_ids n = []) then
       Ok (expand_root out (world self) sample)
     else
       let* sample_results := _run_rubric_on_sample (rubric_code n) sample in
       Ok (expand_refinement out (world self) (rubric_code n) sample_results
             (RewardSignals.Build_rewards (reward_generalization n) (reward_calibration n)
                (reward_discrimination n) (reward_validity n) (reward_iteration n)
                (reward_composite n))
             sample)) in
  let '(w, code_candidates) := asked in
  let self :=
    mkTree w (repl self) (max_iterations self) (max_depth self) (root self)
      (nodes self) (best_node self) (ids_made self) (backprops self) (notified self) in
  let type := if String.eqb (node_type n) "root" then "hypothesis" else "refinement" in
  foldM_outcome
    (fun acc code =>
       let* made := _create_and_evaluate acc.1 code node type in
       Ok (made.1, app acc.2 [made.2]))
    (self, []) code_candidates.

Definition _backpropagate self (node : RubricNode) (reward : R)
    : outcome (MCTSRubricTree W) :=
  let* nodes' := Tree._backpropagate (nodes self) (id node) reward in
  Ok (mkTree (world self) (repl self) (max_iterations self) (max_depth self) (root self)
        nodes' (best_node self) (ids_made self) (S (backprops self)) (notified self)).

(** The body of [for child in children] in [run]. *)
Definition after_child (iteration : Z) self (child : RubricNode)
    : outcome (MCTSRubricTree W) :=
  let* self := _backpropagate self child (reward_composite child) in
  (* Track best node *)
  let* better :=
    match best_node self with
    | None => Ok true
    | Some b =>
        let* best := getitem (nodes self) b in
        Ok (if Rgt_dec (reward_composite child) (reward_composite best) then true else false)
    end in
  let best' := if better then Some (id child) else best_node self in
  (* Notify *)
  let* now := getitem (nodes self) (id child) in
  Ok (mkTree (world self) (repl self) (max_iterations self) (max_depth self) (root self)
        (nodes self) best' (ids_made self) (backprops self)
        ((now, iteration) :: notified self)).

(** One turn of the loop of [run]. *)
Definition iteration (i : Z) self : outcome (MCTSRubricTree W) :=
  (* SELECT *)
  let* leaf := _select self (root self) in
  (* EXPAND *)
  let* grown := _expand self leaf i in
  (* EVALUATE + BACKPROPAGATE for each child *)
  foldM_outcome (after_child i) grown.1 grown.2.

(** The first [k] turns of the loop. *)
Fixpoint run_loop (k : nat) self : outcome (MCTSRubricTree W) :=
  match k with
  | O => Ok self
  | S k' =>
      let* self := run_loop k' self in
      iteration (Z.of_nat k') self
  end.

(** [run]: the loop, then the best node is marked as final. *)
Definition run self : outcome (MCTSRubricTree W) :=
  let* self := run_loop (Z.to_nat (max_iterations self)) self in
  match best_node self with
  | Some b =>
      Ok (with_nodes self
            (alter (fun n =>
                      mkNode (id n) (rubric_code n) "final" (depth n) (visits n)
                        (reward_generalization n) (reward_calibration n)
                        (reward_discrimination n) (reward_validity n)
                        (reward_iteration n) (reward_composite n) (train_results n)
                        (eval_results n) (train_mae n) (eval_mae n) (stdout n)
                        (stderr n) (execution_success n) (parent_id n)
                        (children_ids n) (total_reward n))
                   b (nodes self)))
  | None => Ok self
  end.

End Engine.

End RubricTree.

(** ** The judge of the transcript variant ([evaluate_node], [backend/value_network.py]) *)

Module Judge.
Import ReasoningTree.

Definition system_prompt : string :=
  "You evaluate reasoning steps in a video transcript Q&A system. "
  ++ "Score how useful this step is for answering the question. "
  ++ "Consider: Does the code run successfully? Does it extract relevant info? "
  ++ "Does it move toward a complete answer? "
  ++ "Respond with ONLY a number between 0.0 and 1.0." ++ Py.nl
  ++ "- 0.0-0.2: Error, irrelevant, or no useful output" ++ Py.nl
  ++ "- 0.3-0.5: Partially useful, some relevant info" ++ Py.nl
  ++ "- 0.6-0.8: Good result, relevant information extracted" ++ Py.nl
  ++ "- 0.9-1.0: Excellent, directly answers the question with evidence".

(** The description of the node that the judge is shown. *)
Definition describe (node : ReasoningNode) : string :=
  if String.eqb (node_type node) "answer" then "Final answer: " ++ content node
  else if String.eqb (node_type node) "code" then
    "Code:" ++ Py.nl ++ Py.slice_to 500 (code node) ++ Py.nl ++ Py.nl
    ++ "Output:" ++ Py.nl ++ Py.slice_to 500 (repl_stdout node)
    ++ (if String.eqb (repl_stderr node) "" then ""
        else Py.nl ++ "Errors:" ++ Py.nl ++ Py.slice_to 200 (repl_stderr node))
  else if String.eqb (node_type node) "strategy" then "Strategy: " ++ content node
  else content node.

(** [evaluate_node]; [chat] is the chat-completion call, which gives the
    content of the reply. *)
Definition evaluate_node {W} (chat : W -> list message -> W * string)
    (w : W) (node : ReasoningNode) (question : string) : W * R :=
  if String.eqb (node_type node) "question" then (w, 0.5)
  else
    let desc := describe node in
    let '(w, reply) :=
      chat w
        [mkMessage "system" system_prompt;
         mkMessage "user"
           ("Question: " ++ question ++ Py.nl ++ Py.nl ++ "Reasoning step:" ++ Py.nl
            ++ desc ++ Py.nl ++ Py.nl ++ "Score (0.0-1.0):")] in
    (w, ValueNetwork._extract_score reply).

End Judge.

(** * Properties *)

(** ** The reward scalars *)

Module RewardFacts.
Import RewardSignals.

Local Open Scope R_scope.

Lemma clamped_round_unit x : 0 <= Py.round (Py.max2 0 (Py.min2 1 x)) 4 <= 1.
Proof. apply PyFacts.round_unit, PyFacts.clamp_unit. Qed.

Lemma generalization_unit train evals : 0 <= generalization_reward train evals <= 1.
Proof.
  unfold generalization_reward.
  destruct train; [lra |]. destruct evals; [lra |].
  destruct (_ && _); [lra | apply clamped_round_unit].
Qed.

Lemma calibration_unit results : 0 <= calibration_reward results <= 1.
Proof.
  unfold calibration_reward. destruct results; [lra | apply clamped_round_unit].
Qed.

Lemma discrimination_unit results : 0 <= discrimination_reward results <= 1.
Proof.
  unfold discrimination_reward. destruct (_ <? _)%nat; [lra | apply clamped_round_unit].
Qed.

Lemma validity_unit rubric_code ok out err : 0 <= validity_reward rubric_code ok out err <= 1.
Proof.
  unfold validity_reward. destruct (negb ok); [lra | apply clamped_round_unit].
Qed.

Lemma iteration_unit current_mae parent_mae :
  0 <= iteration_reward current_mae parent_mae <= 1.
Proof.
  unfold iteration_reward. destruct parent_mae as [p |]; [| apply clamped_round_unit].
  destruct (Py.float_eqb p 0).
  { destruct (Py.float_eqb current_mae 0); lra. }
  set (improvement := (p - current_mae) / p).
  destruct (Rgt_dec improvement 0) as [Hpos | Hneg].
  - apply PyFacts.round_unit. split.
    + apply PyFacts.min2_glb; lra.
    + apply PyFacts.min2_le_l.
  - apply PyFacts.round_unit. split.
    + apply PyFacts.max2_ge_l.
    + apply PyFacts.max2_lub; lra.
Qed.

(** A weighted mean of values of the unit interval, with the weights of
    [compute_rewards], is in the unit interval. *)
Lemma weighted_mean_unit (signals : signal -> R) :
  (forall k, 0 <= signals k <= 1) ->
  0 <= Py.sum (map (fun '(k, w) => signals k * w) weights) / Py.sum (map snd weights) <= 1.
Proof.
  intros Hs. unfold weights, Py.sum. simpl.
  pose proof (Hs Generalization). pose proof (Hs Calibration).
  pose proof (Hs Discrimination). pose proof (Hs Validity). pose proof (Hs Iteration).
  split.
  - apply Rmult_le_pos; [nra |]. left. apply Rinv_0_lt_compat. lra.
  - apply Rmult_le_reg_r with (0 + 1 + 0.4 + 0.3 + 0.2 + 0.2); [lra |].
    unfold Rdiv. rewrite Rmult_assoc, Rinv_l by lra. nra.
Qed.

Lemma composite_unit rubric_code train evals ok out err parent_mae :
  0 <= composite (compute_rewards rubric_code train evals ok out err parent_mae) <= 1.
Proof.
  unfold compute_rewards. simpl. apply PyFacts.round_unit.
  apply (weighted_mean_unit
           (fun k => match k with
                     | Generalization => generalization_reward train evals
                     | Calibration => calibration_reward train
                     | Discrimination => discrimination_reward train
                     | Validity => validity_reward rubric_code ok out err
                     | Iteration => iteration_reward _ parent_mae
                     end)).
  intros []; auto using generalization_unit, calibration_unit, discrimination_unit,
    validity_unit, iteration_unit.
Qed.

Lemma extract_score_unit text : 0 <= ValueNetwork._extract_score text <= 1.
Proof.
  unfold ValueNetwork._extract_score.
  destruct (ValueNetwork.search_number _); [apply PyFacts.clamp_unit | lra].
Qed.

Lemma evaluate_node_unit {W} (chat : W -> list ReasoningTree.message -> W * string) w node q :
  0 <= (Judge.evaluate_node chat w node q).2 <= 1.
Proof.
  unfold Judge.evaluate_node. destruct (String.eqb _ _); simpl; [lra |].
  destruct (chat _ _) as [w' reply]. simpl. apply extract_score_unit.
Qed.

End RewardFacts.

(** [max(0, min(1.0, x))]: [x] clamped to the unit interval. *)
Definition clamp01 (x : R) : R := Py.max2 0 (Py.min2 1 x).

(** The iteration signal as the specification words it: [1 - current_mae]
    without a parent MAE, [0.3 + 0.7 * (parent_mae - current_mae) / parent_mae]
    with one, clamped. *)
Definition spec_iteration_signal (current_mae : R) (parent_mae : option R) : R :=
  match parent_mae with
  | None => clamp01 (1 - current_mae)
  | Some p => clamp01 (0.3 + 0.7 * (p - current_mae) / p)
  end.

Lemma round4_decimal (z : Z) (x : R) : x = IZR z / 10 ^ 4 -> Py.round x 4 = x.
Proof. intros ->. apply PyFacts.round_exact. Qed.

Lemma float_eqb_false a b : a <> b -> Py.float_eqb a b = false.
Proof. intros Hne. unfold Py.float_eqb. now destruct (Req_dec_T a b). Qed.

Lemma float_eqb_true a : Py.float_eqb a a = true.
Proof. unfold Py.float_eqb. now destruct (Req_dec_T a a). Qed.

Lemma clamp01_id x : 0 <= x <= 1 -> clamp01 x = x.
Proof. apply PyFacts.clamp_id. Qed.

Lemma clamp01_of_min x : 0 <= x -> Py.min2 1 x = clamp01 x.
Proof.
  intros Hx. unfold clamp01, Py.max2, Py.min2.
  destruct (Rlt_dec x 1); destruct (Rgt_dec _ 0); lra.
Qed.

Lemma clamp01_of_max x : x <= 1 -> Py.max2 0 x = clamp01 x.
Proof.
  intros Hx. unfold clamp01, Py.max2, Py.min2.
  destruct (Rlt_dec x 1); repeat destruct (Rgt_dec _ _); lra.
Qed.

(** C5, as the specification states it, fails on a regression: with
    parent MAE 0.5 and current MAE 0.6 the code returns 0.1, the formula
    of the specification 0.16. *)
Lemma C5_regression_differs :
  RewardSignals.iteration_reward 0.6 (Some 0.5) = 0.1
  /\ spec_iteration_signal 0.6 (Some 0.5) = 0.16
  /\ RewardSignals.iteration_reward 0.6 (Some 0.5) <> spec_iteration_signal 0.6 (Some 0.5).
Proof.
  assert (Hcode : RewardSignals.iteration_reward 0.6 (Some 0.5) = 0.1).
  { unfold RewardSignals.iteration_reward.
    rewrite float_eqb_false by lra.
    destruct (Rgt_dec _ _) as [Hpos | _]; [exfalso; lra |].
    rewrite clamp01_of_max by lra. rewrite clamp01_id by lra.
    replace (0.3 + (0.5 - 0.6) / 0.5) with 0.1 by lra.
    apply (round4_decimal 1000). lra. }
  assert (Hspec : spec_iteration_signal 0.6 (Some 0.5) = 0.16).
  { unfold spec_iteration_signal. rewrite clamp01_id; lra. }
  repeat split; [done | done |]. rewrite Hcode, Hspec. lra.
Qed.

(** C5 (amended): the iteration signal is rounded to four decimals and
    is, without a parent MAE, [1 - current_mae] clamped to the unit
    interval; with a parent MAE of zero, 1 when the current MAE is zero
    and 0 otherwise; with a relative improvement
    [(parent_mae - current_mae) / parent_mae] above zero, 0.3 plus 0.7
    times the improvement, clamped; and otherwise 0.3 plus the
    improvement, clamped.  Parent MAE 0.30 and child MAE 0.15 give 0.65. *)
Theorem C5_iteration_signal (current_mae : R) :
  RewardSignals.iteration_reward current_mae None
  = Py.round (clamp01 (1 - current_mae)) 4
  /\ RewardSignals.iteration_reward current_mae (Some 0)
     = (if Py.float_eqb current_mae 0 then 1 else 0)
  /\ (forall parent_mae, parent_mae <> 0 ->
      (parent_mae - current_mae) / parent_mae > 0 ->
      RewardSignals.iteration_reward current_mae (Some parent_mae)
      = Py.round (clamp01 (0.3 + 0.7 * ((parent_mae - current_mae) / parent_mae))) 4)
  /\ (forall parent_mae, parent_mae <> 0 ->
      (parent_mae - current_mae) / parent_mae <= 0 ->
      RewardSignals.iteration_reward current_mae (Some parent_mae)
      = Py.round (clamp01 (0.3 + (parent_mae - current_mae) / parent_mae)) 4)
  /\ RewardSignals.iteration_reward 0.15 (Some 0.30) = 0.65.
Proof.
  unfold RewardSignals.iteration_reward. repeat split.
  - now rewrite float_eqb_true.
  - intros p Hp Hi. rewrite float_eqb_false by done.
    destruct (Rgt_dec _ _) as [_ | Hn]; [| exfalso; lra].
    rewrite clamp01_of_min by lra. f_equal. f_equal. lra.
  - intros p Hp Hi. rewrite float_eqb_false by done.
    destruct (Rgt_dec _ _) as [Hn | _]; [exfalso; lra |].
    now rewrite clamp01_of_max by lra.
  - rewrite float_eqb_false by lra.
    destruct (Rgt_dec _ _) as [_ | Hn]; [| exfalso; lra].
    rewrite clamp01_of_min by lra. rewrite clamp01_id by lra.
    replace (0.3 + (0.30 - 0.15) / 0.30 * 0.7) with 0.65 by lra.
    apply (round4_decimal 6500). lra.
Qed.

(** The amended C5 at parent MAE 0.5 and current MAE 0.6. *)
Lemma C5_iteration_signal_witness :
  0.5 <> 0 /\ (0.5 - 0.6) / 0.5 <= 0
  /\ RewardSignals.iteration_reward 0.6 (Some 0.5)
     = Py.round (clamp01 (0.3 + (0.5 - 0.6) / 0.5)) 4.
Proof.
  assert (H1 : 0.5 <> 0) by lra.
  assert (H2 : (0.5 - 0.6) / 0.5 <= 0) by lra.
  repeat split; [exact H1 | exact H2 |].
  exact (proj1 (proj2 (proj2 (proj2 (C5_iteration_signal 0.6)))) 0.5 H1 H2).
Defined.

(** C6: every reward scalar an evaluator returns lies in the unit
    interval: each of the five signals and their weighted composite, and
    the judge's score, whether the reply has a number (the first one,
    clamped) or not (0.5). *)
Theorem C6_rewards_in_unit_interval :
  (forall train evals, 0 <= RewardSignals.generalization_reward train evals <= 1)
  /\ (forall results, 0 <= RewardSignals.calibration_reward results <= 1)
  /\ (forall results, 0 <= RewardSignals.discrimination_reward results <= 1)
  /\ (forall rubric_code ok out err,
        0 <= RewardSignals.validity_reward rubric_code ok out err <= 1)
  /\ (forall current_mae parent_mae,
        0 <= RewardSignals.iteration_reward current_mae parent_mae <= 1)
  /\ (forall rubric_code train evals ok out err parent_mae,
        let r := RewardSignals.compute_rewards rubric_code train evals ok out err parent_mae in
        0 <= RewardSignals.generalization r <= 1
        /\ 0 <= RewardSignals.calibration r <= 1
        /\ 0 <= RewardSignals.discrimination r <= 1
        /\ 0 <= RewardSignals.validity r <= 1
        /\ 0 <= RewardSignals.iteration r <= 1
        /\ 0 <= RewardSignals.composite r <= 1)
  /\ (forall text, 0 <= ValueNetwork._extract_score text <= 1)
  /\ (forall text,
        ValueNetwork._extract_score text
        = match ValueNetwork.search_number (Py.strip text) with
          | Some m => clamp01 (ValueNetwork.float_of_match m)
          | None => 0.5
          end)
  /\ (forall W (chat : W -> list ReasoningTree.message -> W * string) w node question,
        0 <= (Judge.evaluate_node chat w node question).2 <= 1).
Proof.
  repeat split;
    try apply RewardFacts.generalization_unit;
    try apply RewardFacts.calibration_unit;
    try apply RewardFacts.discrimination_unit;
    try apply RewardFacts.validity_unit;
    try apply RewardFacts.iteration_unit;
    try apply RewardFacts.composite_unit;
    try apply RewardFacts.extract_score_unit;
    try apply RewardFacts.evaluate_node_unit.
Qed.

(** ** The caps of the serialised nodes *)

(** [n] times the character [ch]. *)
Fixpoint repeated (n : nat) (ch : ascii) : string :=
  match n with
  | O => ""
  | S n' => String ch (repeated n' ch)
  end.

(** The caps of the transcript variant's [to_dict]. *)
Definition reasoning_caps (d : ReasoningTree.node_dict) : Prop :=
  (String.length (ReasoningTree.d_content d) <= 300)%nat
  /\ (String.length (ReasoningTree.d_code d) <= 500)%nat
  /\ (String.length (ReasoningTree.d_repl_stdout d) <= 300)%nat
  /\ (String.length (ReasoningTree.d_repl_stderr d) <= 200)%nat.

(** The caps of the rubric variant's [to_dict]. *)
Definition rubric_caps (d : RubricTree.node_dict) : Prop :=
  (String.length (RubricTree.d_stdout d) <= 500)%nat
  /\ (String.length (RubricTree.d_stderr d) <= 500)%nat
  /\ (length (RubricTree.d_train_results d) <= 20)%nat
  /\ (length (RubricTree.d_eval_results d) <= 20)%nat.

Lemma cut_length n s : (String.length (ReasoningTree.cut n s) <= n)%nat.
Proof.
  destruct s; simpl; [lia |].
  apply (PyFacts.slice_to_length n (String a s)).
Qed.

Lemma reasoning_to_dict_caps n : reasoning_caps (ReasoningTree.to_dict n).
Proof.
  unfold reasoning_caps, ReasoningTree.to_dict. cbn -[Py.slice_to ReasoningTree.cut].
  repeat split; first [apply PyFacts.slice_to_length | apply cut_length].
Qed.

Lemma rubric_to_dict_caps n : rubric_caps (RubricTree.to_dict n).
Proof.
  unfold rubric_caps, RubricTree.to_dict. cbn -[Py.slice_to take].
  repeat split; first [apply PyFacts.slice_to_length | rewrite length_take; lia].
Qed.

(** A rubric node whose code and captured output are long. *)
Definition long_rubric_node : RubricTree.RubricNode :=
  RubricTree.mkNode "0a1b2c3d" (repeated 600 "c") "hypothesis" 1 0 0 0 0 0 0 0 [] [] 1 1
    (repeated 400 "o") (repeated 400 "e") true (Some "9f8e7d6c") [] 0.

(** C9, as stated, fails for the rubric variant: a node with 600
    characters of code and 400 of stdout and of stderr is serialised
    with all of them. *)
Lemma C9_rubric_node_over_caps :
  let d := RubricTree.to_dict long_rubric_node in
  String.length (RubricTree.d_rubric_code d) = 600%nat
  /\ String.length (RubricTree.d_stdout d) = 400%nat
  /\ String.length (RubricTree.d_stderr d) = 400%nat
  /\ ~ ((String.length (RubricTree.d_rubric_code d) <= 500)%nat
        /\ (String.length (RubricTree.d_stdout d) <= 300)%nat
        /\ (String.length (RubricTree.d_stderr d) <= 200)%nat).
Proof.
  assert (H1 : String.length (RubricTree.d_rubric_code (RubricTree.to_dict long_rubric_node))
               = 600%nat) by (vm_compute; reflexivity).
  assert (H2 : String.length (RubricTree.d_stdout (RubricTree.to_dict long_rubric_node))
               = 400%nat) by (vm_compute; reflexivity).
  assert (H3 : String.length (RubricTree.d_stderr (RubricTree.to_dict long_rubric_node))
               = 400%nat) by (vm_compute; reflexivity).
  cbv zeta. rewrite H1, H2, H3. repeat split. lia.
Qed.

(** C9 (amended): in the transcript variant a serialised node has at most
    300 characters of content, 500 of code, 300 of stdout and 200 of
    stderr, whatever the node stores, and so has every node of a tree
    snapshot.  In the rubric variant a serialised node has at most 500
    characters of stdout and 500 of stderr and at most 20 train and 20
    eval results, and its code is not truncated; so has every node of a
    tree snapshot. *)
Theorem C9_serialised_caps :
  (forall n : ReasoningTree.ReasoningNode, reasoning_caps (ReasoningTree.to_dict n))
  /\ (forall W (self : ReasoningTree.MCTSReasoningTree W),
        map_Forall (fun _ d => reasoning_caps d) (ReasoningTree.tree_snapshot self))
  /\ (forall n : RubricTree.RubricNode,
        rubric_caps (RubricTree.to_dict n)
        /\ RubricTree.d_rubric_code (RubricTree.to_dict n) = RubricTree.rubric_code n)
  /\ (forall W (self : RubricTree.MCTSRubricTree W),
        map_Forall (fun _ d => rubric_caps d) (RubricTree.get_tree_snapshot self).1.2).
Proof.
  split; [| split; [| split]].
  - apply reasoning_to_dict_caps.
  - intros W self k d Hd. unfold ReasoningTree.tree_snapshot in Hd.
    apply lookup_fmap_Some in Hd as (n & <- & _). apply reasoning_to_dict_caps.
  - intros n. split; [apply rubric_to_dict_caps | reflexivity].
  - intros W self k d Hd. simpl in Hd.
    apply lookup_fmap_Some in Hd as (n & <- & _). apply rubric_to_dict_caps.
Qed.

(** ** Back-propagation *)

(** C3: a back-propagation of [value] from a node whose parent links
    lead, along [path], to a node without parent (the root) returns; every
    node of the path has then one visit more and [value] more of total
    value, nothing else of it is changed, and every node off the path is
    as it was.  This holds for the transcript and for the rubric engine. *)
Theorem C3_backpropagate_path :
  (forall W (self : ReasoningTree.MCTSReasoningTree W) node_id value path,
      Tree.chain (ReasoningTree.nodes self) node_id path ->
      exists self',
        ReasoningTree._backpropagate self node_id value = Ok self'
        /\ (forall k n, k ∈ path -> ReasoningTree.nodes self !! k = Some n ->
            exists n', ReasoningTree.nodes self' !! k = Some n'
                       /\ ReasoningTree.visits n' = (ReasoningTree.visits n + 1)%Z
                       /\ ReasoningTree.total_value n' = ReasoningTree.total_value n + value
                       /\ n' = ReasoningTree.visited value n)
        /\ (forall k, k ∉ path ->
            ReasoningTree.nodes self' !! k = ReasoningTree.nodes self !! k))
  /\ (forall W (self : RubricTree.MCTSRubricTree W) node reward path,
      Tree.chain (RubricTree.nodes self) (RubricTree.id node) path ->
      exists self',
        RubricTree._backpropagate self node reward = Ok self'
        /\ (forall k n, k ∈ path -> RubricTree.nodes self !! k = Some n ->
            exists n', RubricTree.nodes self' !! k = Some n'
                       /\ RubricTree.visits n' = (RubricTree.visits n + 1)%Z
                       /\ RubricTree.total_reward n' = RubricTree.total_reward n + reward
                       /\ n' = RubricTree.visited reward n)
        /\ (forall k, k ∉ path ->
            RubricTree.nodes self' !! k = RubricTree.nodes self !! k)).
Proof.
  split.
  - intros W self node_id value path Hc.
    destruct (TreeFacts.backpropagate_chain _ _ _ value Hc) as (nodes' & Hrun & Hvis).
    unfold ReasoningTree._backpropagate. rewrite Hrun. simpl.
    eexists. split; [reflexivity |]. simpl. split.
    + intros k n Hk Hn. rewrite (Hvis k), decide_True, Hn by done. simpl.
      eexists. repeat split.
    + intros k Hk. now rewrite (Hvis k), decide_False.
  - intros W self node reward path Hc.
    destruct (TreeFacts.backpropagate_chain _ _ _ reward Hc) as (nodes' & Hrun & Hvis).
    unfold RubricTree._backpropagate. rewrite Hrun. simpl.
    eexists. split; [reflexivity |]. simpl. split.
    + intros k n Hk Hn. rewrite (Hvis k), decide_True, Hn by done. simpl.
      eexists. repeat split.
    + intros k Hk. now rewrite (Hvis k), decide_False.
Qed.

(** A transcript tree of a root and one child, already visited once. *)
Definition two_node_tree : ReasoningTree.MCTSReasoningTree unit :=
  ReasoningTree.mkTree tt 12 5 1.414
    (<["00000001" :=
         ReasoningTree.mkNode "00000001" "Strategy 1" "code" (Some "00000000") [] 1 0.8 1
           "print(1)" "1" "" ∅ 0]>
       (<["00000000" :=
            ReasoningTree.mkNode "00000000" "how many lines?" "question" None ["00000001"]
              1 0.8 0 "" "" "" ∅ 0]> ∅))
    ∅ 2 1 [].

Lemma two_node_chain :
  Tree.chain (ReasoningTree.nodes two_node_tree) "00000001" ["00000001"; "00000000"].
Proof.
  eapply Tree.chain_step; [reflexivity | reflexivity |].
  eapply Tree.chain_root; reflexivity.
Qed.

(** C3 on that tree: a value of 0.5 from the child. *)
Lemma C3_backpropagate_path_witness :
  Tree.chain (ReasoningTree.nodes two_node_tree) "00000001" ["00000001"; "00000000"]
  /\ exists self',
      ReasoningTree._backpropagate two_node_tree "00000001" 0.5 = Ok self'
      /\ (forall k n, k ∈ ["00000001"; "00000000"] ->
          ReasoningTree.nodes two_node_tree !! k = Some n ->
          exists n', ReasoningTree.nodes self' !! k = Some n'
                     /\ ReasoningTree.visits n' = (ReasoningTree.visits n + 1)%Z
                     /\ ReasoningTree.total_value n' = ReasoningTree.total_value n + 0.5
                     /\ n' = ReasoningTree.visited 0.5 n)
      /\ (forall k, k ∉ ["00000001"; "00000000"] ->
          ReasoningTree.nodes self' !! k = ReasoningTree.nodes two_node_tree !! k).
Proof.
  split; [exact two_node_chain |].
  exact (proj1 C3_backpropagate_path unit two_node_tree "00000001" 0.5 _ two_node_chain).
Defined.

(** ** Selection *)

Module SelectFacts.
Import Tree.

Section MaxBy.
Context {A : Type}.
Implicit Types (key : A -> outcome score) (xs rest : list A).

(** Nothing outranks a running best whose key is infinite. *)
Lemma max_by_from_inf key best rest :
  (forall x, x ∈ rest -> exists s, key x = Ok s) ->
  max_by_from key best Inf rest = Ok best.
Proof.
  induction rest as [| x rest IH]; intros Hkeys; [reflexivity |].
  destruct (Hkeys x) as (s & Hs); [set_solver |].
  simpl. rewrite Hs. simpl. rewrite TreeFacts.score_gt_not_inf.
  apply IH. intros y Hy. apply Hkeys. set_solver.
Qed.

(** [xs] splits at its first element with [P]. *)
Definition first_with (P : A -> Prop) (xs : list A) (x : A) : Prop :=
  exists pre post, xs = (pre ++ x :: post)%list /\ P x /\ forall y, y ∈ pre -> ~ P y.

Lemma first_with_cons (P : A -> Prop) y xs x :
  ~ P y -> first_with P xs x -> first_with P (y :: xs) x.
Proof.
  intros Hy (pre & post & -> & Hx & Hpre).
  exists (y :: pre), post. repeat split; [done |].
  intros z [-> | Hz]%elem_of_cons; auto.
Qed.

(** With finite keys for the elements without [P] and infinite keys for
    those with [P], a finite running best loses to the first element
    with [P]. *)
Lemma max_by_from_first key (P : A -> Prop) rest : forall best b,
  (forall x, x ∈ rest -> exists s, key x = Ok s /\ (s = Inf <-> P x)) ->
  (exists x, x ∈ rest /\ P x) ->
  exists x, first_with P rest x /\ max_by_from key best (Fin b) rest = Ok x.
Proof.
  induction rest as [| y rest IH]; intros best b Hkeys (x0 & Hx0 & HP0).
  { set_solver. }
  destruct (Hkeys y) as (s & Hs & Hinf); [set_solver |].
  assert (Hrest : forall x, x ∈ rest -> exists s, key x = Ok s /\ (s = Inf <-> P x)).
  { intros x Hx. apply Hkeys. set_solver. }
  simpl. rewrite Hs. simpl. destruct s as [| v].
  - (* [y] is the first one *)
    exists y. split.
    + exists [], rest. repeat split; [tauto | set_solver].
    + simpl. apply max_by_from_inf. intros x Hx.
      destruct (Hrest x Hx) as (s & ? & _). eauto.
  - assert (HnP : ~ P y) by (intros HP; apply Hinf in HP; discriminate).
    assert (Hex : exists x, x ∈ rest /\ P x).
    { exists x0. split; [| done].
      apply elem_of_cons in Hx0 as [-> | ?]; [contradiction | done]. }
    destruct (score_gt (Fin v) (Fin b)).
    + destruct (IH y v Hrest Hex) as (x & Hfirst & Hrun).
      exists x. split; [now apply first_with_cons | done].
    + destruct (IH best b Hrest Hex) as (x & Hfirst & Hrun).
      exists x. split; [now apply first_with_cons | done].
Qed.

Lemma max_by_first key (P : A -> Prop) xs :
  (forall x, x ∈ xs -> exists s, key x = Ok s /\ (s = Inf <-> P x)) ->
  (exists x, x ∈ xs /\ P x) ->
  exists x, first_with P xs x /\ max_by key xs = Ok x.
Proof.
  intros Hkeys (x0 & Hx0 & HP0).
  destruct xs as [| y rest]; [set_solver |].
  destruct (Hkeys y) as (s & Hs & Hinf); [set_solver |].
  assert (Hrest : forall x, x ∈ rest -> exists s, key x = Ok s /\ (s = Inf <-> P x)).
  { intros x Hx. apply Hkeys. set_solver. }
  simpl. rewrite Hs. simpl. destruct s as [| v].
  - exists y. split.
    + exists [], rest. repeat split; [tauto | set_solver].
    + apply max_by_from_inf. intros x Hx.
      destruct (Hrest x Hx) as (s & ? & _). eauto.
  - assert (HnP : ~ P y) by (intros HP; apply Hinf in HP; discriminate).
    destruct (max_by_from_first key P rest y v Hrest) as (x & Hfirst & Hrun).
    { exists x0. split; [| done].
      apply elem_of_cons in Hx0 as [-> | ?]; [contradiction | done]. }
    exists x. split; [now apply first_with_cons | done].
Qed.

(** [max] raises what a key raised, or complains about an empty list. *)
Lemma max_by_from_raise key best kb rest e :
  max_by_from key best kb rest = Raise e -> exists x, x ∈ rest /\ key x = Raise e.
Proof.
  revert best kb. induction rest as [| y rest IH]; intros best kb; simpl; [discriminate |].
  destruct (key y) as [s | e' |] eqn:Hy; simpl; [| | discriminate].
  - destruct (score_gt s kb); intros (x & Hx & Hk)%IH; exists x; split; set_solver.
  - intros [= ->]. exists y. split; [set_solver | done].
Qed.

Lemma max_by_raise key xs e :
  max_by key xs = Raise e ->
  (xs = [] /\ e = ValueError "max() arg is an empty sequence")
  \/ exists x, x ∈ xs /\ key x = Raise e.
Proof.
  destruct xs as [| y rest]; simpl.
  - intros [= <-]. now left.
  - destruct (key y) as [s | e' |] eqn:Hy; simpl; [| | discriminate].
    + intros (x & Hx & Hk)%max_by_from_raise. right. exists x. split; set_solver.
    + intros [= ->]. right. exists y. split; [set_solver | done].
Qed.

End MaxBy.

Section Ucb.
Context {N : Type} {node_ops : Node N}.

Lemma ucb_unvisited (n : N) pv c : node_visits n = 0%Z -> ucb_score n pv c = Ok Inf.
Proof. intros Hv. unfold ucb_score. now rewrite Hv. Qed.

Lemma ln_nonneg x : 1 <= x -> 0 <= ln x.
Proof.
  intros [Hlt | <-]; [| rewrite ln_1; lra].
  left. rewrite <- ln_1. apply ln_increasing; lra.
Qed.

(** A visited node has a finite score when the parent's count is at least one. *)
Lemma ucb_visited (n : N) pv c :
  (0 < node_visits n)%Z -> (1 <= pv)%Z -> exists x, ucb_score n pv c = Ok (Fin x).
Proof.
  intros Hv Hpv. unfold ucb_score.
  destruct (Z.eqb_spec (node_visits n) 0) as [? | _]; [lia |].
  destruct (Z.leb_spec pv 0) as [? | _]; [lia |]. simpl.
  assert (Hln : 0 <= ln (IZR pv)) by (apply ln_nonneg, IZR_le; lia).
  assert (Hvis : 0 < IZR (node_visits n)) by (apply IZR_lt; lia).
  destruct (Rlt_dec _ _) as [Hneg | _]; simpl; [| eauto].
  exfalso. apply Rlt_not_le in Hneg. apply Hneg.
  apply Rmult_le_pos; [done |]. left. now apply Rinv_0_lt_compat.
Qed.

(** With a parent's count of at least one the logarithm is defined. *)
Lemma ucb_no_log_error (n : N) pv c :
  (1 <= pv)%Z -> ucb_score n pv c <> Raise LogDomainError.
Proof.
  intros Hpv. unfold ucb_score.
  destruct (_ =? _)%Z; [discriminate |].
  destruct (Z.leb_spec pv 0) as [? | _]; [lia |]. simpl.
  destruct (Rlt_dec _ _); simpl; discriminate.
Qed.

End Ucb.

End SelectFacts.

(** The key of [max] in [_select]: the UCB score of the child stored
    under an id. *)
Definition child_score (nodes : gmap string ReasoningTree.ReasoningNode)
    (parent_visits : Z) (c : R) (cid : string) : outcome Tree.score :=
  let* child := getitem nodes cid in
  ReasoningTree.ucb_score child parent_visits c.

(** The child under [cid] has never been visited. *)
Definition unvisited (nodes : gmap string ReasoningTree.ReasoningNode) (cid : string) : Prop :=
  exists child, nodes !! cid = Some child /\ ReasoningTree.visits child = 0%Z.

Lemma child_score_spec nodes pv c cid child :
  nodes !! cid = Some child -> (0 <= ReasoningTree.visits child)%Z -> (1 <= pv)%Z ->
  exists s, child_score nodes pv c cid = Ok s /\ (s = Tree.Inf <-> unvisited nodes cid).
Proof.
  intros Hc Hv Hpv. unfold child_score, getitem. rewrite Hc. simpl.
  destruct (Z.eq_dec (ReasoningTree.visits child) 0%Z) as [H0 | Hne].
  - exists Tree.Inf. split.
    + now apply SelectFacts.ucb_unvisited.
    + split; [| done]. intros _. now exists child.
  - destruct (SelectFacts.ucb_visited child pv c) as (x & Hx); [simpl; lia | done |].
    exists (Tree.Fin x). split; [exact Hx |].
    split; [discriminate |]. intros (child' & Hc' & H0). congruence.
Qed.

Lemma select_loop_no_log_error fuel : forall nodes c node_id,
  ReasoningTree.select_loop fuel nodes c node_id <> Raise LogDomainError.
Proof.
  induction fuel as [| fuel IH]; intros nodes c node_id; simpl; [discriminate |].
  unfold getitem at 1. destruct (nodes !! node_id) as [node |]; simpl; [| discriminate].
  destruct (ReasoningTree.children node) as [| c0 cs] eqn:Hch; [discriminate |].
  destruct (Tree.max_by _ _) as [best | e |] eqn:Hmax; simpl; [apply IH | | discriminate].
  intros [= ->].
  apply SelectFacts.max_by_raise in Hmax as [[? ?] | (x & _ & Hx)]; [discriminate |].
  unfold getitem in Hx. destruct (nodes !! x) as [child |]; simpl in Hx; [| discriminate].
  revert Hx. apply SelectFacts.ucb_no_log_error. lia.
Qed.

(** A root visited once, with a child visited once and a child never
    visited. *)
Definition visited_child : ReasoningTree.ReasoningNode :=
  ReasoningTree.mkNode "00000001" "Strategy 1" "code" (Some "00000000") [] 1 0.8 1
    "print(1)" "1" "" ∅ 0.

Definition fresh_child : ReasoningTree.ReasoningNode :=
  ReasoningTree.mkNode "00000002" "Strategy 2" "code" (Some "00000000") [] 0 0 1
    "print(2)" "2" "" ∅ 0.

Definition parent_of_two : ReasoningTree.ReasoningNode :=
  ReasoningTree.mkNode "00000000" "how many lines?" "question" None
    ["00000001"; "00000002"] 1 0.8 0 "" "" "" ∅ 0.

Definition three_nodes : gmap string ReasoningTree.ReasoningNode :=
  <["00000002" := fresh_child]>
    (<["00000001" := visited_child]> (<["00000000" := parent_of_two]> ∅)).

(** ** The sandboxes *)

Module SandboxFacts.
Import Interp.


Lemma allowed_re : "re" ∈ RubricRepl._ALLOWED_MODULES.
Proof. apply (bool_decide_unpack _). vm_compute. exact I. Qed.

(** The rubric sandbox installs its restricted import. *)
Lemma rubric_import_hook P re json math :
  import_of (real_import P) (RubricRepl.namespace_of P re json math)
  = RubricRepl._restricted_import P.
Proof. reflexivity. Qed.



(** The transcript sandbox installs the interpreter's import. *)
Lemma transcript_import_hook P context :
  import_of (real_import P) (ReplEnv._globals (ReplEnv.__init__ P context)) = real_import P.
Proof. reflexivity. Qed.

End SandboxFacts.




Module ReplFacts.
Import Interp ReplEnv.

Section WithPlatform.
Variable P : platform.

(** What [llm_query] answers when [n] calls came before it in the same
    [execute]: up to the third call the reply of the provider, stripped,
    to the prompt it was sent; from the fourth on the sentinel. *)
Definition answered (n : Z) (arg : value) (res : outcome value) : Prop :=
  ((n < 3)%Z -> forall prompt, arg = VStr prompt ->
     exists history,
       res = (let* content := provider P history (truncated prompt) in
              Ok (VStr (Py.strip content))))
  /\ ((3 <= n)%Z -> res = Ok (VStr llm_limit_reached)).

Lemma llm_query_count self arg :
  _llm_call_count (llm_query P self arg).1 = (_llm_call_count self + 1)%Z.
Proof.
  unfold llm_query. simpl.
  destruct (_ >? _)%Z; [reflexivity |]. destruct arg; reflexivity.
Qed.

Lemma llm_query_keeps self arg :
  _locals (llm_query P self arg).1 = _locals self
  /\ _globals (llm_query P self arg).1 = _globals self.
Proof.
  unfold llm_query. simpl.
  destruct (_ >? _)%Z; [split; reflexivity |]. destruct arg; split; reflexivity.
Qed.

Lemma llm_query_answered self arg :
  answered (_llm_call_count self) arg
    (let* reply := (llm_query P self arg).2 in Ok (VStr reply)).
Proof.
  unfold llm_query, answered, max_llm_calls. simpl.
  destruct (Z.gtb_spec (_llm_call_count self + 1) 3) as [Hover | Hunder]; simpl.
  - split; [lia | reflexivity].
  - split; [| lia]. intros _ prompt ->. simpl.
    exists (sent self). now destruct (provider P (sent self) (truncated prompt)).
Qed.

(** One call of a helper: the locals stay, the counter moves by one for
    [llm_query] and stays for the others. *)
Lemma helper_effect aliased ns name arg h :
  let h' := (helper P aliased ns name arg h).1 in
  let r := (helper P aliased ns name arg h).2 in
  _locals (owner h') = _locals (owner h)
  /\ (aliased = false -> _globals (owner h') = _globals (owner h))
  /\ (if String.eqb name "llm_query"
      then _llm_call_count (owner h') = (_llm_call_count (owner h) + 1)%Z
           /\ answered (_llm_call_count (owner h)) arg r
      else _llm_call_count (owner h') = _llm_call_count (owner h)).
Proof.
  unfold helper.
  set (self := if aliased then _ else _).
  assert (Hself : _locals self = _locals (owner h)
                  /\ (aliased = false -> _globals self = _globals (owner h))
                  /\ _llm_call_count self = _llm_call_count (owner h)).
  { subst self. destruct aliased; simpl; repeat split; congruence. }
  destruct Hself as (Hl & Hg & Hc).
  destruct (String.eqb name "llm_query") eqn:Hname.
  - pose proof (llm_query_count self arg) as Hcount.
    pose proof (llm_query_keeps self arg) as [Hkl Hkg].
    pose proof (llm_query_answered self arg) as Hans.
    destruct (llm_query P self arg) as [self' r]. simpl in *.
    repeat split; try congruence.
    + intros Ha. rewrite Hkg. auto.
    + rewrite <- Hc. apply Hans.
    + rewrite <- Hc. apply Hans.
  - destruct (String.eqb name "FINAL_VAR"); [destruct arg |]; simpl; auto.
Qed.

Section Runs.
Variable hook : string -> outcome value.
Variable aliased : bool.

Lemma run_keeps_locals p : forall h,
  _locals (owner (final_host (run hook (helper P aliased) p h))) = _locals (owner h).
Proof.
  induction p as [ns | ns e | to text k IH | name k IH | ns name arg k IH]; intros h; simpl;
    try reflexivity.
  - destruct to; now rewrite IH.
  - apply IH.
  - pose proof (helper_effect aliased ns name arg h) as (Hl & _).
    destruct (helper P aliased ns name arg h) as [h' r]. simpl in *.
    now rewrite IH.
Qed.


End Runs.

Lemma run_keeps_globals hook p : forall h,
  _globals (owner (final_host (run hook (helper P false) p h))) = _globals (owner h).
Proof.
  induction p as [ns | ns e | to text k IH | name k IH | ns name arg k IH]; intros h; simpl;
    try reflexivity.
  - destruct to; now rewrite IH.
  - apply IH.
  - pose proof (helper_effect false ns name arg h) as (_ & Hg & _).
    destruct (helper P false ns name arg h) as [h' r]. simpl in *.
    rewrite IH. now apply Hg.
Qed.

End WithPlatform.

End ReplFacts.






Module ExecuteFacts.
Import Interp ReplEnv.

Section WithPlatform.
Variable P : platform.

Lemma execute_owner self code :
  (execute P self code).1 = owner (after_others P self code).1.
Proof.
  unfold execute. destruct (after_others P self code) as [h [e |]]; reflexivity.
Qed.

Lemma execute_success self code :
  success (execute P self code).2 = true <-> (after_others P self code).2 = None.
Proof.
  unfold execute. destruct (after_others P self code) as [h [e |]]; simpl; split; congruence.
Qed.

Lemma execute_snapshot self code :
  locals_snapshot (execute P self code).2 = snapshot (_locals (execute P self code).1).
Proof.
  unfold execute. destruct (after_others P self code) as [h [e |]]; reflexivity.
Qed.

(** The import lines leave the locals alone. *)
Lemma after_imports_locals self code :
  _locals (owner (after_imports P self code).1) = _locals self.
Proof.
  unfold after_imports. destruct (import_lines code); [reflexivity |].
  simpl. unfold imports_run. now rewrite ReplFacts.run_keeps_locals.
Qed.

Lemma after_imports_globals self code :
  import_lines code <> [] ->
  _globals (owner (after_imports P self code).1) = final_ns (imports_run P self code).
Proof.
  unfold after_imports. destruct (import_lines code); [congruence | reflexivity].
Qed.

(** The other lines leave the globals alone. *)
Lemma after_others_globals self code :
  _globals (owner (after_others P self code).1)
  = _globals (owner (after_imports P self code).1).
Proof.
  unfold after_others.
  pose proof (ReplFacts.run_keeps_globals P
                (import_of (real_import P) (combined (owner (after_imports P self code).1)))
                (others_prog P self code) (after_imports P self code).1) as Hg.
  fold (others_run P self code) in Hg.
  destruct (after_imports P self code) as [h [e |]] eqn:Himp; [reflexivity |].
  destruct (other_lines code); [reflexivity |].
  simpl in Hg. destruct (raised (others_run P self code)); simpl; exact Hg.
Qed.

Lemma persist_lookup_skip globals combined locals k :
  Py.startswith "_" k = true \/ is_Some (globals !! k) ->
  persist globals combined locals !! k = locals !! k.
Proof.
  intros Hskip. unfold persist. apply lookup_union_r.
  apply map_lookup_filter_None. right. intros v _ [Hg Hu]. simpl in *.
  destruct Hskip as [Hs | [g Hs]]; congruence.
Qed.

Lemma persist_lookup_keep globals combined locals k v :
  combined !! k = Some v -> Py.startswith "_" k = false -> globals !! k = None ->
  persist globals combined locals !! k = Some v.
Proof.
  intros Hc Hu Hg. unfold persist. apply lookup_union_Some_l.
  apply map_lookup_filter_Some. split; [done |]. split; done.
Qed.

(** What [execute] leaves in the locals, by the way it went. *)
Lemma after_others_locals self code :
  let self' := owner (after_others P self code).1 in
  match (after_imports P self code).2, other_lines code with
  | None, _ :: _ =>
      match raised (others_run P self code) with
      | None =>
          _locals self' = persist (_globals self') (final_ns (others_run P self code))
                            (_locals self)
      | Some _ => _locals self' = _locals self
      end
  | _, _ => _locals self' = _locals self
  end.
Proof.
  pose proof (after_others_globals self code) as Hglob.
  pose proof (after_imports_locals self code) as Hloc.
  pose proof (ReplFacts.run_keeps_locals P
                (import_of (real_import P) (combined (owner (after_imports P self code).1)))
                false (others_prog P self code) (after_imports P self code).1) as Hl.
  pose proof (ReplFacts.run_keeps_globals P
                (import_of (real_import P) (combined (owner (after_imports P self code).1)))
                (others_prog P self code) (after_imports P self code).1) as Hg.
  fold (others_run P self code) in Hl, Hg.
  revert Hglob. unfold after_others.
  destruct (after_imports P self code) as [h [e |]] eqn:Himp; simpl in *; [done |].
  destruct (other_lines code); simpl; [done |].
  destruct (raised (others_run P self code)); simpl; intros Hglob.
  - congruence.
  - now rewrite Hl, Hloc.
Qed.

Lemma snapshot_repr_length v : (String.length (snapshot_repr v) <= 200)%nat.
Proof.
  unfold snapshot_repr. destruct (py_repr v) as [r | e |]; try (simpl; lia).
  destruct (Nat.ltb_spec 200 (String.length r)); [apply PyFacts.slice_to_length | lia].
Qed.

Lemma snapshot_repr_spec v :
  snapshot_repr v = match py_repr v with
                    | Ok r => Py.slice_to 200 r
                    | _ => "<unrepresentable>"
                    end.
Proof.
  unfold snapshot_repr. destruct (py_repr v) as [r | e |]; try reflexivity.
  destruct (Nat.ltb_spec 200 (String.length r)); [reflexivity |].
  symmetry. apply PyFacts.slice_to_short. lia.
Qed.

Lemma snapshot_lookup locals k s :
  snapshot locals !! k = Some s ->
  Py.startswith "_" k = false /\ k <> "context"
  /\ exists v, locals !! k = Some v /\ s = snapshot_repr v.
Proof.
  unfold snapshot. intros (v & <- & Hv)%lookup_fmap_Some.
  apply map_lookup_filter_Some in Hv as [Hv [Hu Hc]]. simpl in *. eauto.
Qed.

End WithPlatform.

End ExecuteFacts.

(** C7, as stated, fails for a name that starts with an underscore: the
    first call binds [_x] and succeeds, the next call does not see it. *)
Lemma C7_underscore_not_visible :
  let session := ReplEnv.__init__ CPython.platform "[00:00] hello" in
  let first := ReplEnv.execute CPython.platform session "_x = 1" in
  let second := ReplEnv.execute CPython.platform first.1 "print(_x)" in
  ReplEnv.success first.2 = true
  /\ Interp.final_ns (ReplEnv.others_run CPython.platform session "_x = 1") !! "_x"
     = Some (Interp.VInt 1)
  /\ ReplEnv.combined first.1 !! "_x" = None
  /\ ReplEnv.success second.2 = false
  /\ ReplEnv.stdout second.2 = ""
  /\ ReplEnv.stderr second.2 = Interp.format_exc (NameError "_x").
Proof. cbv zeta. repeat split; vm_compute; reflexivity. Qed.

(** C7 (amended): when an [execute] call ends without an exception,
    every name that its lines other than imports left bound, that does
    not start with an underscore and is not a key of the globals, is
    bound to the same value in the locals of the session and in the
    namespace in which the next call runs its lines other than imports,
    whatever the import lines of that call bind.  The import lines of
    the next call, with all that stands on them, run in the globals
    alone, where the name is not bound.  So executing [x = 1] with
    [print(x)] and then [print(x+1)] prints 1 and then 2, while
    [import re; print(x)] as the next call ends in a NameError. *)
Theorem C7_state_persists :
  (forall P self code k v,
      ReplEnv.success (ReplEnv.execute P self code).2 = true ->
      ReplEnv.other_lines code <> [] ->
      Interp.final_ns (ReplEnv.others_run P self code) !! k = Some v ->
      Py.startswith "_" k = false ->
      ReplEnv._globals (ReplEnv.execute P self code).1 !! k = None ->
      ReplEnv._locals (ReplEnv.execute P self code).1 !! k = Some v
      /\ ReplEnv.combined (ReplEnv.execute P self code).1 !! k = Some v
      /\ forall next_code,
          let next := (ReplEnv.execute P self code).1 in
          let ns := ReplEnv.combined (Interp.owner (ReplEnv.after_imports P next next_code).1) in
          ns !! k = Some v
          /\ ReplEnv.others_prog P next next_code
             = exec P (Py.join Py.nl (ReplEnv.other_lines next_code)) ns
          /\ ReplEnv.others_run P next next_code
             = Interp.run (Interp.import_of (real_import P) ns) (ReplEnv.helper P false)
                 (ReplEnv.others_prog P next next_code)
                 (ReplEnv.after_imports P next next_code).1
          /\ ReplEnv.imports_prog P next next_code
             = exec P (Py.join Py.nl (ReplEnv.import_lines next_code))
                 (ReplEnv._globals next))
  /\ (let session := ReplEnv.__init__ CPython.platform "[00:00] hello" in
      let first := ReplEnv.execute CPython.platform session ("x = 1" ++ Py.nl ++ "print(x)") in
      let second := ReplEnv.execute CPython.platform first.1 "print(x+1)" in
      ReplEnv.stdout first.2 = "1" ++ Py.nl
      /\ ReplEnv.stdout second.2 = "2" ++ Py.nl)
  /\ (let session := ReplEnv.__init__ CPython.platform "[00:00] hello" in
      let first := ReplEnv.execute CPython.platform session "x = 1" in
      let second := ReplEnv.execute CPython.platform first.1 "import re; print(x)" in
      ReplEnv.success first.2 = true
      /\ ReplEnv._locals first.1 !! "x" = Some (Interp.VInt 1)
      /\ ReplEnv.import_lines "import re; print(x)" = ["import re; print(x)"]
      /\ ReplEnv.other_lines "import re; print(x)" = []
      /\ ReplEnv.success second.2 = false
      /\ ReplEnv.stdout second.2 = ""
      /\ ReplEnv.stderr second.2 = Interp.format_exc (NameError "x")).
Proof.
  split; [| split].
  - intros P self code k v Hok Hothers Hk Hu Hg.
    assert (Hloc : ReplEnv._locals (ReplEnv.execute P self code).1 !! k = Some v).
    { apply ExecuteFacts.execute_success in Hok.
      rewrite ExecuteFacts.execute_owner in *.
      pose proof (ExecuteFacts.after_others_locals P self code) as Hl.
      revert Hok Hl. unfold ReplEnv.after_others at 1.
      destruct (ReplEnv.after_imports P self code) as [h [e |]] eqn:Himp; simpl;
        [discriminate |].
      destruct (ReplEnv.other_lines code) as [| o os] eqn:Ho; [congruence |].
      destruct (Interp.raised (ReplEnv.others_run P self code)); simpl; [discriminate |].
      intros _ ->. now apply ExecuteFacts.persist_lookup_keep. }
    split; [exact Hloc |].
    split; [unfold ReplEnv.combined; now apply lookup_union_Some_l |].
    intros next_code next ns.
    split; [| split; [reflexivity | split; reflexivity]].
    subst ns. unfold ReplEnv.combined. apply lookup_union_Some_l.
    now rewrite ExecuteFacts.after_imports_locals.
  - cbv zeta. split; vm_compute; reflexivity.
  - cbv zeta. repeat split; vm_compute; reflexivity.
Qed.

(** The amended C7 on the first call of its example, with [print(x+1)]
    as the next call. *)
Lemma C7_state_persists_witness :
  let session := ReplEnv.__init__ CPython.platform "[00:00] hello" in
  let code := "x = 1" ++ Py.nl ++ "print(x)" in
  let next := (ReplEnv.execute CPython.platform session code).1 in
  ReplEnv._locals next !! "x" = Some (Interp.VInt 1)
  /\ ReplEnv.combined next !! "x" = Some (Interp.VInt 1)
  /\ ReplEnv.combined
       (Interp.owner (ReplEnv.after_imports CPython.platform next "print(x+1)").1) !! "x"
     = Some (Interp.VInt 1).
Proof.
  cbv zeta.
  destruct (proj1 C7_state_persists CPython.platform
              (ReplEnv.__init__ CPython.platform "[00:00] hello")
              ("x = 1" ++ Py.nl ++ "print(x)") "x" (Interp.VInt 1))
    as (Hloc & Hcomb & Hnext).
  - vm_compute. reflexivity.
  - vm_compute. discriminate.
  - vm_compute. reflexivity.
  - reflexivity.
  - vm_compute. reflexivity.
  - split; [exact Hloc |]. split; [exact Hcomb |].
    exact (proj1 (Hnext "print(x+1)")).
Defined.

(** C10, as stated, fails for the bindings of import lines: they are
    made in the globals of the session, so a module imported under a
    name with an underscore, or under the name of an injected helper,
    is there for the later calls. *)
Lemma C10_import_binding_persists :
  let session := ReplEnv.__init__ CPython.platform "[00:00] hello" in
  let first := ReplEnv.execute CPython.platform session "import re as _re" in
  let second := ReplEnv.execute CPython.platform first.1 "print(_re)" in
  let shadowed := ReplEnv.execute CPython.platform session "import json as llm_query" in
  ReplEnv._globals first.1 !! "_re" = Some (Interp.VModule "re")
  /\ ReplEnv.success second.2 = true
  /\ ReplEnv.stdout second.2 = "<module 're'>" ++ Py.nl
  /\ ReplEnv._globals session !! "llm_query" = Some (Interp.VHelper "llm_query")
  /\ ReplEnv.combined shadowed.1 !! "llm_query" = Some (Interp.VModule "json").
Proof. cbv zeta. repeat split; vm_compute; reflexivity. Qed.

(** C10 (amended): an [execute] call leaves the locals of the session as
    they were at every name that starts with an underscore or is a key of
    the globals, such as the injected [llm_query], [FINAL_VAR] and
    [__builtins__]: what its lines other than imports bound to such a name
    is not kept.  Its import lines run in the globals themselves, which
    keep what they bound under any name.  The snapshot it returns has no
    key [context] and no key that starts with an underscore; each entry
    is the [repr] of the local of that name cut to 200 characters, or the
    marker when [repr] raises. *)
Theorem C10_what_execute_keeps :
  (forall P self code k,
      Py.startswith "_" k = true
      \/ is_Some (ReplEnv._globals (ReplEnv.execute P self code).1 !! k) ->
      ReplEnv._locals (ReplEnv.execute P self code).1 !! k = ReplEnv._locals self !! k)
  /\ (forall P context k,
        k ∈ ["llm_query"; "FINAL_VAR"; "__builtins__"] ->
        is_Some (ReplEnv._globals (ReplEnv.__init__ P context) !! k)
        /\ ReplEnv._locals (ReplEnv.__init__ P context) !! k = None)
  /\ (forall P self code,
        ReplEnv.import_lines code <> [] ->
        ReplEnv._globals (ReplEnv.execute P self code).1
        = Interp.final_ns (ReplEnv.imports_run P self code))
  /\ (forall P self code k s,
        ReplEnv.locals_snapshot (ReplEnv.execute P self code).2 !! k = Some s ->
        Py.startswith "_" k = false /\ k <> "context"
        /\ (String.length s <= 200)%nat
        /\ exists v, ReplEnv._locals (ReplEnv.execute P self code).1 !! k = Some v
                     /\ s = match Interp.py_repr v with
                            | Ok r => Py.slice_to 200 r
                            | _ => "<unrepresentable>"
                            end).
Proof.
  split; [| split; [| split]].
  - intros P self code k Hskip.
    rewrite ExecuteFacts.execute_owner in *.
    pose proof (ExecuteFacts.after_others_locals P self code) as Hl. cbv zeta in Hl.
    destruct (ReplEnv.after_imports P self code).2; [now rewrite Hl |].
    destruct (ReplEnv.other_lines code); [now rewrite Hl |].
    destruct (Interp.raised (ReplEnv.others_run P self code)); [now rewrite Hl |].
    rewrite Hl. now apply ExecuteFacts.persist_lookup_skip.
  - intros P context k Hk.
    repeat (apply elem_of_cons in Hk as [-> | Hk]; [split; [eexists |]; reflexivity |]).
    apply elem_of_nil in Hk. destruct Hk.
  - intros P self code Hlines.
    rewrite ExecuteFacts.execute_owner, ExecuteFacts.after_others_globals.
    now apply ExecuteFacts.after_imports_globals.
  - intros P self code k s Hs.
    rewrite ExecuteFacts.execute_snapshot in Hs.
    apply ExecuteFacts.snapshot_lookup in Hs as (Hu & Hc & v & Hv & ->).
    repeat split; [done | done | apply ExecuteFacts.snapshot_repr_length |].
    exists v. split; [done | apply ExecuteFacts.snapshot_repr_spec].
Qed.

(** The amended C10 on a call that binds [_x] and [y]. *)
Lemma C10_what_execute_keeps_witness :
  let session := ReplEnv.__init__ CPython.platform "[00:00] hello" in
  Interp.final_ns (ReplEnv.others_run CPython.platform session "_x = 1; y = 2") !! "_x"
  = Some (Interp.VInt 1)
  /\ ReplEnv._locals (ReplEnv.execute CPython.platform session "_x = 1; y = 2").1 !! "_x"
     = ReplEnv._locals session !! "_x".
Proof.
  cbv zeta. split; [vm_compute; reflexivity |].
  apply (proj1 C10_what_execute_keeps CPython.platform
           (ReplEnv.__init__ CPython.platform "[00:00] hello") "_x = 1; y = 2" "_x").
  left. reflexivity.
Defined.

(** ** Growing a tree *)

Module GrowFacts.
Import Tree.

Lemma alter_as_insert {V} (f : V -> V) (m : gmap string V) k x :
  m !! k = Some x -> alter f k m = <[k := f x]> m.
Proof.
  intros Hk. apply map_eq. intros j. destruct (decide (k = j)) as [<- | Hne].
  - now rewrite lookup_alter_eq, lookup_insert_eq, Hk.
  - now rewrite lookup_alter_ne, lookup_insert_ne.
Qed.

(** With keys available for all elements, [max] returns one of them. *)
Lemma max_by_from_elem {A} (key : A -> outcome score) rest : forall best kb,
  (forall x, x ∈ rest -> exists s, key x = Ok s) ->
  exists b, max_by_from key best kb rest = Ok b /\ (b = best \/ b ∈ rest).
Proof.
  induction rest as [| y rest IH]; intros best kb Hkeys; simpl.
  { exists best. auto. }
  destruct (Hkeys y) as (s & Hs); [set_solver |]. rewrite Hs. simpl.
  assert (Hrest : forall x, x ∈ rest -> exists s, key x = Ok s).
  { intros x Hx. apply Hkeys. set_solver. }
  destruct (score_gt s kb).
  - destruct (IH y s Hrest) as (b & Hb & Hin). exists b. split; [done | set_solver].
  - destruct (IH best kb Hrest) as (b & Hb & Hin). exists b. split; [done | set_solver].
Qed.

Lemma max_by_elem {A} (key : A -> outcome score) xs :
  xs <> [] -> (forall x, x ∈ xs -> exists s, key x = Ok s) ->
  exists b, max_by key xs = Ok b /\ b ∈ xs.
Proof.
  intros Hne Hkeys. destruct xs as [| y rest]; [done |]. simpl.
  destruct (Hkeys y) as (s & Hs); [set_solver |]. rewrite Hs. simpl.
  destruct (max_by_from_elem key rest y s) as (b & Hb & Hin).
  { intros x Hx. apply Hkeys. set_solver. }
  exists b. split; [done | set_solver].
Qed.

Section Generic.
Context {N : Type} {node_ops : Node N}.
Implicit Types (nodes : gmap string N) (uuid : nat -> string).

(** Every id in use is one of the first [made] ids handed out. *)
Definition issued uuid (made : nat) nodes : Prop :=
  forall k, is_Some (nodes !! k) -> exists j, (j < made)%nat /\ k = uuid j.

Lemma issued_fresh uuid made nodes j :
  Inj (=) (=) uuid -> issued uuid made nodes -> (made <= j)%nat -> nodes !! uuid j = None.
Proof.
  intros Hinj Hiss Hj. destruct (nodes !! uuid j) as [n |] eqn:Hn; [| done].
  destruct (Hiss (uuid j)) as (i & Hi & Heq); [eauto |].
  apply Hinj in Heq. lia.
Qed.

Lemma wf_singleton root (r : N) :
  node_parent r = None -> node_depth r = 0%Z -> node_children r = [] ->
  (0 <= node_visits r)%Z -> wf root {[root := r]}.
Proof.
  intros Hp Hd Hc Hv. split.
  - exists r. now rewrite lookup_singleton_eq.
  - intros id n Hn Hne. apply lookup_singleton_Some in Hn as [-> _]. done.
  - intros id n c Hn Hin. apply lookup_singleton_Some in Hn as [_ <-].
    rewrite Hc in Hin. set_solver.
  - intros id n Hn. apply lookup_singleton_Some in Hn as [_ <-].
    rewrite map_size_singleton. lia.
  - intros id n Hn. apply lookup_singleton_Some in Hn as [_ <-]. done.
Qed.

Section Grow.
Variables (root p c : string) (nodes : gmap string N) (pn pn' cn : N).
Hypothesis Hwf : wf root nodes.
Hypothesis Hp : nodes !! p = Some pn.
Hypothesis Hc : nodes !! c = None.
Hypothesis Hcn_parent : node_parent cn = Some p.
Hypothesis Hcn_depth : node_depth cn = (node_depth pn + 1)%Z.
Hypothesis Hcn_children : node_children cn = [].
Hypothesis Hcn_visits : (0 <= node_visits cn)%Z.
Hypothesis Hpn_parent : node_parent pn' = node_parent pn.
Hypothesis Hpn_depth : node_depth pn' = node_depth pn.
Hypothesis Hpn_visits : node_visits pn' = node_visits pn.
Hypothesis Hpn_children : node_children pn' = (node_children pn ++ [c])%list.

Let grown : gmap string N := <[p := pn']> (<[c := cn]> nodes).

Lemma grown_lookup k :
  grown !! k = if decide (k = p) then Some pn'
               else if decide (k = c) then Some cn else nodes !! k.
Proof.
  unfold grown. rewrite !lookup_insert.
  repeat case_decide; congruence.
Qed.

Lemma grown_size : size grown = S (size nodes).
Proof.
  unfold grown. rewrite map_size_insert_Some.
  - now apply map_size_insert_None.
  - rewrite lookup_insert_ne by congruence. eauto.
Qed.

(** What is under a key of the old tree has, in the grown tree, the
    same links to its parent and the same counts. *)
Lemma grown_old k n :
  nodes !! k = Some n ->
  exists n', grown !! k = Some n' /\ node_parent n' = node_parent n
             /\ node_depth n' = node_depth n /\ node_visits n' = node_visits n.
Proof.
  intros Hk. rewrite grown_lookup.
  destruct (decide (k = p)) as [-> | ?]; [simplify_eq; eauto |].
  destruct (decide (k = c)) as [-> | ?]; [congruence | eauto].
Qed.

(** A leaf added under a node of a well-formed tree leaves it well formed. *)
Lemma wf_grow : wf root grown.
Proof.
  destruct Hwf as [Hroot Hpar Hch Hdep Hvis].
  assert (Hpc : p <> c) by congruence.
  split.
  - destruct Hroot as (r & Hr & Hrp & Hrd).
    destruct (grown_old root r Hr) as (r' & Hr' & Hp' & Hd' & _).
    exists r'. repeat split; congruence.
  - intros k n Hn Hne. rewrite grown_lookup in Hn.
    destruct (decide (k = p)) as [-> | Hkp].
    + injection Hn as <-.
      destruct (Hpar p pn Hp Hne) as (q & qn & Hq & Hqn & Hqd).
      destruct (grown_old q qn Hqn) as (qn' & Hqn' & _ & Hd' & _).
      exists q, qn'. repeat split; [congruence | done | lia].
    + destruct (decide (k = c)) as [-> | Hkc].
      * injection Hn as <-.
        destruct (grown_old p pn Hp) as (pn2 & Hpn2 & _ & Hd' & _).
        exists p, pn2. repeat split; [done | done | lia].
      * destruct (Hpar k n Hn Hne) as (q & qn & Hq & Hqn & Hqd).
        destruct (grown_old q qn Hqn) as (qn' & Hqn' & _ & Hd' & _).
        exists q, qn'. repeat split; [done | done | lia].
  - intros k n x Hn Hx. rewrite grown_lookup in Hn.
    destruct (decide (k = p)) as [-> | Hkp].
    + injection Hn as <-. rewrite Hpn_children in Hx.
      apply elem_of_app in Hx as [Hx | Hx].
      * destruct (Hch p pn x Hp Hx) as (xn & Hxn & Hxd).
        destruct (grown_old x xn Hxn) as (xn' & Hxn' & _ & Hd' & _).
        exists xn'. split; [done | lia].
      * apply list_elem_of_singleton in Hx as ->.
        exists cn. split; [| lia].
        rewrite grown_lookup, decide_False, decide_True by congruence. done.
    + destruct (decide (k = c)) as [-> | Hkc].
      * injection Hn as <-. rewrite Hcn_children in Hx. set_solver.
      * destruct (Hch k n x Hn Hx) as (xn & Hxn & Hxd).
        destruct (grown_old x xn Hxn) as (xn' & Hxn' & _ & Hd' & _).
        exists xn'. split; [done | lia].
  - intros k n Hn. rewrite grown_size. rewrite grown_lookup in Hn.
    pose proof (Hdep p pn Hp).
    destruct (decide (k = p)) as [-> | Hkp]; [injection Hn as <-; lia |].
    destruct (decide (k = c)) as [-> | Hkc]; [injection Hn as <-; lia |].
    pose proof (Hdep k n Hn). lia.
  - intros k n Hn. rewrite grown_lookup in Hn.
    pose proof (Hvis p pn Hp).
    destruct (decide (k = p)) as [-> | Hkp]; [injection Hn as <-; lia |].
    destruct (decide (k = c)) as [-> | Hkc]; [injection Hn as <-; lia |].
    exact (Hvis k n Hn).
Qed.

End Grow.

Lemma issued_grow uuid made nodes p (pn pn' cn : N) :
  issued uuid made nodes -> nodes !! p = Some pn ->
  issued uuid (S made) (<[p := pn']> (<[uuid made := cn]> nodes)).
Proof.
  intros Hiss Hp k Hk. rewrite !lookup_insert in Hk.
  destruct (decide (p = k)) as [<- | _].
  { destruct (Hiss p) as (j & Hj & ->); [eauto |]. exists j. split; [lia | done]. }
  destruct (decide (uuid made = k)) as [<- | _].
  { exists made. split; [lia | done]. }
  destruct (Hiss k Hk) as (j & Hj & ->). exists j. split; [lia | done].
Qed.

End Generic.

End GrowFacts.

(** ** The loop of the transcript engine *)

Module SearchFacts.
Import Tree ReasoningTree.

Section Engine.
Context {W : Type}.
Variable out : outside W.
Hypothesis uuid_inj : Inj (=) (=) (uuid4 out).
Implicit Type self : MCTSReasoningTree W.

(** The tree under [root] is well formed and its ids are those made so far. *)
Definition ok (root : string) self : Prop :=
  wf root (nodes self) /\ GrowFacts.issued (uuid4 out) (ids_made self) (nodes self).

(** The nodes of [self] are all in [self'], each with the counts and the
    depth it had. *)
Definition kept self self' : Prop :=
  forall k n, nodes self !! k = Some n ->
    exists n', nodes self' !! k = Some n' /\ visits n' = visits n /\ depth n' = depth n.

(** Nothing but the nodes, the ids, the messages and the sandbox moved. *)
Definition same_run self self' : Prop :=
  backprops self' = backprops self /\ max_depth self' = max_depth self
  /\ c self' = c self /\ emitted self' = emitted self.

Lemma kept_refl self : kept self self.
Proof. intros k n Hn. eauto. Qed.

Lemma kept_trans s1 s2 s3 : kept s1 s2 -> kept s2 s3 -> kept s1 s3.
Proof.
  intros H12 H23 k n Hn.
  destruct (H12 k n Hn) as (n2 & Hn2 & Hv2 & Hd2).
  destruct (H23 k n2 Hn2) as (n3 & Hn3 & Hv3 & Hd3).
  exists n3. repeat split; congruence.
Qed.

Lemma same_run_trans s1 s2 s3 : same_run s1 s2 -> same_run s2 s3 -> same_run s1 s3.
Proof. unfold same_run. intros (? & ? & ? & ?) (? & ? & ? & ?). repeat split; congruence. Qed.

(** Selection from a node of a well-formed tree ends at a node of the tree. *)
Lemma select_loop_ok root (nodes : gmap string ReasoningNode) (cc : R) :
  wf root nodes ->
  forall fuel node_id n,
    nodes !! node_id = Some n ->
    (size nodes <= fuel + Z.to_nat (depth n))%nat ->
    exists leaf, select_loop fuel nodes cc node_id = Ok leaf /\ is_Some (nodes !! leaf).
Proof.
  intros Hwf. induction fuel as [| fuel IH]; intros node_id n Hn Hfuel.
  { pose proof (wf_depth _ _ Hwf node_id n Hn) as Hd. simpl in Hd. lia. }
  simpl. unfold getitem at 1. rewrite Hn. simpl.
  destruct (children n) as [| c0 cs] eqn:Hch.
  { exists node_id. split; [done | eauto]. }
  destruct (GrowFacts.max_by_elem
              (child_score nodes (Z.max (visits n) 1) cc) (c0 :: cs)) as (best & Hbest & Hin).
  { done. }
  { intros cid Hcid.
    destruct (wf_children _ _ Hwf node_id n cid Hn) as (cn & Hcn & _).
    { simpl. now rewrite Hch. }
    pose proof (wf_visits _ _ Hwf cid cn Hcn) as Hv. simpl in Hv.
    destruct (child_score_spec nodes (Z.max (visits n) 1) cc cid cn) as (s & Hs & _);
      [done | done | lia | eauto]. }
  unfold child_score in Hbest. rewrite Hbest. simpl.
  destruct (wf_children _ _ Hwf node_id n best Hn) as (bn & Hbn & Hbd).
  { simpl. now rewrite Hch. }
  apply (IH best bn Hbn).
  pose proof (wf_depth _ _ Hwf node_id n Hn) as Hd. simpl in Hd, Hbd. lia.
Qed.

Lemma select_ok root self :
  wf root (nodes self) ->
  exists leaf, _select self root = Ok leaf /\ is_Some (nodes self !! leaf).
Proof.
  intros Hwf. destruct (wf_root _ _ Hwf) as (r & Hr & _ & Hd).
  unfold _select. apply (select_loop_ok root _ _ Hwf _ root r Hr). lia.
Qed.

Lemma nearest_messages_None fuel self : nearest_messages fuel self None = Ok [].
Proof. now destruct fuel. Qed.

Lemma nearest_messages_ok self node_id l :
  chain (nodes self) node_id l -> forall fuel, (length l <= fuel)%nat ->
  exists msgs, nearest_messages fuel self (Some node_id) = Ok msgs.
Proof.
  induction 1 as [i n Hn Hp | i n p l Hn Hp Hc IH]; intros [| fuel] Hfuel;
    simpl in Hfuel; try lia; simpl; unfold getitem; rewrite Hn; simpl;
    change (node_parent n) with (parent_id n) in Hp; rewrite Hp.
  - rewrite nearest_messages_None. simpl. destruct (branch_messages self !! i); eauto.
  - destruct (IH fuel) as (msgs & ->); [lia |]. simpl.
    destruct (branch_messages self !! i); eauto.
Qed.

Lemma get_branch_messages_ok root self node_id :
  wf root (nodes self) -> is_Some (nodes self !! node_id) ->
  exists msgs, _get_branch_messages self node_id = Ok msgs.
Proof.
  intros Hwf [n Hn]. unfold _get_branch_messages.
  destruct (branch_messages self !! node_id); [eauto |].
  destruct (TreeFacts.wf_chain_to_root _ _ _ _ Hwf Hn) as (l & Hl & _).
  apply (nearest_messages_ok _ _ _ Hl).
  pose proof (TreeFacts.chain_length _ _ _ Hl). lia.
Qed.

(** A child the policy returned is registered with a fresh id under the
    node that is expanded, alone or with an answer node under it. *)
Lemma expand_child_shape node_id d msgs self registered s :
  let acc' := expand_child out node_id d msgs (self, registered) s in
  let cid := uuid4 out (ids_made self) in
  let aid := uuid4 out (S (ids_made self)) in
  same_run self acc'.1
  /\ ((exists child,
         parent_id child = Some node_id /\ depth child = (d + 1)%Z
         /\ children child = [] /\ visits child = 0%Z /\ id child = cid
         /\ acc'.2 = (registered ++ [child])%list
         /\ ids_made acc'.1 = S (ids_made self)
         /\ nodes acc'.1 = alter (with_child cid) node_id (<[cid := child]> (nodes self)))
      \/ (exists child ans,
            parent_id child = Some node_id /\ depth child = (d + 1)%Z
            /\ children child = [] /\ visits child = 0%Z /\ id child = cid
            /\ parent_id ans = Some cid /\ depth ans = (d + 1 + 1)%Z
            /\ children ans = [] /\ visits ans = 0%Z
            /\ acc'.2 = (registered ++ [with_child aid child])%list
            /\ ids_made acc'.1 = S (S (ids_made self))
            /\ nodes acc'.1
               = alter (with_child cid) node_id
                   (<[cid := with_child aid child]> (<[aid := ans]> (nodes self))))).
Proof.
  cbv zeta. unfold expand_child. cbn [_make_id].
  destruct (String.eqb _ _ && negb _).
  - cbn [repl]. destruct (execute_async out (repl self) _) as [w result].
    destruct (_check_final_var _ _) as [final |].
    + destruct (String.eqb final "").
      * split; [repeat split |]. left. eexists. repeat split; reflexivity.
      * split; [repeat split |]. right. eexists (mkNode _ _ _ _ [] _ _ _ _ _ _ _ _), _.
        repeat split; reflexivity.
    + split; [repeat split |]. left. eexists. repeat split; reflexivity.
  - split; [repeat split |]. left. eexists. repeat split; reflexivity.
Qed.

(** A leaf registered under a node of the tree. *)
Lemma leaf_registered root (nodes : gmap string ReasoningNode) made p pn child :
  wf root nodes -> GrowFacts.issued (uuid4 out) made nodes ->
  nodes !! p = Some pn ->
  parent_id child = Some p -> depth child = (depth pn + 1)%Z ->
  children child = [] -> visits child = 0%Z ->
  let cid := uuid4 out made in
  let nodes' := alter (with_child cid) p (<[cid := child]> nodes) in
  wf root nodes' /\ GrowFacts.issued (uuid4 out) (S made) nodes'
  /\ nodes' !! cid = Some child
  /\ nodes' !! p = Some (with_child cid pn)
  /\ (forall k, k <> p -> k <> cid -> nodes' !! k = nodes !! k).
Proof.
  intros Hwf Hiss Hp Hcp Hcd Hcc Hcv cid nodes'.
  assert (Hfresh : nodes !! cid = None) by (apply (GrowFacts.issued_fresh _ made); auto).
  assert (Hne : cid <> p) by congruence.
  assert (Heq : nodes' = <[p := with_child cid pn]> (<[cid := child]> nodes)).
  { apply GrowFacts.alter_as_insert. now rewrite lookup_insert_ne. }
  rewrite Heq. split; [| split; [| split; [| split]]].
  - apply (GrowFacts.wf_grow root p cid nodes pn); try done. simpl. lia.
  - eapply GrowFacts.issued_grow; eauto.
  - rewrite lookup_insert_ne by done. apply lookup_insert_eq.
  - apply lookup_insert_eq.
  - intros k Hkp Hkc. now rewrite !lookup_insert_ne.
Qed.

Lemma expand_child_ok root node_id pn msgs self registered s :
  ok root self -> nodes self !! node_id = Some pn ->
  let acc' := expand_child out node_id (depth pn) msgs (self, registered) s in
  ok root acc'.1 /\ kept self acc'.1 /\ same_run self acc'.1
  /\ exists child, acc'.2 = (registered ++ [child])%list
                   /\ is_Some (nodes acc'.1 !! id child).
Proof.
  intros [Hwf Hiss] Hp. cbv zeta.
  destruct (expand_child_shape node_id (depth pn) msgs self registered s)
    as [Hsame [(child & Hcp & Hcd & Hcc & Hcv & Hid & Hreg & Hmade & Hnodes)
              | (child & ans & Hcp & Hcd & Hcc & Hcv & Hid & Hap & Had & Hac & Hav
                 & Hreg & Hmade & Hnodes)]].
  - destruct (leaf_registered root (nodes self) (ids_made self) node_id pn child)
      as (Hwf' & Hiss' & Hc' & Hp' & Hother); auto.
    rewrite <- Hnodes in *. rewrite <- Hmade in Hiss'.
    split; [split; done |]. split; [| split; [done |]].
    + intros k n Hn. destruct (decide (k = node_id)) as [-> | Hkp].
      { simplify_eq. eexists. split; [exact Hp' | done]. }
      assert (k <> uuid4 out (ids_made self)).
      { intros ->. rewrite (GrowFacts.issued_fresh _ (ids_made self)) in Hn; auto. done. }
      exists n. rewrite Hother by done. done.
    + exists child. split; [done |]. rewrite Hid. eauto.
  - assert (Hfc : nodes self !! uuid4 out (ids_made self) = None)
      by (apply (GrowFacts.issued_fresh _ (ids_made self)); auto).
    assert (Hfa : nodes self !! uuid4 out (S (ids_made self)) = None)
      by (apply (GrowFacts.issued_fresh _ (ids_made self)); auto).
    assert (Hca : uuid4 out (ids_made self) <> uuid4 out (S (ids_made self))).
    { intros Heq. apply uuid_inj in Heq. lia. }
    set (cid := uuid4 out (ids_made self)) in *.
    set (aid := uuid4 out (S (ids_made self))) in *.
    assert (Hpc : node_id <> cid) by congruence.
    assert (Hpa : node_id <> aid) by congruence.
    destruct (leaf_registered root (nodes self) (ids_made self) node_id pn child)
      as (Hwf1 & Hiss1 & Hc1 & Hp1 & Hother1); auto.
    fold cid in Hwf1, Hiss1, Hc1, Hp1, Hother1.
    set (nodes1 := alter (with_child cid) node_id (<[cid := child]> (nodes self))) in *.
    destruct (leaf_registered root nodes1 (S (ids_made self)) cid child ans)
      as (Hwf2 & Hiss2 & Ha2 & Hc2 & Hother2); auto; [lia |].
    fold aid in Hwf2, Hiss2, Ha2, Hc2, Hother2.
    set (nodes2 := alter (with_child aid) cid (<[aid := ans]> nodes1)) in *.
    assert (Heq : nodes (expand_child out node_id (depth pn) msgs (self, registered) s).1
                  = nodes2).
    { rewrite Hnodes. apply map_eq. intros k.
      destruct (decide (k = node_id)) as [-> | Hkp].
      { rewrite lookup_alter_eq, !lookup_insert_ne, Hp by done.
        rewrite Hother2, Hp1 by done. done. }
      rewrite lookup_alter_ne by done.
      destruct (decide (k = cid)) as [-> | Hkc].
      { now rewrite lookup_insert_eq, Hc2. }
      rewrite lookup_insert_ne by done.
      destruct (decide (k = aid)) as [-> | Hka].
      { now rewrite lookup_insert_eq, Ha2. }
      rewrite lookup_insert_ne by done.
      rewrite Hother2, Hother1 by done. done. }
    unfold ok, kept. rewrite Heq, Hmade.
    split; [split; done |]. split; [| split; [done |]].
    + intros k n Hn.
      assert (k <> cid) by congruence. assert (k <> aid) by congruence.
      rewrite Hother2 by done.
      destruct (decide (k = node_id)) as [-> | Hkp].
      { simplify_eq. eexists. split; [exact Hp1 | done]. }
      exists n. rewrite Hother1 by done. done.
    + exists (with_child aid child). split; [done |].
      simpl. rewrite Hid. eauto.
Qed.


Lemma kept_present self self' k :
  kept self self' -> is_Some (nodes self !! k) -> is_Some (nodes self' !! k).
Proof. intros Hk [n Hn]. destruct (Hk k n Hn) as (n' & Hn' & _). eauto. Qed.

Lemma same_run_refl self : same_run self self.
Proof. unfold same_run. auto. Qed.

(** The loop of [_expand] over the children the policy returned. *)
Lemma expand_fold_ok root node_id d msgs seeds : forall self registered pn,
  ok root self -> nodes self !! node_id = Some pn -> depth pn = d ->
  (forall ch, ch ∈ registered -> is_Some (nodes self !! id ch)) ->
  let acc' := fold_left (expand_child out node_id d msgs) seeds (self, registered) in
  ok root acc'.1 /\ kept self acc'.1 /\ same_run self acc'.1
  /\ (forall ch, ch ∈ acc'.2 -> is_Some (nodes acc'.1 !! id ch)).
Proof.
  induction seeds as [| s seeds IH]; intros self registered pn Hok Hp Hd Hreg;
    cbn [fold_left fst snd].
  { split; [exact Hok |]. split; [apply kept_refl |]. split; [apply same_run_refl | exact Hreg]. }
  destruct (expand_child_ok root node_id pn msgs self registered s Hok Hp)
    as (Hok1 & Hkept1 & Hsame1 & child & Hreg1 & Hchild).
  rewrite Hd in *.
  destruct (expand_child out node_id d msgs (self, registered) s) as [self1 reg1].
  cbn [fst snd] in *.
  destruct (Hkept1 node_id pn Hp) as (pn1 & Hp1 & _ & Hd1).
  destruct (IH self1 reg1 pn1 Hok1 Hp1) as (Hok2 & Hkept2 & Hsame2 & Hreg2).
  { congruence. }
  { intros ch Hch. rewrite Hreg1 in Hch. apply elem_of_app in Hch as [Hch | Hch].
    - eapply kept_present; eauto.
    - apply list_elem_of_singleton in Hch as ->. done. }
  split; [exact Hok2 |]. split; [eapply kept_trans; eauto |].
  split; [eapply same_run_trans; eauto | exact Hreg2].
Qed.

Lemma expand_ok root self leaf question :
  ok root self -> is_Some (nodes self !! leaf) ->
  exists grown,
    _expand out self leaf question = Ok grown
    /\ ok root grown.1 /\ kept self grown.1 /\ same_run self grown.1
    /\ (forall ch, ch ∈ grown.2 -> is_Some (nodes grown.1 !! id ch)).
Proof.
  intros Hok [n Hn]. unfold _expand, getitem. rewrite Hn. simpl.
  destruct (get_branch_messages_ok root self leaf) as (msgs & ->); [apply Hok | eauto |].
  simpl. destruct (policy_fn out (repl self) n msgs question) as [w seeds].
  eexists. split; [reflexivity |].
  apply (expand_fold_ok root leaf (depth n) msgs seeds (with_repl self w) [] n); try done.
  intros ch Hch. set_solver.
Qed.

Lemma backpropagate_ok root self leaf value :
  ok root self -> is_Some (nodes self !! leaf) ->
  exists self',
    _backpropagate self leaf value = Ok self'
    /\ ok root self' /\ backprops self' = S (backprops self)
    /\ emitted self' = emitted self
    /\ is_Some (nodes self' !! leaf)
    /\ (forall r, nodes self !! root = Some r ->
         exists r', nodes self' !! root = Some r' /\ visits r' = (visits r + 1)%Z).
Proof.
  intros [Hwf Hiss] [n Hn].
  destruct (TreeFacts.wf_chain_to_root _ _ _ _ Hwf Hn) as (l & Hl & Hroot).
  destruct (TreeFacts.backpropagate_chain _ _ _ value Hl) as (nodes' & Hrun & Hvis).
  unfold _backpropagate. rewrite Hrun. simpl.
  eexists. split; [reflexivity |]. simpl.
  split; [split |]; [eapply TreeFacts.wf_visited; eauto | |].
  - intros k [n' Hn'].
    destruct (TreeFacts.visited_lookup _ _ _ _ _ _ Hvis Hn') as (n0 & Hn0 & _). eauto.
  - repeat split.
    + destruct (TreeFacts.visited_lookup_inv _ _ _ _ _ _ Hvis Hn) as (n' & Hn' & _). eauto.
    + intros r Hr. rewrite (Hvis root), decide_True, Hr by done. simpl. eauto.
Qed.

(** One turn of the loop returns, with one more back-propagation, one
    more visit of the root and one more snapshot sent. *)
Lemma iteration_ok root question self v :
  ok root self ->
  (exists r, nodes self !! root = Some r /\ visits r = v) ->
  exists self',
    iteration out root question self = Ok self'
    /\ ok root self'
    /\ (exists r', nodes self' !! root = Some r' /\ visits r' = (v + 1)%Z)
    /\ backprops self' = S (backprops self)
    /\ length (emitted self') = S (length (emitted self)).
Proof.
  intros Hok (r & Hr & Hv).
  destruct (select_ok root self) as (leaf & Hsel & [ln Hln]); [apply Hok |].
  unfold iteration. rewrite Hsel. simpl. unfold getitem at 1. rewrite Hln. simpl.
  (* the expansion, when it happens *)
  assert (Hexp : exists self1 leaf1,
             (if (depth ln <? max_depth self)%Z && bool_decide (children ln = [])
              then let* grown := _expand out self leaf question in
                   match grown.2 with
                   | first :: _ => Ok (grown.1, id first)
                   | [] => Ok (grown.1, leaf)
                   end
              else Ok (self, leaf)) = Ok (self1, leaf1)
             /\ ok root self1 /\ kept self self1 /\ same_run self self1
             /\ is_Some (nodes self1 !! leaf1)).
  { destruct (_ && _).
    - destruct (expand_ok root self leaf question Hok) as (grown & -> & Hok1 & Hk1 & Hs1 & Hreg);
        [eauto |].
      simpl. destruct grown as [self1 [| first rest]]; simpl in *.
      + exists self1, leaf. split; [done |]. split; [done |]. split; [done |].
        split; [done |]. eapply kept_present; eauto.
      + exists self1, (id first). split; [done |]. split; [done |]. split; [done |].
        split; [done |]. apply Hreg. set_solver.
    - exists self, leaf. split; [done |]. split; [done |]. split; [apply kept_refl |].
      split; [apply same_run_refl | eauto]. }
  destruct Hexp as (self1 & leaf1 & -> & Hok1 & Hk1 & Hs1 & [n1 Hn1]). simpl.
  destruct (Hk1 root r Hr) as (r1 & Hr1 & Hv1 & _).
  (* the evaluation *)
  unfold _evaluate, getitem at 1. rewrite Hn1. simpl.
  destruct (value_fn out (repl self1) n1 question) as [w value]. simpl.
  (* the back-propagation *)
  destruct (backpropagate_ok root (with_repl self1 w) leaf1 value)
    as (self2 & -> & Hok2 & Hb2 & He2 & [n2 Hn2] & Hroot2); [exact Hok1 | simpl; eauto |].
  simpl. unfold getitem. rewrite Hn2. simpl.
  destruct (Hroot2 r1 Hr1) as (r2 & Hr2 & Hv2).
  eexists. split; [reflexivity |]. simpl.
  destruct Hs1 as (Hb1 & _ & _ & He1). simpl in *.
  split; [exact Hok2 |]. split; [exists r2; split; [done | lia] |].
  split; congruence.
Qed.

Lemma search_loop_ok root question k : forall self,
  ok root self ->
  (exists r, nodes self !! root = Some r /\ visits r = 0%Z) ->
  exists self',
    search_loop out k root question self = Ok self'
    /\ ok root self'
    /\ (exists r', nodes self' !! root = Some r' /\ visits r' = Z.of_nat k)
    /\ backprops self' = (backprops self + k)%nat
    /\ length (emitted self') = (length (emitted self) + k)%nat.
Proof.
  induction k as [| k IH]; intros self Hok Hroot; simpl.
  { exists self. split; [done |]. split; [done |]. split; [exact Hroot |]. lia. }
  destruct (IH self Hok Hroot) as (self1 & -> & Hok1 & Hr1 & Hb1 & He1). simpl.
  destruct (iteration_ok root question self1 (Z.of_nat k) Hok1 Hr1)
    as (self2 & -> & Hok2 & (r2 & Hr2 & Hv2) & Hb2 & He2).
  exists self2. split; [done |]. split; [done |].
  split; [exists r2; split; [done | lia] |]. lia.
Qed.


End Engine.

End SearchFacts.

(** ** The descent of [_select] in the transcript tree *)

Module DescentFacts.
Import Tree ReasoningTree.

(** One turn of the loop of [_select]. *)
Lemma select_loop_step fuel (nodes : gmap string ReasoningNode) cc node_id :
  select_loop (S fuel) nodes cc node_id
  = let* node := getitem nodes node_id in
    match children node with
    | [] => Ok node_id
    | _ =>
        let* best :=
          max_by (child_score nodes (Z.max (visits node) 1) cc) (children node) in
        select_loop fuel nodes cc best
    end.
Proof. reflexivity. Qed.

(** A descent that has ended ends the same with more turns allowed. *)
Lemma select_loop_more_fuel (nodes : gmap string ReasoningNode) cc leaf :
  forall fuel node_id,
    select_loop fuel nodes cc node_id = Ok leaf ->
    select_loop (S fuel) nodes cc node_id = Ok leaf.
Proof.
  induction fuel as [| fuel IH]; intros node_id Hrun; [discriminate |].
  rewrite select_loop_step in Hrun. rewrite select_loop_step.
  destruct (getitem nodes node_id) as [node | |]; cbn [bind] in *; try discriminate.
  destruct (children node) as [| c0 cs]; [exact Hrun |].
  destruct (max_by _ _) as [best | |]; cbn [bind] in *; try discriminate.
  now apply IH.
Qed.

(** In a well-formed tree the descent from a node ends, at a node
    without children. *)
Lemma select_loop_leaf root (nodes : gmap string ReasoningNode) cc :
  wf root nodes ->
  forall fuel node_id n,
    nodes !! node_id = Some n ->
    (size nodes <= fuel + Z.to_nat (depth n))%nat ->
    exists leaf ln,
      select_loop fuel nodes cc node_id = Ok leaf
      /\ nodes !! leaf = Some ln /\ children ln = [].
Proof.
  intros Hwf. induction fuel as [| fuel IH]; intros node_id n Hn Hfuel.
  { pose proof (wf_depth _ _ Hwf node_id n Hn) as Hd. simpl in Hd. lia. }
  rewrite select_loop_step. unfold getitem at 1. rewrite Hn. cbn [bind].
  destruct (children n) as [| c0 cs] eqn:Hch.
  { exists node_id, n. done. }
  destruct (GrowFacts.max_by_elem
              (child_score nodes (Z.max (visits n) 1) cc) (c0 :: cs)) as (best & Hbest & Hin).
  { done. }
  { intros cid Hcid.
    destruct (wf_children _ _ Hwf node_id n cid Hn) as (cn & Hcn & _).
    { simpl. now rewrite Hch. }
    pose proof (wf_visits _ _ Hwf cid cn Hcn) as Hv. simpl in Hv.
    destruct (child_score_spec nodes (Z.max (visits n) 1) cc cid cn) as (s & Hs & _);
      [done | done | lia | eauto]. }
  rewrite Hbest. cbn [bind].
  destruct (wf_children _ _ Hwf node_id n best Hn) as (bn & Hbn & Hbd).
  { simpl. now rewrite Hch. }
  apply (IH best bn Hbn).
  pose proof (wf_depth _ _ Hwf node_id n Hn) as Hd. simpl in Hd, Hbd. lia.
Qed.

(** At a node of a well-formed tree that has an unvisited child,
    [_select] goes down into the first unvisited child: it returns, the
    node it returns has no children, and it is the node that [_select]
    returns from that child. *)
Lemma select_through_unvisited {W} (self : MCTSReasoningTree W) root node_id node :
  wf root (nodes self) ->
  nodes self !! node_id = Some node ->
  (exists cid, cid ∈ children node /\ unvisited (nodes self) cid) ->
  exists best leaf,
    SelectFacts.first_with (unvisited (nodes self)) (children node) best
    /\ _select self node_id = Ok leaf
    /\ _select self best = Ok leaf
    /\ (exists ln, nodes self !! leaf = Some ln /\ children ln = [])
    /\ ((exists bn, nodes self !! best = Some bn /\ children bn = []) -> leaf = best).
Proof.
  intros Hwf Hnode Hsome.
  destruct (SelectFacts.max_by_first
              (child_score (nodes self) (Z.max (visits node) 1) (c self))
              (unvisited (nodes self)) (children node)) as (best & Hfirst & Hmax).
  { intros cid Hcid.
    destruct (wf_children _ _ Hwf node_id node cid Hnode Hcid) as (cn & Hcn & _).
    pose proof (wf_visits _ _ Hwf cid cn Hcn) as Hv. simpl in Hv.
    eapply child_score_spec; eauto. lia. }
  { exact Hsome. }
  assert (Hin : best ∈ children node).
  { destruct Hfirst as (pre & post & -> & _). set_solver. }
  destruct (wf_children _ _ Hwf node_id node best Hnode Hin) as (bn & Hbn & Hbd).
  destruct (select_loop_leaf root (nodes self) (c self) Hwf (size (nodes self)) best bn Hbn)
    as (leaf & ln & Hleaf & Hln & Hlc).
  { lia. }
  exists best, leaf. split; [exact Hfirst |].
  assert (Hfrom_best : _select self best = Ok leaf).
  { unfold _select. now apply select_loop_more_fuel. }
  split; [| split; [exact Hfrom_best | split; [eauto |]]].
  - unfold _select. rewrite select_loop_step. unfold getitem at 1. rewrite Hnode. cbn [bind].
    destruct (children node) as [| c0 cs] eqn:Hch; [set_solver |].
    rewrite Hmax. cbn [bind]. exact Hleaf.
  - intros (bn' & Hbn' & Hbc). assert (bn' = bn) by congruence. subst bn'.
    unfold _select in Hfrom_best. rewrite select_loop_step in Hfrom_best.
    unfold getitem in Hfrom_best. rewrite Hbn in Hfrom_best. cbn [bind] in Hfrom_best.
    rewrite Hbc in Hfrom_best. congruence.
Qed.

End DescentFacts.

(** The three nodes as the tree of an engine. *)
Definition three_node_tree : ReasoningTree.MCTSReasoningTree unit :=
  ReasoningTree.mkTree tt 12 5 1.414 three_nodes ∅ 3 1 [].

Lemma three_nodes_lookup k n :
  three_nodes !! k = Some n ->
  (k = "00000002" /\ n = fresh_child) \/ (k = "00000001" /\ n = visited_child)
  \/ (k = "00000000" /\ n = parent_of_two).
Proof.
  unfold three_nodes. intros Hk.
  apply lookup_insert_Some in Hk as [[<- <-] | [_ Hk]]; [auto |].
  apply lookup_insert_Some in Hk as [[<- <-] | [_ Hk]]; [auto |].
  apply lookup_insert_Some in Hk as [[<- <-] | [_ Hk]]; [auto |].
  rewrite lookup_empty in Hk. discriminate.
Qed.

Lemma three_nodes_wf : Tree.wf "00000000" three_nodes.
Proof.
  assert (Hsize : size three_nodes = 3%nat).
  { unfold three_nodes.
    rewrite !map_size_insert_None; [reflexivity | reflexivity | |];
      rewrite ?lookup_insert_ne by discriminate; apply lookup_empty. }
  assert (Hroot : three_nodes !! "00000000" = Some parent_of_two) by reflexivity.
  assert (Hone : three_nodes !! "00000001" = Some visited_child) by reflexivity.
  assert (Htwo : three_nodes !! "00000002" = Some fresh_child) by reflexivity.
  split.
  - exists parent_of_two. split; [exact Hroot |]. split; reflexivity.
  - intros k n Hn Hne.
    destruct (three_nodes_lookup k n Hn) as [[Hk Hv] | [[Hk Hv] | [Hk Hv]]];
      clear Hn; subst k n.
    + exists "00000000", parent_of_two. split; [reflexivity |]. split; [exact Hroot |].
      reflexivity.
    + exists "00000000", parent_of_two. split; [reflexivity |]. split; [exact Hroot |].
      reflexivity.
    + destruct Hne. reflexivity.
  - intros k n c Hn Hc.
    destruct (three_nodes_lookup k n Hn) as [[Hk Hv] | [[Hk Hv] | [Hk Hv]]];
      clear Hn; subst k n; cbn [Tree.node_children ReasoningTree.reasoning_node
        ReasoningTree.children fresh_child visited_child parent_of_two] in Hc.
    + apply elem_of_nil in Hc. destruct Hc.
    + apply elem_of_nil in Hc. destruct Hc.
    + apply elem_of_cons in Hc as [-> | Hc].
      { exists visited_child. split; [exact Hone | reflexivity]. }
      apply elem_of_cons in Hc as [-> | Hc].
      { exists fresh_child. split; [exact Htwo | reflexivity]. }
      apply elem_of_nil in Hc. destruct Hc.
  - intros k n Hn. rewrite Hsize.
    destruct (three_nodes_lookup k n Hn) as [[Hk Hv] | [[Hk Hv] | [Hk Hv]]];
      clear Hn; subst k n; simpl; lia.
  - intros k n Hn.
    destruct (three_nodes_lookup k n Hn) as [[Hk Hv] | [[Hk Hv] | [Hk Hv]]];
      clear Hn; subst k n; simpl; lia.
Qed.

(** C2: an unvisited child scores plus infinity; a visited one scores a
    finite value, which infinity outranks; so at a node with children, of
    which each has a count of visits that is zero or more and one is
    unvisited, selection descends into the first unvisited child.  In a
    well-formed tree [_select] from such a node returns: the node it
    returns has no children and is the node [_select] returns from the
    first unvisited child, that child itself when it has no children.
    The count of the parent enters the formula as [max(visits, 1)], and
    selection never ends in the domain error of a logarithm. *)
Theorem C2_unvisited_children_first :
  (forall child parent_visits c,
      ReasoningTree.visits child = 0%Z ->
      ReasoningTree.ucb_score child parent_visits c = Ok Tree.Inf)
  /\ (forall child parent_visits c,
        (0 < ReasoningTree.visits child)%Z -> (1 <= parent_visits)%Z ->
        exists x, ReasoningTree.ucb_score child parent_visits c = Ok (Tree.Fin x)
                  /\ Tree.score_gt Tree.Inf (Tree.Fin x) = true
                  /\ Tree.score_gt (Tree.Fin x) Tree.Inf = false)
  /\ (forall nodes c fuel node_id node,
        nodes !! node_id = Some node ->
        (forall cid, cid ∈ ReasoningTree.children node ->
           exists child, nodes !! cid = Some child /\ (0 <= ReasoningTree.visits child)%Z) ->
        (exists cid, cid ∈ ReasoningTree.children node /\ unvisited nodes cid) ->
        exists best,
          SelectFacts.first_with (unvisited nodes) (ReasoningTree.children node) best
          /\ Tree.max_by (child_score nodes (Z.max (ReasoningTree.visits node) 1) c)
               (ReasoningTree.children node) = Ok best
          /\ ReasoningTree.select_loop (S fuel) nodes c node_id
             = ReasoningTree.select_loop fuel nodes c best)
  /\ (forall W (self : ReasoningTree.MCTSReasoningTree W) root node_id node,
        Tree.wf root (ReasoningTree.nodes self) ->
        ReasoningTree.nodes self !! node_id = Some node ->
        (exists cid, cid ∈ ReasoningTree.children node
                     /\ unvisited (ReasoningTree.nodes self) cid) ->
        exists best leaf,
          SelectFacts.first_with (unvisited (ReasoningTree.nodes self))
            (ReasoningTree.children node) best
          /\ ReasoningTree._select self node_id = Ok leaf
          /\ ReasoningTree._select self best = Ok leaf
          /\ (exists ln, ReasoningTree.nodes self !! leaf = Some ln
                         /\ ReasoningTree.children ln = [])
          /\ ((exists bn, ReasoningTree.nodes self !! best = Some bn
                          /\ ReasoningTree.children bn = []) -> leaf = best))
  /\ (forall node child c,
        (1 <= Z.max (ReasoningTree.visits node) 1)%Z
        /\ ReasoningTree.ucb_score child (Z.max (ReasoningTree.visits node) 1) c
           <> Raise LogDomainError)
  /\ (forall fuel nodes c node_id,
        ReasoningTree.select_loop fuel nodes c node_id <> Raise LogDomainError).
Proof.
  split; [| split; [| split; [| split; [| split]]]].
  - intros child pv c Hv. now apply SelectFacts.ucb_unvisited.
  - intros child pv c Hv Hpv.
    destruct (SelectFacts.ucb_visited child pv c) as (x & Hx); [exact Hv | exact Hpv |].
    exists x. repeat split. exact Hx.
  - intros nodes c fuel node_id node Hnode Hchildren Hsome.
    destruct (SelectFacts.max_by_first
                (child_score nodes (Z.max (ReasoningTree.visits node) 1) c)
                (unvisited nodes) (ReasoningTree.children node)) as (best & Hfirst & Hmax).
    { intros cid Hcid. destruct (Hchildren cid Hcid) as (child & Hc & Hv).
      eapply child_score_spec; eauto. lia. }
    { exact Hsome. }
    exists best. repeat split; [exact Hfirst | exact Hmax |].
    simpl. unfold getitem at 1. rewrite Hnode. simpl.
    destruct (ReasoningTree.children node) as [| c0 cs] eqn:Hch.
    { destruct Hsome as (cid & Hcid & _). set_solver. }
    fold (child_score nodes (Z.max (ReasoningTree.visits node) 1) c).
    now rewrite Hmax.
  - intros W self root node_id node Hwf Hnode Hsome.
    exact (DescentFacts.select_through_unvisited self root node_id node Hwf Hnode Hsome).
  - intros node child c. split; [lia |].
    apply SelectFacts.ucb_no_log_error. lia.
  - intros. apply select_loop_no_log_error.
Qed.

(** C2 on those nodes: selection at the root goes to the unvisited
    child, and [_select] from the root returns it. *)
Lemma C2_unvisited_children_first_witness :
  (exists best,
     SelectFacts.first_with (unvisited three_nodes) ["00000001"; "00000002"] best
     /\ Tree.max_by (child_score three_nodes (Z.max 1 1) 1.414) ["00000001"; "00000002"]
        = Ok best
     /\ ReasoningTree.select_loop 2 three_nodes 1.414 "00000000"
        = ReasoningTree.select_loop 1 three_nodes 1.414 best)
  /\ (exists best leaf,
        SelectFacts.first_with (unvisited three_nodes) ["00000001"; "00000002"] best
        /\ ReasoningTree._select three_node_tree "00000000" = Ok leaf
        /\ ReasoningTree._select three_node_tree best = Ok leaf
        /\ (exists ln, three_nodes !! leaf = Some ln /\ ReasoningTree.children ln = [])
        /\ ((exists bn, three_nodes !! best = Some bn /\ ReasoningTree.children bn = [])
            -> leaf = best)).
Proof.
  assert (Hsome : exists cid, cid ∈ ReasoningTree.children parent_of_two
                              /\ unvisited three_nodes cid).
  { exists "00000002". split.
    - apply elem_of_cons. right. apply elem_of_cons. now left.
    - exists fresh_child. split; reflexivity. }
  split.
  - apply (proj1 (proj2 (proj2 C2_unvisited_children_first))
             three_nodes 1.414 1%nat "00000000" parent_of_two).
    + reflexivity.
    + intros cid Hcid.
      apply elem_of_cons in Hcid as [-> | Hcid].
      { exists visited_child. split; [reflexivity | simpl; lia]. }
      apply elem_of_cons in Hcid as [-> | Hcid].
      { exists fresh_child. split; [reflexivity | simpl; lia]. }
      apply elem_of_nil in Hcid. destruct Hcid.
    + exact Hsome.
  - apply (proj1 (proj2 (proj2 (proj2 C2_unvisited_children_first)))
             unit three_node_tree "00000000" "00000000" parent_of_two).
    + exact three_nodes_wf.
    + reflexivity.
    + exact Hsome.
Defined.

(** ** The loop of the rubric engine *)

Module RunFacts.
Import Tree RubricTree.



Section Engine.
Context {W : Type}.
Variable P : platform.
Variable out : outside W.
Hypothesis uuid_inj : Inj (=) (=) (uuid4 out).
Hypothesis import_re : exists v, real_import P "re" = Ok v.
Hypothesis import_json : exists v, real_import P "json" = Ok v.
Hypothesis import_math : exists v, real_import P "math" = Ok v.
Implicit Type self : MCTSRubricTree W.

(** Each node is stored under its own id. *)
Definition named (nodes : gmap string RubricNode) : Prop :=
  forall k n, nodes !! k = Some n -> id n = k.

(** The tree is well formed, its ids are those made so far, each node is
    under its id, and the best node is one of the tree. *)
Definition ok self : Prop :=
  wf (root self) (nodes self)
  /\ GrowFacts.issued (uuid4 out) (ids_made self) (nodes self)
  /\ named (nodes self)
  /\ (forall b, best_node self = Some b -> is_Some (nodes self !! b)).

(** The nodes of [self] are all in [self'], with the counts they had. *)
Definition kept self self' : Prop :=
  forall k n, nodes self !! k = Some n ->
    exists n', nodes self' !! k = Some n' /\ visits n' = visits n.




















End Engine.

End RunFacts.


(** A policy that proposes one strategy each time. *)
Definition one_strategy : ReasoningTree.outside unit :=
  ReasoningTree.mkOutside unit (fun n => pretty n)
    (fun w _ _ _ => (w, [ReasoningTree.mkSeed "look at the start" "strategy" ""]))
    (fun w code => (w, ReplEnv.mkResult "" "" ∅ 0 true))
    (fun _ _ => None)
    (fun w _ _ => (w, 0.5)).




(** * Further properties of the code *)

(** ** The reward signals ([rubric-discovery/backend/reward_signals.py]) *)

Module SignalFacts.
Import RewardSignals.

Lemma fold_sum_shift (xs : list R) (a : R) : fold_left Rplus xs a = a + fold_left Rplus xs 0.
Proof.
  revert a. induction xs as [| x xs IH]; intros a; simpl; [lra |].
  rewrite (IH (a + x)), (IH (0 + x)). lra.
Qed.

Lemma sum_cons (x : R) (xs : list R) : Py.sum (x :: xs) = x + Py.sum xs.
Proof. unfold Py.sum. simpl. rewrite fold_sum_shift. lra. Qed.

Lemma sum_nil : Py.sum [] = 0.
Proof. reflexivity. Qed.

Lemma sum_nonneg (xs : list R) : Forall (fun x => 0 <= x) xs -> 0 <= Py.sum xs.
Proof.
  induction 1 as [| x xs Hx _ IH]; [rewrite sum_nil; lra |].
  rewrite sum_cons. lra.
Qed.

Lemma sum_zero (xs : list R) : Forall (fun x => x = 0) xs -> Py.sum xs = 0.
Proof.
  induction 1 as [| x xs Hx _ IH]; [reflexivity |].
  rewrite sum_cons. lra.
Qed.

(** A sum of values that are not negative is zero only when each is. *)
Lemma sum_zero_inv (xs : list R) :
  Forall (fun x => 0 <= x) xs -> Py.sum xs = 0 -> Forall (fun x => x = 0) xs.
Proof.
  induction 1 as [| x xs Hx Hxs IH]; [constructor |].
  rewrite sum_cons. intros Hsum.
  pose proof (sum_nonneg xs Hxs).
  constructor; [lra | apply IH; lra].
Qed.

Lemma sum_le_len (xs : list R) : Forall (fun x => x <= 1) xs -> Py.sum xs <= Py.len xs.
Proof.
  unfold Py.len. induction 1 as [| x xs Hx _ IH]; [rewrite sum_nil; simpl; lra |].
  rewrite sum_cons. cbn [length]. rewrite S_INR. lra.
Qed.

Lemma sum_constant (c : R) (xs : list R) :
  Forall (fun x => x = c) xs -> Py.sum xs = Py.len xs * c.
Proof.
  unfold Py.len. induction 1 as [| x xs Hx _ IH]; [rewrite sum_nil; simpl; lra |].
  rewrite sum_cons. cbn [length]. rewrite S_INR, IH, Hx. lra.
Qed.

Lemma len_pos {A} (xs : list A) : xs <> [] -> 0 < Py.len xs.
Proof.
  intros Hne. destruct xs as [| x xs]; [done |].
  unfold Py.len. cbn [length]. rewrite S_INR. pose proof (pos_INR (length xs)). lra.
Qed.

(** The prediction of a result is its label. *)
Definition exact (r : result) : Prop := predicted r = actual r.

Lemma mae_cons r results :
  _mae (r :: results)
  = Py.sum (map (fun r => Rabs (predicted r - actual r)) (r :: results))
    / Py.len (r :: results).
Proof. unfold _mae, Py.len. now rewrite length_map. Qed.

Lemma errors_nonneg results :
  Forall (fun x => 0 <= x) (map (fun r => Rabs (predicted r - actual r)) results).
Proof. apply Forall_forall. intros x Hx. apply list_elem_of_fmap in Hx as (r & -> & _). apply Rabs_pos. Qed.

Lemma mae_nonneg results : 0 <= _mae results.
Proof.
  destruct results as [| r results]; [simpl; lra |].
  rewrite mae_cons.
  apply Rmult_le_pos; [apply sum_nonneg, errors_nonneg |].
  left. apply Rinv_0_lt_compat, len_pos. done.
Qed.

Lemma mae_exact results : results <> [] -> Forall exact results -> _mae results = 0.
Proof.
  intros Hne Hex. destruct results as [| r results]; [done |].
  rewrite mae_cons, sum_zero; [unfold Rdiv; lra |].
  apply Forall_forall. intros x Hx. apply list_elem_of_fmap in Hx as (r' & -> & Hr').
  rewrite Forall_forall in Hex. rewrite (Hex r' Hr'), Rminus_diag. apply Rabs_R0.
Qed.

Lemma mae_zero_inv results : results <> [] -> _mae results = 0 -> Forall exact results.
Proof.
  intros Hne H0. destruct results as [| r results]; [done |].
  rewrite mae_cons in H0.
  pose proof (len_pos (r :: results) Hne) as Hlen.
  assert (Hsum : Py.sum (map (fun r => Rabs (predicted r - actual r)) (r :: results)) = 0).
  { apply Rmult_eq_compat_r with (r := Py.len (r :: results)) in H0.
    unfold Rdiv in H0. rewrite Rmult_assoc, Rinv_l in H0 by lra. lra. }
  apply sum_zero_inv in Hsum; [| apply errors_nonneg].
  apply Forall_forall. intros r' Hr'. rewrite Forall_forall in Hsum.
  specialize (Hsum (Rabs (predicted r' - actual r'))).
  unfold exact.
  assert (Rabs (predicted r' - actual r') = 0) as Habs.
  { apply Hsum. apply list_elem_of_fmap. eauto. }
  destruct (Req_dec (predicted r' - actual r') 0) as [Hz | Hnz]; [lra |].
  apply Rabs_no_R0 in Hnz. done.
Qed.

Lemma mae_le_one results :
  Forall (fun r => 0 <= predicted r <= 1 /\ 0 <= actual r <= 1) results -> _mae results <= 1.
Proof.
  intros Hunit. destruct results as [| r results]; [simpl; lra |].
  rewrite mae_cons.
  pose proof (len_pos (r :: results) ltac:(done)) as Hlen.
  apply Rmult_le_reg_r with (Py.len (r :: results)); [done |].
  unfold Rdiv. rewrite Rmult_assoc, Rinv_l by lra. rewrite Rmult_1_r, Rmult_1_l.
  replace (Py.len (r :: results))
    with (Py.len (map (fun r => Rabs (predicted r - actual r)) (r :: results)))
    by (unfold Py.len; now rewrite length_map).
  apply sum_le_len. apply Forall_forall. intros x Hx.
  apply list_elem_of_fmap in Hx as (r' & -> & Hr').
  rewrite Forall_forall in Hunit. destruct (Hunit r' Hr') as [Hp Ha].
  apply Rabs_le. lra.
Qed.

Lemma round_one n : Py.round 1 n = 1.
Proof.
  pose proof (PyFacts.pow10_pos n) as Hp.
  unfold Py.round. rewrite Rmult_1_l.
  replace (10 ^ n) with (IZR (10 ^ Z.of_nat n)) at 1.
  - rewrite PyFacts.round_half_even_IZR.
    rewrite <- (pow_IZR 10 n). field. lra.
  - now rewrite <- (pow_IZR 10 n).
Qed.

Lemma round_zero n : Py.round 0 n = 0.
Proof.
  unfold Py.round. rewrite Rmult_0_l.
  change 0 with (IZR 0) at 1. rewrite PyFacts.round_half_even_IZR.
  unfold Rdiv. lra.
Qed.

End SignalFacts.

Module SignalFacts2.
Import RewardSignals SignalFacts.

(** A value less than half a unit away from an integer rounds to it. *)
Lemma round_half_even_near (z : Z) (y : R) :
  IZR z - 1 / 2 < y < IZR z + 1 / 2 -> Py.round_half_even y = z.
Proof.
  intros [Hlo Hhi]. unfold Py.round_half_even.
  pose proof (Zfloor_bound y) as [Hf1 Hf2].
  assert (Hle : (Zfloor y <= z)%Z).
  { apply Z.lt_succ_r, lt_IZR. rewrite succ_IZR. lra. }
  assert (Hge : (z - 1 <= Zfloor y)%Z).
  { apply Z.lt_succ_r, lt_IZR. rewrite succ_IZR, minus_IZR. lra. }
  destruct (Z.eq_dec (Zfloor y) z) as [Heq | Hne].
  - rewrite Heq in *. destruct (Rlt_dec (y - IZR z) (1 / 2)); [done | lra].
  - assert (Heq : Zfloor y = (z - 1)%Z) by lia.
    rewrite Heq in *. rewrite minus_IZR in *.
    destruct (Rlt_dec (y - (IZR z - 1)) (1 / 2)); [lra |].
    destruct (Rgt_dec (y - (IZR z - 1)) (1 / 2)); [lia | lra].
Qed.

Lemma round_near (z : Z) (x : R) (n : nat) :
  IZR z - 1 / 2 < x * 10 ^ n < IZR z + 1 / 2 -> Py.round x n = IZR z / 10 ^ n.
Proof. intros H. unfold Py.round. now rewrite (round_half_even_near z). Qed.

(** Rounding does not pass a decimal of its own precision. *)
Lemma round_le_decimal (z : Z) (x : R) (n : nat) :
  x <= IZR z / 10 ^ n -> Py.round x n <= IZR z / 10 ^ n.
Proof.
  intros Hx. pose proof (PyFacts.pow10_pos n) as Hp. unfold Py.round.
  apply Rmult_le_compat_r; [left; now apply Rinv_0_lt_compat |].
  apply IZR_le, PyFacts.round_half_even_le.
  apply Rmult_le_compat_r with (r := 10 ^ n) in Hx; [| lra].
  unfold Rdiv in Hx. rewrite Rmult_assoc, Rinv_l, Rmult_1_r in Hx by lra. done.
Qed.

Lemma zip_self_squares (l : list R) :
  Forall (fun x => x = 0) (map (fun '(ra, rp) => (ra - rp) ^ 2) (zip l l)).
Proof.
  induction l as [| x l IH]; [constructor |].
  simpl. constructor; [| exact IH]. rewrite Rminus_diag. lra.
Qed.

Lemma exact_columns results : Forall exact results -> map actual results = map predicted results.
Proof.
  induction 1 as [| r results Hr _ IH]; [done |]. simpl. now rewrite IH, Hr.
Qed.

Lemma std_nonneg (values : list R) : 0 <= _std values.
Proof. unfold _std. destruct (_ <? _)%nat; [lra | apply sqrt_pos]. Qed.

(** The spread of a list of equal values is zero. *)
Lemma std_constant (c : R) (values : list R) :
  Forall (fun v => v = c) values -> _std values = 0.
Proof.
  intros Hc. unfold _std. destruct (Nat.ltb_spec (length values) 2) as [| Hlen]; [done |].
  assert (Hpos : 0 < Py.len values).
  { apply len_pos. destruct values; [simpl in Hlen; lia | done]. }
  assert (Hmean : Py.sum values / Py.len values = c).
  { rewrite (sum_constant c values Hc). field. lra. }
  rewrite Hmean, sum_zero.
  - unfold Rdiv. rewrite Rmult_0_l. apply sqrt_0.
  - apply Forall_forall. intros x Hx. apply list_elem_of_fmap in Hx as (v & -> & Hv).
    rewrite Forall_forall in Hc. rewrite (Hc v Hv). lra.
Qed.

End SignalFacts2.

(** X1: the mean absolute error of no results is 1; that of some
    results is never negative, is at most 1 when predictions and labels
    are in the unit interval, and is 0 exactly when every prediction
    equals its label. *)
Theorem X1_mae_range_and_zero :
  RewardSignals._mae [] = 1
  /\ forall results,
      0 <= RewardSignals._mae results
      /\ (Forall (fun r => 0 <= RewardSignals.predicted r <= 1
                           /\ 0 <= RewardSignals.actual r <= 1) results ->
          RewardSignals._mae results <= 1)
      /\ (results <> [] ->
          (RewardSignals._mae results = 0 <-> Forall SignalFacts.exact results)).
Proof.
  split; [reflexivity |]. intros results.
  split; [apply SignalFacts.mae_nonneg |].
  split; [apply SignalFacts.mae_le_one |].
  intros Hne. split.
  - now apply SignalFacts.mae_zero_inv.
  - now apply SignalFacts.mae_exact.
Qed.

(** X2: a rubric whose predictions equal the labels on the train and on
    the eval examples gets generalization 1 and, under the root,
    iteration 1; with three results or more it gets discrimination 1. *)
Theorem X2_exact_rubric_full_marks (train evals : list RewardSignals.result) :
  train <> [] -> evals <> [] ->
  Forall SignalFacts.exact train -> Forall SignalFacts.exact evals ->
  RewardSignals.generalization_reward train evals = 1
  /\ RewardSignals.iteration_reward (RewardSignals._mae train) None = 1
  /\ ((3 <= length train)%nat -> RewardSignals.discrimination_reward train = 1).
Proof.
  intros Hnt Hne Ht He.
  pose proof (SignalFacts.mae_exact train Hnt Ht) as Hmt.
  pose proof (SignalFacts.mae_exact evals Hne He) as Hme.
  split; [| split].
  - unfold RewardSignals.generalization_reward.
    destruct train as [| t train]; [done |]. destruct evals as [| e evals]; [done |].
    rewrite Hmt, Hme. unfold Py.float_eqb. destruct (Req_dec_T 0 0); [done | lra].
  - unfold RewardSignals.iteration_reward. rewrite Hmt.
    replace (1 - 0) with 1 by lra.
    rewrite PyFacts.clamp_id by lra. apply SignalFacts.round_one.
  - intros Hlen. unfold RewardSignals.discrimination_reward.
    destruct (Nat.ltb_spec (length train) 3) as [| _]; [lia |].
    rewrite (SignalFacts2.exact_columns train Ht).
    rewrite SignalFacts.sum_zero by apply SignalFacts2.zip_self_squares.
    replace ((1 - 6 * 0 / (Py.len train * (Py.len train * Py.len train - 1)) + 1) / 2)
      with 1 by (unfold Rdiv; lra).
    rewrite PyFacts.clamp_id by lra. apply SignalFacts.round_one.
Qed.

Definition exact_results : list RewardSignals.result :=
  [RewardSignals.Build_result 0.2 0.2; RewardSignals.Build_result 0.5 0.5;
   RewardSignals.Build_result 0.9 0.9].

Lemma X2_exact_rubric_full_marks_witness :
  RewardSignals.generalization_reward exact_results exact_results = 1
  /\ RewardSignals.iteration_reward (RewardSignals._mae exact_results) None = 1
  /\ ((3 <= length exact_results)%nat ->
      RewardSignals.discrimination_reward exact_results = 1).
Proof.
  apply (X2_exact_rubric_full_marks exact_results exact_results).
  - discriminate.
  - discriminate.
  - repeat constructor.
  - repeat constructor.
Defined.

(** X3: a rubric that gives every response the same score gets a
    calibration of at most 0.6: the spread of its predictions is zero,
    so the term for the spread adds nothing. *)
Theorem X3_constant_rubric_calibration (c : R) (results : list RewardSignals.result) :
  Forall (fun r => RewardSignals.predicted r = c) results ->
  RewardSignals.calibration_reward results <= 0.6.
Proof.
  intros Hc. unfold RewardSignals.calibration_reward.
  destruct results as [| r results]; [lra |].
  set (rs := r :: results) in *.
  assert (Hstd : RewardSignals._std (map RewardSignals.predicted rs) = 0).
  { apply (SignalFacts2.std_constant c). apply Forall_forall. intros x Hx.
    apply list_elem_of_fmap in Hx as (r' & -> & Hr').
    rewrite Forall_forall in Hc. now apply Hc. }
  rewrite Hstd.
  pose proof (SignalFacts2.std_nonneg (map RewardSignals.actual rs)) as Ha.
  assert (Hmin : Py.min2 0 (RewardSignals._std (map RewardSignals.actual rs)) = 0).
  { unfold Py.min2. destruct (Rlt_dec _ _); lra. }
  rewrite Hmin.
  set (mean_diff := Rabs _).
  assert (Hmd : 0 <= Py.min2 mean_diff 1).
  { apply PyFacts.min2_glb; [apply Rabs_pos | lra]. }
  replace 0.6 with (IZR 6000 / 10 ^ 4) at 2 by (simpl; lra).
  apply SignalFacts2.round_le_decimal.
  apply PyFacts.max2_lub; [simpl; lra |].
  etransitivity; [apply PyFacts.min2_le_r |].
  unfold Rdiv at 1. rewrite Rmult_0_l. simpl. lra.
Qed.

Definition constant_results : list RewardSignals.result :=
  [RewardSignals.Build_result 0.5 0.1; RewardSignals.Build_result 0.5 0.9].

Lemma X3_constant_rubric_calibration_witness :
  RewardSignals.calibration_reward constant_results <= 0.6.
Proof.
  apply (X3_constant_rubric_calibration 0.5 constant_results).
  repeat constructor.
Defined.

(** X4: a rubric that fails to execute has no results; under the root
    all its signals and its composite are 0, but under a parent that
    failed as well (whose train MAE is the default 1.0) its iteration
    signal is 0.3 and its composite 0.0286. *)
Theorem X4_failed_rubric_rewards (rubric_code out err : string) :
  (let r := RewardSignals.compute_rewards rubric_code [] [] false out err None in
   RewardSignals.generalization r = 0 /\ RewardSignals.calibration r = 0
   /\ RewardSignals.discrimination r = 0 /\ RewardSignals.validity r = 0
   /\ RewardSignals.iteration r = 0 /\ RewardSignals.composite r = 0)
  /\ (let r := RewardSignals.compute_rewards rubric_code [] [] false out err (Some 1) in
      RewardSignals.iteration r = 0.3 /\ RewardSignals.composite r = 0.0286).
Proof.
  assert (Hroot : RewardSignals.iteration_reward 1 None = 0).
  { unfold RewardSignals.iteration_reward. replace (1 - 1) with 0 by lra.
    rewrite PyFacts.clamp_id by lra. apply SignalFacts.round_zero. }
  assert (Hchild : RewardSignals.iteration_reward 1 (Some 1) = 0.3).
  { unfold RewardSignals.iteration_reward, Py.float_eqb.
    destruct (Req_dec_T 1 0) as [? | _]; [lra |].
    destruct (Rgt_dec ((1 - 1) / 1) 0) as [? | _]; [lra |].
    replace (Py.max2 0 (0.3 + (1 - 1) / 1)) with (IZR 3000 / 10 ^ 4).
    - rewrite PyFacts.round_exact. simpl. lra.
    - unfold Py.max2. destruct (Rgt_dec _ _); simpl; lra. }
  split.
  - cbv zeta. unfold RewardSignals.compute_rewards. cbn [RewardSignals.generalization
      RewardSignals.calibration RewardSignals.discrimination RewardSignals.validity
      RewardSignals.iteration RewardSignals.composite].
    rewrite Hroot.
    repeat split; try reflexivity.
    unfold RewardSignals.weights, Py.sum. simpl.
    change (RewardSignals.discrimination_reward []) with 0.
    change (RewardSignals.validity_reward rubric_code false out err) with 0.
    match goal with
    | |- Py.round (?a / ?b) 4 = 0 => replace a with 0 by lra
    end.
    unfold Rdiv. rewrite Rmult_0_l. apply SignalFacts.round_zero.
  - cbv zeta. unfold RewardSignals.compute_rewards. cbn [RewardSignals.iteration
      RewardSignals.composite].
    rewrite Hchild. split; [reflexivity |].
    unfold RewardSignals.weights, Py.sum. simpl.
    change (RewardSignals.discrimination_reward []) with 0.
    change (RewardSignals.validity_reward rubric_code false out err) with 0.
    match goal with
    | |- Py.round (?a / ?b) 4 = _ =>
        replace a with 0.06 by lra; replace b with 2.1 by lra
    end.
    replace 0.0286 with (IZR 286 / 10 ^ 4) by (simpl; lra).
    apply SignalFacts2.round_near. simpl. split; lra.
Qed.

(** ** The rubric sandbox ([rubric-discovery/backend/repl_env.py]) *)

Module RubricFacts.
Import RubricRepl.



End RubricFacts.


(** ** The statistics of the two trees ([mcts_engine.py] of both variants) *)

Module StatFacts.
Import Tree.

Section Generic.
Context {N : Type} {node_ops : Node N}.
Implicit Types (nodes : gmap string N).

(** The sum of the values of a node is between nothing and one for each
    of its visits. *)
Definition bounded nodes : Prop :=
  forall k n, nodes !! k = Some n -> 0 <= node_total n <= IZR (node_visits n).

(** No node has been visited more often than its parent. *)
Definition ordered nodes : Prop :=
  forall k n p pn, nodes !! k = Some n -> node_parent n = Some p ->
    nodes !! p = Some pn -> (node_visits n <= node_visits pn)%Z.

Lemma backpropagate_loop_bounded (value : R) fuel : forall nodes current nodes',
  0 <= value <= 1 -> bounded nodes ->
  backpropagate_loop fuel nodes current value = Ok nodes' -> bounded nodes'.
Proof.
  induction fuel as [| fuel IH]; intros nodes [cid |] nodes' Hv Hb Hrun; simpl in Hrun;
    try (injection Hrun as <-; exact Hb); try discriminate.
  unfold getitem in Hrun. destruct (nodes !! cid) as [node |] eqn:Hn; [| discriminate].
  simpl in Hrun. apply (IH _ _ _ Hv) in Hrun; [exact Hrun |].
  intros k n Hk. apply lookup_insert_Some in Hk as [[<- <-] | [_ Hk]]; [| eauto].
  rewrite visit_total, visit_visits, plus_IZR.
  specialize (Hb _ _ Hn). lra.
Qed.

(** The parent of a node of the walk is on the walk. *)
Lemma chain_parent nodes id l :
  chain nodes id l -> forall k n p, k ∈ l -> nodes !! k = Some n ->
  node_parent n = Some p -> p ∈ l.
Proof.
  induction 1 as [i n0 Hn0 Hp0 | i n0 q l Hn0 Hp0 Hc IH]; intros k n p Hk Hn Hp.
  - apply list_elem_of_singleton in Hk as ->. congruence.
  - apply elem_of_cons in Hk as [-> | Hk].
    + assert (p = q) by congruence. subst p.
      destruct (TreeFacts.chain_head _ _ _ Hc) as (t & ->). set_solver.
    + apply elem_of_cons. right. eapply IH; eauto.
Qed.

Lemma visited_ordered nodes nodes' id l value :
  chain nodes id l -> TreeFacts.visited l value nodes nodes' ->
  ordered nodes -> ordered nodes'.
Proof.
  intros Hc Hvis Hord k n' p pn' Hk Hp Hpn.
  rewrite (Hvis k) in Hk. rewrite (Hvis p) in Hpn.
  destruct (decide (k ∈ l)) as [Hkl | Hkl].
  - destruct (nodes !! k) as [n |] eqn:Hn; [| discriminate]. injection Hk as <-.
    rewrite visit_parent in Hp.
    pose proof (chain_parent _ _ _ Hc k n p Hkl Hn Hp) as Hpl.
    rewrite decide_True in Hpn by done.
    destruct (nodes !! p) as [pn |] eqn:Hpn0; [| discriminate]. injection Hpn as <-.
    rewrite !visit_visits. specialize (Hord k n p pn Hn Hp Hpn0). lia.
  - destruct (decide (p ∈ l)) as [Hpl | Hpl].
    + destruct (nodes !! p) as [pn |] eqn:Hpn0; [| discriminate]. injection Hpn as <-.
      rewrite visit_visits. specialize (Hord k n' p pn Hk Hp Hpn0). lia.
    + exact (Hord k n' p pn' Hk Hp Hpn).
Qed.

(** The score of a visited node, for a count of the parent of one or
    more: the average plus a bonus that is not negative. *)
Lemma ucb_visited_value (n : N) (pv : Z) (c : R) :
  (0 < node_visits n)%Z -> (1 <= pv)%Z ->
  ucb_score n pv c
  = Ok (Fin (node_total n / IZR (node_visits n)
             + c * sqrt (ln (IZR pv) / IZR (node_visits n)))).
Proof.
  intros Hv Hpv. unfold ucb_score.
  destruct (Z.eqb_spec (node_visits n) 0) as [? | _]; [lia |].
  destruct (Z.leb_spec pv 0) as [? | _]; [lia |]. cbn [bind].
  assert (Hln : 0 <= ln (IZR pv)) by (apply SelectFacts.ln_nonneg, IZR_le; lia).
  assert (Hvis : 0 < IZR (node_visits n)) by (apply IZR_lt; lia).
  destruct (Rlt_dec _ _) as [Hneg | _]; [| reflexivity].
  exfalso. apply Rlt_not_le in Hneg. apply Hneg.
  apply Rmult_le_pos; [done |]. left. now apply Rinv_0_lt_compat.
Qed.

End Generic.

End StatFacts.

(** X8: back-propagating a value of the unit interval keeps, at every
    node, the total between 0 and the number of visits, in both
    engines; so the average value of a node of the transcript tree
    stays in the unit interval. *)
Theorem X8_backpropagate_keeps_totals_bounded :
  (forall W (self self' : ReasoningTree.MCTSReasoningTree W) node_id value,
      0 <= value <= 1 ->
      StatFacts.bounded (ReasoningTree.nodes self) ->
      ReasoningTree._backpropagate self node_id value = Ok self' ->
      StatFacts.bounded (ReasoningTree.nodes self')
      /\ forall k n, ReasoningTree.nodes self' !! k = Some n ->
                     0 <= ReasoningTree.avg_value n <= 1)
  /\ (forall W (self self' : RubricTree.MCTSRubricTree W) node reward,
      0 <= reward <= 1 ->
      StatFacts.bounded (RubricTree.nodes self) ->
      RubricTree._backpropagate self node reward = Ok self' ->
      StatFacts.bounded (RubricTree.nodes self')).
Proof.
  split.
  - intros W self self' node_id value Hv Hb Hrun.
    unfold ReasoningTree._backpropagate, Tree._backpropagate in Hrun.
    destruct (Tree.backpropagate_loop _ _ _ _) as [nodes' | |] eqn:Hloop;
      simpl in Hrun; [| discriminate | discriminate].
    injection Hrun as <-. simpl.
    pose proof (StatFacts.backpropagate_loop_bounded value _ _ _ _ Hv Hb Hloop) as Hb'.
    split; [exact Hb' |].
    intros k n Hn. specialize (Hb' k n Hn). simpl in Hb'.
    unfold ReasoningTree.avg_value.
    destruct (Z.gtb_spec (ReasoningTree.visits n) 0) as [Hpos | _]; [| lra].
    assert (0 < IZR (ReasoningTree.visits n)) by (apply IZR_lt; lia).
    split.
    + apply Rmult_le_pos; [lra |]. left. now apply Rinv_0_lt_compat.
    + apply Rmult_le_reg_r with (IZR (ReasoningTree.visits n)); [done |].
      unfold Rdiv. rewrite Rmult_assoc, Rinv_l by lra. lra.
  - intros W self self' node reward Hv Hb Hrun.
    unfold RubricTree._backpropagate, Tree._backpropagate in Hrun.
    destruct (Tree.backpropagate_loop _ _ _ _) as [nodes' | |] eqn:Hloop;
      simpl in Hrun; [| discriminate | discriminate].
    injection Hrun as <-. simpl.
    exact (StatFacts.backpropagate_loop_bounded reward _ _ _ _ Hv Hb Hloop).
Qed.

(** A root with one child, each visited once with a value of 0.8. *)
Definition parent_and_child : ReasoningTree.MCTSReasoningTree unit :=
  ReasoningTree.mkTree tt 12 5 1.414
    (<["0000000b" :=
         ReasoningTree.mkNode "0000000b" "Follow-up code" "code" (Some "0000000a") [] 1 0.8 1
           "print(len(context))" "12" "" ∅ 0]>
       (<["0000000a" :=
            ReasoningTree.mkNode "0000000a" "what is said?" "question" None ["0000000b"]
              1 0.8 0 "" "" "" ∅ 0]> ∅))
    ∅ 2 1 [].

Lemma parent_and_child_chain :
  Tree.chain (ReasoningTree.nodes parent_and_child) "0000000b" ["0000000b"; "0000000a"].
Proof.
  eapply Tree.chain_step; [reflexivity | reflexivity |].
  eapply Tree.chain_root; reflexivity.
Qed.

Lemma parent_and_child_lookup k n :
  ReasoningTree.nodes parent_and_child !! k = Some n ->
  (k = "0000000b" /\ n = ReasoningTree.mkNode "0000000b" "Follow-up code" "code"
                           (Some "0000000a") [] 1 0.8 1 "print(len(context))" "12" "" ∅ 0)
  \/ (k = "0000000a" /\ n = ReasoningTree.mkNode "0000000a" "what is said?" "question"
                              None ["0000000b"] 1 0.8 0 "" "" "" ∅ 0).
Proof.
  unfold parent_and_child. cbn [ReasoningTree.nodes]. intros Hk.
  apply lookup_insert_Some in Hk as [[<- <-] | [_ Hk]]; [left; done |].
  apply lookup_insert_Some in Hk as [[<- <-] | [_ Hk]]; [right; done |].
  rewrite lookup_empty in Hk. discriminate.
Qed.

Lemma X8_backpropagate_keeps_totals_bounded_witness :
  exists self',
    ReasoningTree._backpropagate parent_and_child "0000000b" 0.5 = Ok self'
    /\ StatFacts.bounded (ReasoningTree.nodes self')
    /\ forall k n, ReasoningTree.nodes self' !! k = Some n ->
                   0 <= ReasoningTree.avg_value n <= 1.
Proof.
  destruct (TreeFacts.backpropagate_chain _ _ _ 0.5 parent_and_child_chain)
    as (nodes' & Hrun & _).
  eexists. split.
  - unfold ReasoningTree._backpropagate. rewrite Hrun. reflexivity.
  - apply (proj1 X8_backpropagate_keeps_totals_bounded unit parent_and_child _
             "0000000b" 0.5).
    + lra.
    + intros k n Hn.
      destruct (parent_and_child_lookup k n Hn) as [[_ ->] | [_ ->]]; simpl; lra.
    + unfold ReasoningTree._backpropagate. rewrite Hrun. reflexivity.
Defined.

Module UcbFacts.
Import Tree.

Section Generic.
Context {N : Type} {node_ops : Node N}.

Lemma ln_le_mono (a b : R) : 1 <= a -> a <= b -> ln a <= ln b.
Proof.
  intros Ha [Hlt | ->]; [| lra]. left. apply ln_increasing; lra.
Qed.

(** What [ucb_score] gives for a visited node: at least the average, the
    average itself when the parent has been visited once, and no less
    when the parent has been visited more often. *)
Lemma ucb_bonus (n : N) (pv : Z) (c : R) :
  (0 < node_visits n)%Z -> (1 <= pv)%Z -> 0 <= c ->
  exists x,
    ucb_score n pv c = Ok (Fin x)
    /\ node_total n / IZR (node_visits n) <= x
    /\ (pv = 1%Z -> x = node_total n / IZR (node_visits n))
    /\ (forall pv' x', (pv <= pv')%Z -> ucb_score n pv' c = Ok (Fin x') -> x <= x').
Proof.
  intros Hv Hpv Hc. eexists. split; [now apply StatFacts.ucb_visited_value |].
  assert (Hvis : 0 < IZR (node_visits n)) by (apply IZR_lt; lia).
  split; [| split].
  - pose proof (sqrt_pos (ln (IZR pv) / IZR (node_visits n))). nra.
  - intros ->. rewrite ln_1. unfold Rdiv at 2. rewrite Rmult_0_l, sqrt_0. lra.
  - intros pv' x' Hle Hx'.
    rewrite StatFacts.ucb_visited_value in Hx' by (done || lia).
    injection Hx' as <-.
    apply Rplus_le_compat_l, Rmult_le_compat_l; [done |].
    apply sqrt_le_1_alt.
    apply Rmult_le_compat_r; [left; now apply Rinv_0_lt_compat |].
    apply ln_le_mono; [apply IZR_le; lia | apply IZR_le; lia].
Qed.

End Generic.

End UcbFacts.

(** X9: for a node that has been visited and a count of the parent of
    one or more, [ucb_score] is the average value plus an exploration
    bonus that is not negative (the exploration constant being not
    negative): it is at least the average, it is the average when the
    parent has one visit, and it does not fall when the parent has more
    visits.  The same holds in the rubric tree. *)
Theorem X9_ucb_score_is_average_plus_bonus :
  (forall (n : ReasoningTree.ReasoningNode) (pv : Z) (c : R),
      (0 < ReasoningTree.visits n)%Z -> (1 <= pv)%Z -> 0 <= c ->
      exists x,
        ReasoningTree.ucb_score n pv c = Ok (Tree.Fin x)
        /\ ReasoningTree.avg_value n <= x
        /\ (pv = 1%Z -> x = ReasoningTree.avg_value n)
        /\ (forall pv' x', (pv <= pv')%Z ->
            ReasoningTree.ucb_score n pv' c = Ok (Tree.Fin x') -> x <= x'))
  /\ (forall (n : RubricTree.RubricNode) (pv : Z),
      (0 < RubricTree.visits n)%Z -> (1 <= pv)%Z ->
      exists x,
        RubricTree.ucb_score n pv = Ok (Tree.Fin x)
        /\ RubricTree.total_reward n / IZR (RubricTree.visits n) <= x
        /\ (pv = 1%Z -> x = RubricTree.total_reward n / IZR (RubricTree.visits n))
        /\ (forall pv' x', (pv <= pv')%Z ->
            RubricTree.ucb_score n pv' = Ok (Tree.Fin x') -> x <= x')).
Proof.
  split.
  - intros n pv c Hv Hpv Hc.
    destruct (UcbFacts.ucb_bonus (node_ops := ReasoningTree.reasoning_node) n pv c Hv Hpv Hc)
      as (x & Hx & Havg & Hone & Hmono).
    exists x. unfold ReasoningTree.ucb_score, ReasoningTree.avg_value.
    destruct (Z.gtb_spec (ReasoningTree.visits n) 0) as [_ | ?]; [| lia].
    auto.
  - intros n pv Hv Hpv.
    destruct (UcbFacts.ucb_bonus (node_ops := RubricTree.rubric_node) n pv 1.414 Hv Hpv
                ltac:(lra))
      as (x & Hx & Havg & Hone & Hmono).
    exists x. unfold RubricTree.ucb_score. auto.
Qed.

Lemma X9_ucb_score_is_average_plus_bonus_witness :
  exists x,
    ReasoningTree.ucb_score
      (ReasoningTree.mkNode "0000000b" "Follow-up code" "code" (Some "0000000a") [] 2 1.5 1
         "print(len(context))" "12" "" ∅ 0) 3 1.414 = Ok (Tree.Fin x)
    /\ ReasoningTree.avg_value
         (ReasoningTree.mkNode "0000000b" "Follow-up code" "code" (Some "0000000a") [] 2 1.5 1
            "print(len(context))" "12" "" ∅ 0) <= x.
Proof.
  destruct (proj1 X9_ucb_score_is_average_plus_bonus
              (ReasoningTree.mkNode "0000000b" "Follow-up code" "code" (Some "0000000a")
                 [] 2 1.5 1 "print(len(context))" "12" "" ∅ 0) 3%Z 1.414)
    as (x & Hx & Havg & _).
  - simpl. lia.
  - lia.
  - lra.
  - exists x. split; [exact Hx | exact Havg].
Defined.

(** X10: in a tree where no node has more visits than its parent,
    back-propagation from a node whose parent links lead to a node
    without parent returns, and leaves a tree where again no node has
    more visits than its parent; in both engines. *)
Theorem X10_backpropagate_keeps_parents_ahead :
  (forall W (self : ReasoningTree.MCTSReasoningTree W) node_id l value,
      Tree.chain (ReasoningTree.nodes self) node_id l ->
      StatFacts.ordered (ReasoningTree.nodes self) ->
      exists self',
        ReasoningTree._backpropagate self node_id value = Ok self'
        /\ StatFacts.ordered (ReasoningTree.nodes self'))
  /\ (forall W (self : RubricTree.MCTSRubricTree W) node l reward,
      Tree.chain (RubricTree.nodes self) (RubricTree.id node) l ->
      StatFacts.ordered (RubricTree.nodes self) ->
      exists self',
        RubricTree._backpropagate self node reward = Ok self'
        /\ StatFacts.ordered (RubricTree.nodes self')).
Proof.
  split.
  - intros W self node_id l value Hc Hord.
    destruct (TreeFacts.backpropagate_chain _ _ _ value Hc) as (nodes' & Hrun & Hvis).
    unfold ReasoningTree._backpropagate. rewrite Hrun. cbn [bind].
    eexists. split; [reflexivity |]. cbn [ReasoningTree.nodes].
    eapply StatFacts.visited_ordered; eauto.
  - intros W self node l reward Hc Hord.
    destruct (TreeFacts.backpropagate_chain _ _ _ reward Hc) as (nodes' & Hrun & Hvis).
    unfold RubricTree._backpropagate. rewrite Hrun. cbn [bind].
    eexists. split; [reflexivity |]. cbn [RubricTree.nodes].
    eapply StatFacts.visited_ordered; eauto.
Qed.

Lemma X10_backpropagate_keeps_parents_ahead_witness :
  exists self',
    ReasoningTree._backpropagate parent_and_child "0000000b" 0.5 = Ok self'
    /\ StatFacts.ordered (ReasoningTree.nodes self').
Proof.
  apply (proj1 X10_backpropagate_keeps_parents_ahead unit parent_and_child "0000000b"
           ["0000000b"; "0000000a"] 0.5 parent_and_child_chain).
  intros k n p pn Hn Hp Hpn.
  destruct (parent_and_child_lookup k n Hn) as [[_ ->] | [_ ->]];
    destruct (parent_and_child_lookup p pn Hpn) as [[_ ->] | [_ ->]];
    simpl in *; (lia || discriminate).
Defined.

(** ** The trees the two engines build *)

Module ShapeFacts.
Import Tree.

Section Generic.
Context {N : Type} {node_ops : Node N}.
Implicit Types (nodes : gmap string N).




End Generic.

End ShapeFacts.

(** X11: a search of [k] iterations on a new tree, the ids handed out
    differing from one another, returns after it has sent [k + 1]
    snapshots (one for the root, one at the end of each iteration), and
    the tree it leaves is well formed: the root has no parent and depth
    0, every other node has its parent in the tree and is one level
    below it, every child listed by a node is in the tree one level
    below it, and every key is one of the ids handed out. *)
Theorem X11_search_leaves_well_formed_tree {W : Type} (out : ReasoningTree.outside W)
    (ids_differ : Inj (=) (=) (ReasoningTree.uuid4 out))
    (w : W) (k : nat) (max_depth : Z) (c : R) (question : string) :
  exists root self',
    ReasoningTree.search out (ReasoningTree.__init__ w (Z.of_nat k) max_depth c) question
    = Ok (root, self')
    /\ length (ReasoningTree.emitted self') = S k
    /\ Tree.wf root (ReasoningTree.nodes self')
    /\ (forall key, is_Some (ReasoningTree.nodes self' !! key) ->
        exists j, (j < ReasoningTree.ids_made self')%nat
                  /\ key = ReasoningTree.uuid4 out j).
Proof.
  unfold ReasoningTree.search, ReasoningTree.__init__.
  cbn [ReasoningTree._make_id ReasoningTree.ids_made].
  set (root := ReasoningTree.uuid4 out 0).
  set (self0 := ReasoningTree.on_node _ _).
  destruct (SearchFacts.search_loop_ok out ids_differ root question k self0)
    as (self' & Hrun & [Hwf Hiss] & _ & _ & He).
  - split.
    + subst self0. simpl. rewrite insert_empty.
      apply GrowFacts.wf_singleton; simpl; (done || lia).
    + subst self0. simpl. intros key [n Hn].
      apply lookup_insert_Some in Hn as [[<- _] | [_ Hn]]; [| done].
      exists 0%nat. split; [lia | done].
  - subst self0. simpl. rewrite lookup_insert_eq. eauto.
  - exists root, self'.
    change (ReasoningTree.max_iterations self0) with (Z.of_nat k).
    rewrite Nat2Z.id, Hrun. cbn [bind].
    split; [reflexivity |]. split; [| split; [exact Hwf | exact Hiss]].
    subst self0. simpl in He. lia.
Qed.

Lemma X11_search_leaves_well_formed_tree_witness :
  exists root self',
    ReasoningTree.search one_strategy
      (ReasoningTree.__init__ tt (Z.of_nat 2) 3 1.414) "what is said?" = Ok (root, self')
    /\ length (ReasoningTree.emitted self') = 3%nat
    /\ Tree.wf root (ReasoningTree.nodes self')
    /\ (forall key, is_Some (ReasoningTree.nodes self' !! key) ->
        exists j, (j < ReasoningTree.ids_made self')%nat
                  /\ key = ReasoningTree.uuid4 one_strategy j).
Proof.
  apply (X11_search_leaves_well_formed_tree one_strategy).
  intros a b. apply pretty_nat_inj.
Defined.


